(** * Avox: streaming ad generation, client-side reconciliation

    A shallow embedding of the client's item store (adDataStore), the wire
    schemas (ws.schemas), the connection session (services/ws) and the
    notification scheduler (notificationStore), with the properties the
    specification states about them.

    Conventions of the embedding.
    - The [index] of a stored item is the array position [forEach] passed,
      an integer: a [Z] here.  A number read off the wire is a rational
      ([Q]); it addresses a stored item when it equals the item's index.
    - [string | null] is [option string]; the sentinels ["pending"] and
      ["error"] are ordinary strings, as in the source.
    - A store is a value; [get()] reads it and [set(...)] returns the next
      one.  Where the source writes to an object it found in the store and
      then hands it to [updateAd], the write is a record update and the
      hand-over is the same [updateAd]. *)

From Stdlib Require Import ZArith QArith Qround.
From Stdlib Require Import Strings.Ascii Strings.Byte Numbers.DecimalString.
From stdpp Require Import base option list strings gmap.

Set Warnings "-register-all".

Local Open Scope Z_scope.
Local Open Scope string_scope.

(** ** adDataStore *)

Module AdDataStore.

Record Sentence := { text : string; start : Q; end_ : Q }.
Record Insight := { insight : string; explanation : string }.

(** ["pending" | "error" | T[] | null] *)
Inductive Progress (A : Type) : Type :=
| PNull
| PPending
| PError
| PReady (v : list A).
Arguments PNull {A}.
Arguments PPending {A}.
Arguments PError {A}.
Arguments PReady {A} v.

Inductive Status := StPending | StDone.

Record AdData := {
  index : Z;
  musicAudioSrc : option string;
  nonMusicAudioSrc : option string;
  transcriptSents : Progress Sentence;
  englishTranscriptSents : option (list string);
  insights : Progress Insight;
  location : option string;
  status : Status;
  theme : option string
}.

Record CountryData := { name : string; code : string }.

Record AdDataState := {
  ads : list AdData;
  activeIndex : option Z
}.

Definition initial : AdDataState := {| ads := []; activeIndex := None |}.

(** [x === "pending"] on a [string | null] field *)
Definition is_str (lit : string) (x : option string) : bool :=
  match x with
  | Some s => String.eqb s lit
  | None => false
  end.

Definition is_null (x : option string) : bool :=
  match x with
  | Some _ => false
  | None => true
  end.

Definition is_ppending {A} (x : Progress A) : bool :=
  match x with
  | PPending => true
  | _ => false
  end.

Definition is_stpending (s : Status) : bool :=
  match s with
  | StPending => true
  | StDone => false
  end.

Definition setAds (new_ads : list AdData) (st : AdDataState) : AdDataState :=
  {| ads := new_ads; activeIndex := activeIndex st |}.

Definition appendAd (ad : AdData) (st : AdDataState) : AdDataState :=
  let currentAds := ads st in
  setAds (currentAds ++ [ad]) st.

Definition setActiveIndex (i : Z) (st : AdDataState) : AdDataState :=
  {| ads := ads st; activeIndex := Some i |}.

(** [ads.find(ad => ad.index === i)] *)
Definition find_ad (i : Z) (l : list AdData) : option AdData :=
  List.find (fun ad => Z.eqb (index ad) i) l.

Definition getAdLoadingState (i : Z) (st : AdDataState) : bool :=
  match find_ad i (ads st) with
  | None => false
  | Some ad =>
      let musicLoading := is_str "pending" (musicAudioSrc ad) in
      let nonMusicLoading := is_str "pending" (nonMusicAudioSrc ad) in
      let musicNull := is_null (musicAudioSrc ad) in
      let nonMusicNull := is_null (nonMusicAudioSrc ad) in
      (musicLoading && nonMusicLoading)
      || (musicNull && nonMusicLoading)
      || (nonMusicNull && musicLoading)
  end.

Definition getAdErrorState (i : Z) (st : AdDataState) : bool :=
  match find_ad i (ads st) with
  | None => false
  | Some ad =>
      let musicError := is_str "error" (musicAudioSrc ad) in
      let nonMusicError := is_str "error" (nonMusicAudioSrc ad) in
      let musicNull := is_null (musicAudioSrc ad) in
      let nonMusicNull := is_null (nonMusicAudioSrc ad) in
      (musicError && nonMusicError)
      || (musicNull && nonMusicError)
      || (nonMusicNull && musicError)
  end.

Definition updateAd (updatedAd : AdData) (st : AdDataState) : AdDataState :=
  let updatedAds :=
    map (fun ad => if Z.eqb (index ad) (index updatedAd) then updatedAd else ad)
        (ads st) in
  setAds updatedAds st.

(** helpers/utils: the palette of [getRandomVibrantColor] *)
Definition vibrantColors : list string :=
  [ "#FF5733"; "#FF6F61"; "#FFC300"; "#FF33A8"; "#00C1D4"; "#28B463";
    "#9B59B6"; "#E74C3C"; "#3498DB"; "#F39C12"; "#1ABC9C"; "#8E44AD" ].

(** [vibrantColors[Math.floor(r * vibrantColors.length)]] for the value [r]
    that [Math.random()] returned; a position outside the array reads as
    no colour. *)
Definition getRandomVibrantColor (r : Q) : option string :=
  let i := Qfloor (Qmult r (inject_Z (Z.of_nat (length vibrantColors)))) in
  if Z.ltb i 0 then None else vibrantColors !! Z.to_nat i.

Definition newAd (country : CountryData) (i : Z) (r : Q) : AdData :=
  {| index := i;
     transcriptSents := PPending;
     englishTranscriptSents := None;
     insights := PPending;
     musicAudioSrc := Some "pending";
     nonMusicAudioSrc := Some "pending";
     location := Some (name country);
     status := StPending;
     theme := getRandomVibrantColor r |}.

(** [data.forEach((country, index) => get().appendAd({...}))], from
    position [i] on; [random k] is what the [k]-th call of [Math.random]
    returns and [calls] counts the calls made so far. *)
Fixpoint populateAds_from (random : nat -> Q) (i : Z) (data : list CountryData)
    (w : nat * AdDataState) : nat * AdDataState :=
  match data with
  | [] => w
  | country :: rest =>
      let '(calls, st) := w in
      populateAds_from random (i + 1) rest
        (S calls, appendAd (newAd country i (random calls)) st)
  end.

Definition populateAds (random : nat -> Q) (data : list CountryData)
    (w : nat * AdDataState) : nat * AdDataState :=
  populateAds_from random 0 data w.

Definition failAd (ad : AdData) : AdData :=
  {| index := index ad;
     musicAudioSrc :=
       if is_str "pending" (musicAudioSrc ad) then Some "error" else musicAudioSrc ad;
     nonMusicAudioSrc :=
       if is_str "pending" (nonMusicAudioSrc ad) then Some "error" else nonMusicAudioSrc ad;
     transcriptSents :=
       if is_ppending (transcriptSents ad) then PError else transcriptSents ad;
     englishTranscriptSents := englishTranscriptSents ad;
     insights := if is_ppending (insights ad) then PError else insights ad;
     location := location ad;
     status := if is_stpending (status ad) then StDone else status ad;
     theme := theme ad |}.

Definition failAllPendingRequests (st : AdDataState) : AdDataState :=
  let updatedAds := map failAd (ads st) in
  setAds updatedAds st.

Definition nullifyAd (ad : AdData) : AdData :=
  {| index := index ad;
     musicAudioSrc :=
       if is_str "pending" (musicAudioSrc ad) then None else musicAudioSrc ad;
     nonMusicAudioSrc :=
       if is_str "pending" (nonMusicAudioSrc ad) then None else nonMusicAudioSrc ad;
     transcriptSents :=
       if is_ppending (transcriptSents ad) then PNull else transcriptSents ad;
     englishTranscriptSents := englishTranscriptSents ad;
     insights := if is_ppending (insights ad) then PNull else insights ad;
     location := location ad;
     status := if is_stpending (status ad) then StDone else status ad;
     theme := theme ad |}.

Definition nullifyAllPendingRequests (st : AdDataState) : AdDataState :=
  let updatedAds := map nullifyAd (ads st) in
  setAds updatedAds st.

(** [Boolean(src && src !== "pending" && src !== "error")]: the empty
    string is falsy, like [null]. *)
Definition is_available (src : option string) : bool :=
  match src with
  | Some s =>
      negb (String.eqb s "") && negb (String.eqb s "pending")
      && negb (String.eqb s "error")
  | None => false
  end.

Definition getActiveAd (st : AdDataState) : option AdData :=
  match activeIndex st with
  | None => None
  | Some a =>
      if Z.ltb a 0 || Z.leb (Z.of_nat (length (ads st))) a then None
      else find_ad a (ads st)
  end.

Definition hasAdWithAudio (i : Z) (st : AdDataState) : bool :=
  match find_ad i (ads st) with
  | None => false
  | Some ad =>
      let hasMusicAudio := is_available (musicAudioSrc ad) in
      let hasNonMusicAudio := is_available (nonMusicAudioSrc ad) in
      hasMusicAudio || hasNonMusicAudio
  end.

Record AvailableAudioSources := {
  musicAvailable : bool;
  nonMusicAvailable : bool;
  hasAnyAudio : bool
}.

Definition getAvailableAudioSources (i : Z) (st : AdDataState) : AvailableAudioSources :=
  match find_ad i (ads st) with
  | None =>
      {| musicAvailable := false; nonMusicAvailable := false; hasAnyAudio := false |}
  | Some ad =>
      let music := is_available (musicAudioSrc ad) in
      let nonMusic := is_available (nonMusicAudioSrc ad) in
      {| musicAvailable := music; nonMusicAvailable := nonMusic;
         hasAnyAudio := music || nonMusic |}
  end.

End AdDataStore.

(** ** ws.schemas *)

Module Schemas.

(** A value as [JSON.parse] returns it.  An object keeps its members in a
    list; reading a member takes the first entry with that key. *)
Inductive json : Type :=
| JNull
| JBool (b : bool)
| JNumber (q : Q)
| JString (s : string)
| JArray (items : list json)
| JObject (members : list (string * json)).

Fixpoint get_member (k : string) (members : list (string * json)) : option json :=
  match members with
  | [] => None
  | (k', v) :: rest => if String.eqb k' k then Some v else get_member k rest
  end.

Inductive MsgType :=
| TSpeech | TMerged | TInsight | TDone | TError
| TFatalError | TComplete | TReceived | TAudioComplete.

Inductive Step := SSpeech | SMerged | SInsights | STranscript | SMusic.

(** [z.string()], [z.number()] *)
Definition z_string (j : json) : option string :=
  match j with
  | JString s => Some s
  | _ => None
  end.

Definition z_number (j : json) : option Q :=
  match j with
  | JNumber q => Some q
  | _ => None
  end.

(** [z.array(item)] *)
Definition z_array {A} (item : json -> option A) (j : json) : option (list A) :=
  match j with
  | JArray items => mapM item items
  | _ => None
  end.

(** [schema.optional()] at a key of an object: an absent key is accepted *)
Definition z_optional {A} (schema : json -> option A) (v : option json)
    : option (option A) :=
  match v with
  | None => Some None
  | Some j => Some <$> schema j
  end.

(** a key that the object schema requires *)
Definition z_required {A} (schema : json -> option A) (v : option json) : option A :=
  v ≫= schema.

(** [schema.nullable()] *)
Definition z_nullable {A} (schema : json -> option A) (j : json) : option (option A) :=
  match j with
  | JNull => Some None
  | _ => Some <$> schema j
  end.

Definition z_type (j : json) : option MsgType :=
  s ← z_string j;
  if String.eqb s "speech" then Some TSpeech
  else if String.eqb s "merged" then Some TMerged
  else if String.eqb s "insight" then Some TInsight
  else if String.eqb s "done" then Some TDone
  else if String.eqb s "error" then Some TError
  else if String.eqb s "fatal_error" then Some TFatalError
  else if String.eqb s "complete" then Some TComplete
  else if String.eqb s "received" then Some TReceived
  else if String.eqb s "audio_complete" then Some TAudioComplete
  else None.

Definition z_Step (j : json) : option Step :=
  s ← z_string j;
  if String.eqb s "speech" then Some SSpeech
  else if String.eqb s "merged" then Some SMerged
  else if String.eqb s "insights" then Some SInsights
  else if String.eqb s "transcript" then Some STranscript
  else if String.eqb s "music" then Some SMusic
  else None.

Definition sentenceAlignment (j : json) : option AdDataStore.Sentence :=
  match j with
  | JObject o =>
      t ← z_required z_string (get_member "text" o);
      s ← z_required z_number (get_member "start" o);
      e ← z_required z_number (get_member "end" o);
      Some {| AdDataStore.text := t; AdDataStore.start := s; AdDataStore.end_ := e |}
  | _ => None
  end.

Definition insight (j : json) : option AdDataStore.Insight :=
  match j with
  | JObject o =>
      i ← z_required z_string (get_member "insight" o);
      e ← z_required z_string (get_member "explanation" o);
      Some {| AdDataStore.insight := i; AdDataStore.explanation := e |}
  | _ => None
  end.

(** What [ResponsePayload.parse] returns: the known keys, the others
    stripped.  [None] at a key: the key is absent. *)
Record ResponsePayload := {
  type : MsgType;
  message : option string;
  index : option Q;
  step : option Step;
  transcript : option string;
  translations : option (option (list string));
  alignments : option (list AdDataStore.Sentence);
  insights : option (list AdDataStore.Insight)
}.

(** [ResponsePayload.parse]; [None] when it throws *)
Definition ResponsePayload_parse (j : json) : option ResponsePayload :=
  match j with
  | JObject o =>
      ty ← z_required z_type (get_member "type" o);
      msg ← z_optional z_string (get_member "message" o);
      idx ← z_optional z_number (get_member "index" o);
      stp ← z_optional z_Step (get_member "step" o);
      tr ← z_optional z_string (get_member "transcript" o);
      tl ← z_optional (z_nullable (z_array z_string)) (get_member "translations" o);
      al ← z_optional (z_array sentenceAlignment) (get_member "alignments" o);
      ins ← z_optional (z_array insight) (get_member "insights" o);
      Some {| type := ty; message := msg; index := idx; step := stp;
              transcript := tr; translations := tl; alignments := al;
              insights := ins |}
  | _ => None
  end.

Record InsightsResponse := {
  ir_index : Q;
  ir_insights : list AdDataStore.Insight
}.

Definition is_type (want got : MsgType) : option unit :=
  match want, got with
  | TSpeech, TSpeech | TMerged, TMerged | TInsight, TInsight
  | TDone, TDone | TError, TError | TFatalError, TFatalError
  | TComplete, TComplete | TReceived, TReceived
  | TAudioComplete, TAudioComplete => Some ()
  | _, _ => None
  end.

(** The payload schemas are applied to an object that [ResponsePayload]
    already accepted, so a key that is present has the right shape; what
    they add is the literal [type] and the keys they require. *)
Definition InsightsResponsePayload_parse (r : ResponsePayload) : option InsightsResponse :=
  _ ← is_type TInsight (type r);
  i ← index r;
  ins ← insights r;
  Some {| ir_index := i; ir_insights := ins |}.

Record SpeechResponse := {
  sr_index : Q;
  sr_transcript : string;
  sr_translations : option (list string);
  sr_alignments : list AdDataStore.Sentence
}.

Definition SpeechResponsePayload_parse (r : ResponsePayload) : option SpeechResponse :=
  _ ← is_type TSpeech (type r);
  i ← index r;
  t ← transcript r;
  tl ← translations r;
  al ← alignments r;
  Some {| sr_index := i; sr_transcript := t; sr_translations := tl;
          sr_alignments := al |}.

Definition FinishedAdPayload_parse (r : ResponsePayload) : option Q :=
  _ ← is_type TDone (type r);
  index r.

Definition MergedAdPayload_parse (r : ResponsePayload) : option Q :=
  _ ← is_type TMerged (type r);
  index r.

Record AdError := {
  ae_step : Step;
  ae_index : Q;
  ae_message : string
}.

Definition AdErrorPayload_parse (r : ResponsePayload) : option AdError :=
  _ ← is_type TError (type r);
  s ← step r;
  i ← index r;
  m ← message r;
  Some {| ae_step := s; ae_index := i; ae_message := m |}.

End Schemas.

(** ** services/ws *)

Module WsService.
Import AdDataStore.

Inductive exn := SyntaxError | ZodError | RangeError.

(** A computation that returns or throws *)
Inductive result (A : Type) : Type :=
| Ok (a : A)
| Throw (e : exn).
Arguments Ok {A} a.
Arguments Throw {A} e.

#[export] Instance result_ret : MRet result := fun A a => Ok a.
#[export] Instance result_bind : MBind result := fun A B f m =>
  match m with
  | Ok a => f a
  | Throw e => Throw e
  end.

(** [schema.parse(x)]: a schema that rejects throws a ZodError *)
Definition zod {A} (parsed : option A) : result A :=
  match parsed with
  | Some a => Ok a
  | None => Throw ZodError
  end.

(** The writes [targetAd.field = value] *)
Definition set_musicAudioSrc (v : option string) (ad : AdData) : AdData :=
  {| index := index ad; musicAudioSrc := v;
     nonMusicAudioSrc := nonMusicAudioSrc ad;
     transcriptSents := transcriptSents ad;
     englishTranscriptSents := englishTranscriptSents ad;
     insights := insights ad; location := location ad;
     status := status ad; theme := theme ad |}.

Definition set_nonMusicAudioSrc (v : option string) (ad : AdData) : AdData :=
  {| index := index ad; musicAudioSrc := musicAudioSrc ad;
     nonMusicAudioSrc := v;
     transcriptSents := transcriptSents ad;
     englishTranscriptSents := englishTranscriptSents ad;
     insights := insights ad; location := location ad;
     status := status ad; theme := theme ad |}.

Definition set_transcriptSents (v : Progress Sentence) (ad : AdData) : AdData :=
  {| index := index ad; musicAudioSrc := musicAudioSrc ad;
     nonMusicAudioSrc := nonMusicAudioSrc ad;
     transcriptSents := v;
     englishTranscriptSents := englishTranscriptSents ad;
     insights := insights ad; location := location ad;
     status := status ad; theme := theme ad |}.

Definition set_englishTranscriptSents (v : option (list string)) (ad : AdData) : AdData :=
  {| index := index ad; musicAudioSrc := musicAudioSrc ad;
     nonMusicAudioSrc := nonMusicAudioSrc ad;
     transcriptSents := transcriptSents ad;
     englishTranscriptSents := v;
     insights := insights ad; location := location ad;
     status := status ad; theme := theme ad |}.

Definition set_insights (v : Progress Insight) (ad : AdData) : AdData :=
  {| index := index ad; musicAudioSrc := musicAudioSrc ad;
     nonMusicAudioSrc := nonMusicAudioSrc ad;
     transcriptSents := transcriptSents ad;
     englishTranscriptSents := englishTranscriptSents ad;
     insights := v; location := location ad;
     status := status ad; theme := theme ad |}.

Definition set_status (v : Status) (ad : AdData) : AdData :=
  {| index := index ad; musicAudioSrc := musicAudioSrc ad;
     nonMusicAudioSrc := nonMusicAudioSrc ad;
     transcriptSents := transcriptSents ad;
     englishTranscriptSents := englishTranscriptSents ad;
     insights := insights ad; location := location ad;
     status := v; theme := theme ad |}.

(** [ads.find(ad => ad.index === i)] for an index read off the wire *)
Definition find_target (i : Q) (l : list AdData) : option AdData :=
  List.find (fun ad => Qeq_bool (inject_Z (index ad)) i) l.

Definition handleAdError (targetAd : AdData) (resData : Schemas.ResponsePayload)
    : result AdData :=
  errorData ← zod (Schemas.AdErrorPayload_parse resData);
  Ok match Schemas.ae_step errorData with
     | Schemas.SMerged => set_musicAudioSrc (Some "error") targetAd
     | Schemas.SSpeech =>
         set_transcriptSents PError
           (set_nonMusicAudioSrc (Some "error") targetAd)
     | Schemas.SMusic => set_musicAudioSrc (Some "error") targetAd
     | _ =>
         set_insights PError
           (set_transcriptSents PError
              (set_nonMusicAudioSrc (Some "error")
                 (set_musicAudioSrc (Some "error") targetAd)))
     end.

(** [String.prototype.split] at the line feed *)
Fixpoint split_lines (s : string) : list string :=
  match s with
  | EmptyString => [EmptyString]
  | String c rest =>
      if Ascii.eqb c "010"%char then EmptyString :: split_lines rest
      else match split_lines rest with
           | [] => [String c EmptyString]
           | line :: lines => String c line :: lines
           end
  end.

(** [DataView.getUint32(0, true)] *)
Definition byte_val (b : byte) : Z := Z.of_N (Byte.to_N b).

Definition getUint32_le (buf : list byte) : result Z :=
  match buf with
  | b0 :: b1 :: b2 :: b3 :: _ =>
      Ok (Z.lor (byte_val b0)
           (Z.lor (Z.shiftl (byte_val b1) 8)
              (Z.lor (Z.shiftl (byte_val b2) 16)
                     (Z.shiftl (byte_val b3) 24))))
  | _ => Throw RangeError
  end.

(** [new Uint8Array(buffer, byteOffset, length)] *)
Definition Uint8Array_view (buf : list byte) (byteOffset len : Z)
    : result (list byte) :=
  if Z.ltb (Z.of_nat (length buf)) (byteOffset + len) then Throw RangeError
  else Ok (take (Z.to_nat len) (drop (Z.to_nat byteOffset) buf)).

(** [buffer.slice(begin)] for [0 <= begin] *)
Definition ArrayBuffer_slice (buf : list byte) (begin : Z) : list byte :=
  drop (Z.to_nat begin) buf.

(** The Item Store operations a session invokes, in order *)
Inductive StoreOp :=
| OpUpdateAd (i : Z)
| OpNullifyAllPending
| OpFailAllPending.

Record World := {
  store : AdDataState;
  isConnected : bool;
  createdUrls : gset string;
  minted : nat;
  reading : list (list byte);
  calls : list StoreOp
}.

Definition call_store (op : StoreOp) (f : AdDataState -> AdDataState) (w : World) : World :=
  {| store := f (store w); isConnected := isConnected w;
     createdUrls := createdUrls w; minted := minted w;
     reading := reading w; calls := calls w ++ [op] |}.

Definition call_updateAd (ad : AdData) : World -> World :=
  call_store (OpUpdateAd (index ad)) (updateAd ad).

Definition call_nullifyAllPendingRequests : World -> World :=
  call_store OpNullifyAllPending nullifyAllPendingRequests.

Definition call_failAllPendingRequests : World -> World :=
  call_store OpFailAllPending failAllPendingRequests.

Definition set_isConnected (b : bool) (w : World) : World :=
  {| store := store w; isConnected := b; createdUrls := createdUrls w;
     minted := minted w; reading := reading w; calls := calls w |}.

Definition set_reading (r : list (list byte)) (w : World) : World :=
  {| store := store w; isConnected := isConnected w;
     createdUrls := createdUrls w; minted := minted w;
     reading := r; calls := calls w |}.

Definition new_world (st : AdDataState) : World :=
  {| store := st; isConnected := false; createdUrls := ∅; minted := 0;
     reading := []; calls := [] |}.

Inductive MessageData :=
| DString (s : string)
| DBlob (bytes : list byte).

Inductive Event :=
| EvOpen
| EvMessage (data : MessageData)
| EvLoad (k : nat)
| EvClose
| EvError.

Definition event_is_transcription (json : Schemas.json) : bool :=
  match json with
  | Schemas.JObject o =>
      match Schemas.get_member "event" o with
      | Some (Schemas.JString s) => String.eqb s "transcription"
      | _ => false
      end
  | _ => false
  end.

Definition lookup_target (resData : Schemas.ResponsePayload) (w : World)
    : option AdData :=
  match Schemas.index resData with
  | Some i => find_target i (ads (store w))
  | None => None
  end.

(** [if (targetAd) updateAd(targetAd)] *)
Definition write_back (targetAd : option AdData) (w : World) : World :=
  match targetAd with
  | Some ad => call_updateAd ad w
  | None => w
  end.

(** [handleJsonMessage] from the value that [JSON.parse] returned on *)
Definition dispatchJson (json : Schemas.json) (w : World) : result World :=
  resData ← zod (Schemas.ResponsePayload_parse json);
  if event_is_transcription json then Ok w
  else
    let targetAd := lookup_target resData w in
    '(targetAd, w) ←
      match Schemas.type resData, targetAd with
      | Schemas.TInsight, Some ad =>
          insights_data ← zod (Schemas.InsightsResponsePayload_parse resData);
          Ok (Some (set_insights (PReady (Schemas.ir_insights insights_data)) ad), w)
      | Schemas.TDone, Some ad =>
          _ ← zod (Schemas.FinishedAdPayload_parse resData);
          Ok (Some (set_status StDone ad), w)
      | Schemas.TComplete, _ =>
          Ok (targetAd, call_nullifyAllPendingRequests w)
      | Schemas.TError, Some ad =>
          ad' ← handleAdError ad resData;
          Ok (Some ad', w)
      | _, _ => Ok (targetAd, w)
      end;
    Ok (write_back targetAd w).

(** [try { ... } catch (err) { console.error(...) }] around a handler *)
Definition swallow (r : result World) (w : World) : World :=
  match r with
  | Ok w' => w'
  | Throw _ => w
  end.

Section Platform.
(** What the host provides: [JSON.parse] ([None]: it throws a
    SyntaxError), [new TextDecoder().decode], and the URL that the
    [k]-th call of [URL.createObjectURL] returns. *)
Variable JSON_parse : string -> option Schemas.json.
Variable TextDecoder_decode : list byte -> string.
Variable createObjectURL : nat -> string.

Definition handleJsonMessage (data : string) (w : World) : result World :=
  match JSON_parse data with
  | None => Throw SyntaxError
  | Some json => dispatchJson json w
  end.

(** The part of [reader.onload] that decodes the frame *)
Definition decodeFrame (arrayBuffer : list byte)
    : result (Schemas.ResponsePayload * list byte) :=
  metaLength ← getUint32_le arrayBuffer;
  metaBytes ← Uint8Array_view arrayBuffer 4 metaLength;
  match JSON_parse (TextDecoder_decode metaBytes) with
  | None => Throw SyntaxError
  | Some json =>
      metadata ← zod (Schemas.ResponsePayload_parse json);
      let audioBytes := ArrayBuffer_slice arrayBuffer (4 + metaLength) in
      Ok (metadata, audioBytes)
  end.

(** [URL.createObjectURL(blob)] and [createdUrls.add(audioUrl)] *)
Definition mint (w : World) : string * World :=
  let audioUrl := createObjectURL (minted w) in
  (audioUrl,
   {| store := store w; isConnected := isConnected w;
      createdUrls := {[ audioUrl ]} ∪ createdUrls w;
      minted := S (minted w); reading := reading w; calls := calls w |}).

(** The rest of [reader.onload], from the minting of the audio URL on;
    a throw ends the callback where it is. *)
Definition dispatchBlob (metadata : Schemas.ResponsePayload) (w : World) : World :=
  let '(audioUrl, w) := mint w in
  let targetAd := lookup_target metadata w in
  let switched : result (option AdData) :=
    match Schemas.type metadata, targetAd with
    | Schemas.TSpeech, Some ad =>
        speechData ← zod (Schemas.SpeechResponsePayload_parse metadata);
        let ad := set_nonMusicAudioSrc (Some audioUrl) ad in
        let ad := set_transcriptSents (PReady (Schemas.sr_alignments speechData)) ad in
        Ok (Some
          match Schemas.sr_translations speechData with
          | Some _ =>
              set_englishTranscriptSents
                (Some (split_lines (Schemas.sr_transcript speechData))) ad
          | None => ad
          end)
    | Schemas.TMerged, Some ad =>
        _ ← zod (Schemas.MergedAdPayload_parse metadata);
        Ok (Some (set_musicAudioSrc (Some audioUrl) ad))
    | _, _ => Ok targetAd
    end in
  match switched with
  | Throw _ => w
  | Ok targetAd => write_back targetAd w
  end.

Definition reader_onload (arrayBuffer : list byte) (w : World) : World :=
  match decodeFrame arrayBuffer with
  | Throw _ => w
  | Ok (metadata, _) => dispatchBlob metadata w
  end.

(** [handleBlobMessage]: hand the blob to a FileReader *)
Definition handleBlobMessage (bytes : list byte) (w : World) : World :=
  set_reading (reading w ++ [bytes]) w.

(** [String(blob)], what [JSON.parse] sees in [isJsonString(blob)] *)
Definition Blob_toString : string := "[object Blob]".

Definition handleMessage (data : MessageData) (w : World) : World :=
  match data with
  | DString s => swallow (handleJsonMessage s w) w
  | DBlob bytes =>
      match JSON_parse Blob_toString with
      | Some _ => swallow (handleJsonMessage Blob_toString w) w
      | None => handleBlobMessage bytes w
      end
  end.

(** The listeners of [generateAds].  [EvLoad k]: the [k]-th read in
    progress completes.  What the open listener sends is no part of the
    state kept here. *)
Definition step (w : World) (ev : Event) : World :=
  match ev with
  | EvOpen => set_isConnected true w
  | EvMessage data => handleMessage data w
  | EvLoad k =>
      match reading w !! k with
      | Some arrayBuffer =>
          reader_onload arrayBuffer (set_reading (delete k (reading w)) w)
      | None => w
      end
  | EvClose => call_failAllPendingRequests (set_isConnected false w)
  | EvError => call_failAllPendingRequests (set_isConnected false w)
  end.

Definition run (evs : list Event) (w : World) : World :=
  fold_left step evs w.

End Platform.

(** [generateAds] up to its [return]: [new WebSocket(wsUrl)] returns
    ([WebSocket_new] is [true]) or throws; when it throws, the [catch]
    calls [failAllPendingRequests].  The session starts with nothing
    connected, minted or being read; its listeners run later ([step]). *)
Definition generateAds (WebSocket_new : bool) (st : AdDataState) : World :=
  if WebSocket_new then new_world st
  else call_failAllPendingRequests (new_world st).

End WsService.

(** ** notificationStore *)

Module NotificationStore.

Inductive NotificationType := NLoading | NReady | NError | NCelebration | NBatch.

Record Notification := {
  id : string;
  type : NotificationType;
  title : string;
  message : string;
  trackIndex : option Z;
  timestamp : Z;
  duration : option Z
}.

(** [Omit<Notification, 'id' | 'timestamp'>] *)
Record Draft := {
  d_type : NotificationType;
  d_title : string;
  d_message : string;
  d_trackIndex : option Z;
  d_duration : option Z
}.

Inductive BatchKind := BReady | BError.

Record BatchedUpdate := {
  batch_type : BatchKind;
  trackIndexes : list Z;
  batch_timestamp : Z
}.

(** A timer handle is what [setTimeout] returned; every handle is truthy. *)
Record NotificationState := {
  notifications : list Notification;
  activeTrackIndex : option Z;
  batchedUpdates : list BatchedUpdate;
  batchTimer : option nat
}.

Definition initial : NotificationState :=
  {| notifications := []; activeTrackIndex := None;
     batchedUpdates := []; batchTimer := None |}.

Inductive UpdateType := ULoading | UReady | UError.

(** What a pending [setTimeout] will run *)
Inductive Callback :=
| CbRemoveNotification (nid : string)
| CbProcessBatchedUpdates.

Record Timer := { fires_at : Z; callback : Callback }.

(** The store together with the clock, the timers in flight and the number
    of [Math.random] calls made *)
Record World := {
  now : Z;
  timers : gmap nat Timer;
  next_timer : nat;
  random_calls : nat;
  state : NotificationState
}.

Definition new_world (t : Z) : World :=
  {| now := t; timers := ∅; next_timer := 1; random_calls := 0;
     state := initial |}.

Definition set_state (s : NotificationState) (w : World) : World :=
  {| now := now w; timers := timers w; next_timer := next_timer w;
     random_calls := random_calls w; state := s |}.

Definition set_notifications (l : list Notification) (s : NotificationState)
    : NotificationState :=
  {| notifications := l; activeTrackIndex := activeTrackIndex s;
     batchedUpdates := batchedUpdates s; batchTimer := batchTimer s |}.

Definition set_batchedUpdates (l : list BatchedUpdate) (s : NotificationState)
    : NotificationState :=
  {| notifications := notifications s; activeTrackIndex := activeTrackIndex s;
     batchedUpdates := l; batchTimer := batchTimer s |}.

Definition set_batchTimer (t : option nat) (s : NotificationState)
    : NotificationState :=
  {| notifications := notifications s; activeTrackIndex := activeTrackIndex s;
     batchedUpdates := batchedUpdates s; batchTimer := t |}.

Definition setTimeout (cb : Callback) (delay : Z) (w : World) : nat * World :=
  (next_timer w,
   {| now := now w;
      timers := <[ next_timer w := {| fires_at := now w + delay; callback := cb |} ]>
                  (timers w);
      next_timer := S (next_timer w);
      random_calls := random_calls w; state := state w |}).

Definition clearTimeout (h : nat) (w : World) : World :=
  {| now := now w; timers := delete h (timers w); next_timer := next_timer w;
     random_calls := random_calls w; state := state w |}.

(** A number in a template literal *)
Definition show (z : Z) : string := NilZero.string_of_int (Z.to_int z).

(** [Array.prototype.join] *)
Fixpoint join (sep : string) (l : list string) : string :=
  match l with
  | [] => ""
  | [x] => x
  | x :: rest => x ++ sep ++ join sep rest
  end.

Definition createActiveTrackNotification (trackIndex : Z) (ty : UpdateType) : Draft :=
  let baseTrack := "Track " ++ show (trackIndex + 1) in
  match ty with
  | ULoading =>
      {| d_type := NLoading; d_title := "Cooking your audio ad...";
         d_message := baseTrack ++ " is being generated";
         d_trackIndex := Some trackIndex; d_duration := Some 3000 |}
  | UReady =>
      {| d_type := NReady; d_title := "🔥 Track ready!";
         d_message := baseTrack ++ " is ready to play";
         d_trackIndex := Some trackIndex; d_duration := Some 3000 |}
  | UError =>
      {| d_type := NError; d_title := "Generation failed";
         d_message := baseTrack ++ " encountered an error";
         d_trackIndex := Some trackIndex; d_duration := Some 6000 |}
  end.

Definition createErrorNotification (trackIndex : Z) : Draft :=
  {| d_type := NError; d_title := "Track failed";
     d_message := "Track " ++ show (trackIndex + 1) ++ " needs attention";
     d_trackIndex := Some trackIndex; d_duration := Some 8000 |}.

Definition createBatchNotification (batch : BatchedUpdate) : Draft :=
  let count := Z.of_nat (length (trackIndexes batch)) in
  let trackList := join ", " (map (fun i => show (i + 1)) (trackIndexes batch)) in
  match batch_type batch with
  | BReady =>
      {| d_type := NBatch;
         d_title := "🎉 " ++ show count ++ " track"
                    ++ (if Z.ltb 1 count then "s" else "") ++ " ready!";
         d_message := if Z.ltb 3 count
                      then show count ++ " more tracks completed"
                      else "Tracks " ++ trackList ++ " ready to play";
         d_trackIndex := None; d_duration := Some 4000 |}
  | BError =>
      {| d_type := NBatch;
         d_title := show count ++ " track"
                    ++ (if Z.ltb 1 count then "s" else "") ++ " failed";
         d_message := "Tracks " ++ trackList ++ " need attention";
         d_trackIndex := None; d_duration := Some 6000 |}
  end.

Definition batch_kind_eqb (a b : BatchKind) : bool :=
  match a, b with
  | BReady, BReady | BError, BError => true
  | _, _ => false
  end.

(** [existingBatch.trackIndexes.push(trackIndex); existingBatch.timestamp = t]
    on the first batch of the kind *)
Fixpoint push_existing (ty : BatchKind) (trackIndex t : Z) (l : list BatchedUpdate)
    : list BatchedUpdate :=
  match l with
  | [] => []
  | b :: rest =>
      if batch_kind_eqb (batch_type b) ty
      then {| batch_type := batch_type b;
              trackIndexes := trackIndexes b ++ [trackIndex];
              batch_timestamp := t |} :: rest
      else b :: push_existing ty trackIndex t rest
  end.

Section Platform.
(** [Math.random().toString(36).substr(2, 9)] at the [k]-th call of
    [Math.random] *)
Variable random_suffix : nat -> string.

Definition removeNotification (nid : string) (w : World) : World :=
  set_state
    (set_notifications
       (List.filter (fun n => negb (String.eqb (id n) nid)) (notifications (state w)))
       (state w)) w.

Definition addNotification (notification : Draft) (w : World) : World :=
  let nid := "notif_" ++ show (now w) ++ "_" ++ random_suffix (random_calls w) in
  let w := {| now := now w; timers := timers w; next_timer := next_timer w;
              random_calls := S (random_calls w); state := state w |} in
  let dur := match d_duration notification with
             | Some d => if Z.eqb d 0 then 4000 else d
             | None => 4000
             end in
  let newNotification :=
    {| id := nid; type := d_type notification; title := d_title notification;
       message := d_message notification;
       trackIndex := d_trackIndex notification;
       timestamp := now w; duration := Some dur |} in
  let w := set_state
             (set_notifications (notifications (state w) ++ [newNotification])
                (state w)) w in
  snd (setTimeout (CbRemoveNotification nid) dur w).

Definition setActiveTrack (i : option Z) (w : World) : World :=
  set_state
    {| notifications := notifications (state w); activeTrackIndex := i;
       batchedUpdates := batchedUpdates (state w);
       batchTimer := batchTimer (state w) |} w.

Definition addToBatch (trackIndex : Z) (ty : BatchKind) (w : World) : World :=
  let batchedUpdates0 := batchedUpdates (state w) in
  let batchTimer0 := batchTimer (state w) in
  let existingBatch :=
    List.find (fun b => batch_kind_eqb (batch_type b) ty) batchedUpdates0 in
  let w :=
    match existingBatch with
    | Some _ =>
        set_state
          (set_batchedUpdates (push_existing ty trackIndex (now w) batchedUpdates0)
             (state w)) w
    | None =>
        set_state
          (set_batchedUpdates
             (batchedUpdates (state w)
              ++ [ {| batch_type := ty; trackIndexes := [trackIndex];
                      batch_timestamp := now w |} ])
             (state w)) w
    end in
  let w :=
    match batchTimer0 with
    | Some h => clearTimeout h w
    | None => w
    end in
  let '(newTimer, w) := setTimeout CbProcessBatchedUpdates 5000 w in
  set_state (set_batchTimer (Some newTimer) (state w)) w.

Definition processBatchedUpdates (w : World) : World :=
  let batchedUpdates0 := batchedUpdates (state w) in
  let w :=
    fold_left
      (fun w batch =>
         if Nat.ltb 0 (length (trackIndexes batch))
         then addNotification (createBatchNotification batch) w
         else w)
      batchedUpdates0 w in
  set_state (set_batchTimer None (set_batchedUpdates [] (state w))) w.

Definition clearAllNotifications (w : World) : World :=
  let w :=
    match batchTimer (state w) with
    | Some h => clearTimeout h w
    | None => w
    end in
  set_state
    {| notifications := []; activeTrackIndex := activeTrackIndex (state w);
       batchedUpdates := []; batchTimer := None |} w.

Definition handleTrackUpdate (trackIndex : Z) (ty : UpdateType) (w : World) : World :=
  let isActiveTrack :=
    match activeTrackIndex (state w) with
    | Some a => Z.eqb a trackIndex
    | None => false
    end in
  if isActiveTrack
  then addNotification (createActiveTrackNotification trackIndex ty) w
  else match ty with
       | UError => addNotification (createErrorNotification trackIndex) w
       | UReady => addToBatch trackIndex BReady w
       | ULoading => w
       end.

Definition run_callback (cb : Callback) (w : World) : World :=
  match cb with
  | CbRemoveNotification nid => removeNotification nid w
  | CbProcessBatchedUpdates => processBatchedUpdates w
  end.

(** What happens to the store: a track update arrives when the clock
    shows [t], a timer in flight fires (not before it is due), the user
    focuses a track, or everything is cleared. *)
Inductive Event :=
| EvTrackUpdate (t : Z) (trackIndex : Z) (ty : UpdateType)
| EvTimer (h : nat)
| EvSetActiveTrack (i : option Z)
| EvClearAll.

Definition advance (t : Z) (w : World) : World :=
  {| now := Z.max (now w) t; timers := timers w; next_timer := next_timer w;
     random_calls := random_calls w; state := state w |}.

Definition step (w : World) (ev : Event) : World :=
  match ev with
  | EvTrackUpdate t trackIndex ty =>
      handleTrackUpdate trackIndex ty (advance t w)
  | EvTimer h =>
      match timers w !! h with
      | Some tm =>
          run_callback (callback tm)
            (clearTimeout h (advance (fires_at tm) w))
      | None => w
      end
  | EvSetActiveTrack i => setActiveTrack i w
  | EvClearAll => clearAllNotifications w
  end.

Definition run (evs : list Event) (w : World) : World :=
  fold_left step evs w.

End Platform.

End NotificationStore.

(** ** helpers/utils: insights on sentences

    A string is taken as its sequence of code units; positions and lengths
    count units. *)

Module Utils.
Import AdDataStore.

Record MappedInsight := {
  mi_insight : string;
  mi_explanation : string;
  sentenceIndex : nat;
  startChar : nat;
  endChar : nat
}.

(** A sentence as the transcript shows it; [ds_insights] is [None] on a
    sentence that went through no mapping. *)
Record DisplaySentence := {
  ds_text : string;
  ds_start : Q;
  ds_end : Q;
  ds_insights : option (list MappedInsight)
}.

(** [text.indexOf(needle)]; [None] is [-1] *)
Definition indexOf (text needle : string) : option nat := String.index 0 needle text.

Definition mapInsightsToSentences (sentences : list Sentence) (insights : list Insight)
    : list DisplaySentence :=
  imap (fun sentenceIndex sentence =>
          let mappedInsights :=
            omap (fun ins =>
                    match indexOf (text sentence) (insight ins) with
                    | None => None
                    | Some startChar =>
                        Some {| mi_insight := insight ins;
                                mi_explanation := explanation ins;
                                sentenceIndex := sentenceIndex;
                                startChar := startChar;
                                endChar := startChar + String.length (insight ins) |}
                    end) insights in
          {| ds_text := text sentence; ds_start := start sentence;
             ds_end := end_ sentence; ds_insights := Some mappedInsights |})
       sentences.

End Utils.

(** ** components/TranscriptSync: the sentences on display *)

Module TranscriptSync.
Import AdDataStore Utils.

Inductive LanguageOption := LDefault | LEnglish.

(** [processAdData]: the data, unless it is a sentinel or falsy *)
Definition processAdData {A} (data : Progress A) : option (list A) :=
  match data with
  | PReady v => Some v
  | _ => None
  end.

Definition plain (s : Sentence) : DisplaySentence :=
  {| ds_text := text s; ds_start := start s; ds_end := end_ s; ds_insights := None |}.

(** [english[index] || defaultSent.text] *)
Definition english_or (english : list string) (index : nat) (fallback : string) : string :=
  match english !! index with
  | Some line => if String.eqb line "" then fallback else line
  | None => fallback
  end.

(** The memo [processedSentences] as a function of what it depends on *)
Definition processedSentences (sentences : Progress Sentence)
    (englishSentences : option (list string)) (insights : Progress Insight)
    (selectedLanguage : LanguageOption) : list DisplaySentence :=
  let hasEnglishTranscript :=
    match englishSentences with Some _ => true | None => false end in
  let englishVersion := if hasEnglishTranscript then LEnglish else LDefault in
  let processedDefaultSentences := processAdData sentences in
  let processedEnglishSentences := englishSentences in
  let processedInsights := processAdData insights in
  match processedDefaultSentences with
  | None => []
  | Some defaults =>
      let '(finalSentences, shouldApplyInsights) :=
        match selectedLanguage, processedEnglishSentences with
        | LEnglish, Some english =>
            (imap (fun index defaultSent =>
                     {| text := english_or english index (text defaultSent);
                        start := start defaultSent; end_ := end_ defaultSent |})
                  defaults,
             true)
        | _, _ =>
            (defaults,
             match englishVersion with LDefault => true | LEnglish => false end)
        end in
      match shouldApplyInsights, processedInsights with
      | true, Some ins => mapInsightsToSentences finalSentences ins
      | _, _ => map plain finalSentences
      end
  end.

End TranscriptSync.

(** ** speech/page: the effect that starts a session *)

Module SpeechPage.
Import AdDataStore.

Inductive Adtype := Custom | Default.

(** What the mount effect does to the item store.  [locations] is an array
    and so always truthy; the two branches test the same [adType].  Each
    branch ends with [wsService.generateAds], which opens the session;
    [WebSocket_new] tells whether its [new WebSocket] returns. *)
Definition onMount (random : nat -> Q) (WebSocket_new : bool) (adType : Adtype)
    (cloneRecordings : list (list byte)) (locations : list CountryData)
    (w : nat * AdDataState) : nat * AdDataState :=
  let start (w : nat * AdDataState) :=
    let '(calls, st) := populateAds random locations w in
    let st := setActiveIndex 0 st in
    (calls, WsService.store (WsService.generateAds WebSocket_new st)) in
  let w :=
    match adType with
    | Custom => if Nat.ltb 0 (length cloneRecordings) then start w else w
    | Default => w
    end in
  match adType with
  | Default => start w
  | Custom => w
  end.

End SpeechPage.

(** ** components/ThoughtBubble: reporting an item's state *)

Module ThoughtBubble.
Import AdDataStore.

(** The outcome the effect reports for [currentAd], if any *)
Definition trackOutcome (currentAd : AdData) : option NotificationStore.UpdateType :=
  let musicReady := is_available (musicAudioSrc currentAd) in
  let voiceReady := is_available (nonMusicAudioSrc currentAd) in
  let hasError :=
    is_str "error" (musicAudioSrc currentAd)
    || is_str "error" (nonMusicAudioSrc currentAd) in
  let isLoading :=
    is_str "pending" (musicAudioSrc currentAd)
    || is_str "pending" (nonMusicAudioSrc currentAd) in
  if hasError then Some NotificationStore.UError
  else if musicReady || voiceReady then Some NotificationStore.UReady
  else if isLoading then Some NotificationStore.ULoading
  else None.

(** The effect of the bubble at array position [index]:
    [currentAd = ads[index]; if (!currentAd) return; ...] *)
Definition trackEffect (random_suffix : nat -> string) (index : nat)
    (st : AdDataState) (w : NotificationStore.World) : NotificationStore.World :=
  match ads st !! index with
  | None => w
  | Some currentAd =>
      match trackOutcome currentAd with
      | Some ty =>
          NotificationStore.handleTrackUpdate random_suffix (Z.of_nat index) ty w
      | None => w
      end
  end.

End ThoughtBubble.

(** ** Statements

    The specification's failure-mapping table and frame layout, and the
    invariants of the session and of the notification timers, as
    predicates. *)

Module Statements.
Import AdDataStore.

(** What the failure-mapping table says of the four progressive fields *)
Definition error_mapping (s : Schemas.Step) (target target' : AdData) : Prop :=
  match s with
  | Schemas.SMerged | Schemas.SMusic =>
      musicAudioSrc target' = Some "error"
      /\ nonMusicAudioSrc target' = nonMusicAudioSrc target
      /\ transcriptSents target' = transcriptSents target
      /\ insights target' = insights target
  | Schemas.SSpeech =>
      musicAudioSrc target' = musicAudioSrc target
      /\ nonMusicAudioSrc target' = Some "error"
      /\ transcriptSents target' = PError
      /\ insights target' = insights target
  | Schemas.SInsights | Schemas.STranscript =>
      musicAudioSrc target' = Some "error"
      /\ nonMusicAudioSrc target' = Some "error"
      /\ transcriptSents target' = PError
      /\ insights target' = PError
  end.

(** The byte whose value is [z mod 256] *)
Definition byte_of_Z (z : Z) : byte :=
  match Byte.of_N (Z.to_N (z mod 256)) with
  | Some b => b
  | None => x00
  end.

(** The 4-byte little-endian unsigned length that opens a binary frame *)
Definition u32le (n : Z) : list byte :=
  [ byte_of_Z n; byte_of_Z (n / 2 ^ 8); byte_of_Z (n / 2 ^ 16);
    byte_of_Z (n / 2 ^ 24) ].

(** A binary frame: the length of the metadata, the metadata, the audio *)
Definition binary_frame (meta audio : list byte) : list byte :=
  u32le (Z.of_nat (length meta)) ++ meta ++ audio.

(** Two worlds that agree on what the listeners read: the store, the
    number of URLs minted and the reads in progress. *)
Definition same_data (w1 w2 : WsService.World) : Prop :=
  WsService.store w1 = WsService.store w2
  /\ WsService.minted w1 = WsService.minted w2
  /\ WsService.reading w1 = WsService.reading w2.

Definition result_same_data (r1 r2 : WsService.result WsService.World) : Prop :=
  match r1, r2 with
  | WsService.Ok w1, WsService.Ok w2 => same_data w1 w2
  | WsService.Throw _, WsService.Throw _ => True
  | _, _ => False
  end.

(** *** Notification batching *)

(** Every flush timer in flight is the one the store holds as its batch
    timer. *)
Definition one_flush_timer (w : NotificationStore.World) : Prop :=
  forall h tm,
    NotificationStore.timers w !! h = Some tm ->
    NotificationStore.callback tm = NotificationStore.CbProcessBatchedUpdates ->
    NotificationStore.batchTimer (NotificationStore.state w) = Some h.

(** An event of a quiet stretch: a [ready] update for a track that is not
    the focused one, the firing of a timer other than the batch timer (so
    no flush), or a change of focus. *)
Definition quiet (w : NotificationStore.World) (ev : NotificationStore.Event) : Prop :=
  match ev with
  | NotificationStore.EvTrackUpdate _ trackIndex ty =>
      ty = NotificationStore.UReady
      /\ NotificationStore.activeTrackIndex (NotificationStore.state w)
         <> Some trackIndex
  | NotificationStore.EvTimer h =>
      NotificationStore.batchTimer (NotificationStore.state w) <> Some h
  | NotificationStore.EvSetActiveTrack _ => True
  | NotificationStore.EvClearAll => False
  end.

Fixpoint quiet_run (random_suffix : nat -> string) (w : NotificationStore.World)
    (evs : list NotificationStore.Event) : Prop :=
  match evs with
  | [] => True
  | ev :: rest =>
      quiet w ev
      /\ quiet_run random_suffix (NotificationStore.step random_suffix w ev) rest
  end.

(** The tracks of the update events of a run, in order *)
Fixpoint updated_tracks (evs : list NotificationStore.Event) : list Z :=
  match evs with
  | [] => []
  | NotificationStore.EvTrackUpdate _ trackIndex _ :: rest =>
      trackIndex :: updated_tracks rest
  | _ :: rest => updated_tracks rest
  end.

(** The 1-based numbers of the tracks, joined by comma and space *)
Definition track_numbers (l : list Z) : string :=
  NotificationStore.join ", " (map (fun i => NotificationStore.show (i + 1)) l).

(** The accumulator after the tracks [idxs] were added since the last
    flush: nothing when there are none, otherwise a single [ready] batch
    holding them in order, and the batch timer in flight, due 5000 ms after
    the batch was last touched. *)
Definition accumulated (idxs : list Z) (w : NotificationStore.World) : Prop :=
  match idxs with
  | [] => NotificationStore.batchedUpdates (NotificationStore.state w) = []
  | _ :: _ =>
      exists ts h,
        NotificationStore.batchedUpdates (NotificationStore.state w)
        = [ {| NotificationStore.batch_type := NotificationStore.BReady;
               NotificationStore.trackIndexes := idxs;
               NotificationStore.batch_timestamp := ts |} ]
        /\ NotificationStore.batchTimer (NotificationStore.state w) = Some h
        /\ NotificationStore.timers w !! h
           = Some {| NotificationStore.fires_at := ts + 5000;
                     NotificationStore.callback :=
                       NotificationStore.CbProcessBatchedUpdates |}
        /\ ts <= NotificationStore.now w
  end.

Definition no_flush_timer (w : NotificationStore.World) : Prop :=
  forall h tm,
    NotificationStore.timers w !! h = Some tm ->
    NotificationStore.callback tm <> NotificationStore.CbProcessBatchedUpdates.

(** *** Notification expiry *)

(** The removal timer of a notification: due [duration] after its creation,
    removing its id. *)
Definition removal_timer (n : NotificationStore.Notification) (dur : Z)
    : NotificationStore.Timer :=
  {| NotificationStore.fires_at := NotificationStore.timestamp n + dur;
     NotificationStore.callback :=
       NotificationStore.CbRemoveNotification (NotificationStore.id n) |}.

(** Every visible notification has its removal timer in flight. *)
Definition expiring (w : NotificationStore.World) : Prop :=
  forall n, In n (NotificationStore.notifications (NotificationStore.state w)) ->
    exists h dur,
      NotificationStore.duration n = Some dur
      /\ NotificationStore.timers w !! h = Some (removal_timer n dur).

(** Timer handles are handed out in increasing order, and the handle the
    store keeps as batch timer never names a removal timer. *)
Definition handles_tidy (w : NotificationStore.World) : Prop :=
  (forall h, is_Some (NotificationStore.timers w !! h) ->
     (h < NotificationStore.next_timer w)%nat)
  /\ (forall h,
        NotificationStore.batchTimer (NotificationStore.state w) = Some h ->
        (h < NotificationStore.next_timer w)%nat
        /\ forall tm, NotificationStore.timers w !! h = Some tm ->
             NotificationStore.callback tm
             = NotificationStore.CbProcessBatchedUpdates).

(** The duration [addNotification] stores: [duration || 4000] *)
Definition stored_duration (d : option Z) : Z :=
  match d with
  | Some x => if Z.eqb x 0 then 4000 else x
  | None => 4000
  end.

(** The notification [addNotification] makes of a draft in a world *)
Definition made_notification (random_suffix : nat -> string)
    (d : NotificationStore.Draft) (w : NotificationStore.World)
    : NotificationStore.Notification :=
  {| NotificationStore.id :=
       "notif_" ++ NotificationStore.show (NotificationStore.now w) ++ "_"
       ++ random_suffix (NotificationStore.random_calls w);
     NotificationStore.type := NotificationStore.d_type d;
     NotificationStore.title := NotificationStore.d_title d;
     NotificationStore.message := NotificationStore.d_message d;
     NotificationStore.trackIndex := NotificationStore.d_trackIndex d;
     NotificationStore.timestamp := NotificationStore.now w;
     NotificationStore.duration :=
       Some (stored_duration (NotificationStore.d_duration d)) |}.

(** [w'] is [w] with one more notification [n], stamped with the clock of
    [w], lasting [dur], its removal timer started, and the batch
    accumulator and batch timer as they were. *)
Definition announced (w w' : NotificationStore.World)
    (n : NotificationStore.Notification) (dur : Z) : Prop :=
  NotificationStore.notifications (NotificationStore.state w')
  = (NotificationStore.notifications (NotificationStore.state w) ++ [n])%list
  /\ NotificationStore.timestamp n = NotificationStore.now w
  /\ NotificationStore.duration n = Some dur
  /\ NotificationStore.timers w' !! NotificationStore.next_timer w
     = Some (removal_timer n dur)
  /\ NotificationStore.batchedUpdates (NotificationStore.state w')
     = NotificationStore.batchedUpdates (NotificationStore.state w)
  /\ NotificationStore.batchTimer (NotificationStore.state w')
     = NotificationStore.batchTimer (NotificationStore.state w).

(** A batch that [processBatchedUpdates] turns into a notification *)
Definition has_tracks (b : NotificationStore.BatchedUpdate) : bool :=
  Nat.ltb 0 (length (NotificationStore.trackIndexes b)).

(** *** The session and the collection *)

(** [w'] holds the items of [w] in number, order and index, and the same
    active index. *)
Definition same_indexes (w w' : WsService.World) : Prop :=
  map AdDataStore.index (AdDataStore.ads (WsService.store w'))
  = map AdDataStore.index (AdDataStore.ads (WsService.store w))
  /\ AdDataStore.activeIndex (WsService.store w')
     = AdDataStore.activeIndex (WsService.store w).

(** The keys [ResponsePayload] knows *)
Definition known_keys : list string :=
  [ "type"; "message"; "index"; "step"; "transcript"; "translations";
    "alignments"; "insights" ].

(** The message types that the text handler has no case for *)
Definition unhandled_as_text (ty : Schemas.MsgType) : bool :=
  match ty with
  | Schemas.TSpeech | Schemas.TMerged | Schemas.TFatalError
  | Schemas.TReceived | Schemas.TAudioComplete => true
  | _ => false
  end.

(** *** The inbound message schema, as the specification words it

    [{type: one of [...], message?, index?, step?: one of [...],
      transcript?, translations?: string[]|null,
      alignments?: {text, start, end}[],
      insights?: {insight, explanation}[]}]: what it is for a payload to be
    the JSON value as given. *)

Definition type_name (t : Schemas.MsgType) : string :=
  match t with
  | Schemas.TSpeech => "speech"
  | Schemas.TMerged => "merged"
  | Schemas.TInsight => "insight"
  | Schemas.TDone => "done"
  | Schemas.TError => "error"
  | Schemas.TFatalError => "fatal_error"
  | Schemas.TComplete => "complete"
  | Schemas.TReceived => "received"
  | Schemas.TAudioComplete => "audio_complete"
  end.

Definition step_name (s : Schemas.Step) : string :=
  match s with
  | Schemas.SSpeech => "speech"
  | Schemas.SMerged => "merged"
  | Schemas.SInsights => "insights"
  | Schemas.STranscript => "transcript"
  | Schemas.SMusic => "music"
  end.

Definition reads_string (j : Schemas.json) (s : string) : Prop :=
  j = Schemas.JString s.

Definition reads_number (j : Schemas.json) (q : Q) : Prop :=
  j = Schemas.JNumber q.

Definition reads_type (j : Schemas.json) (t : Schemas.MsgType) : Prop :=
  j = Schemas.JString (type_name t).

Definition reads_step (j : Schemas.json) (s : Schemas.Step) : Prop :=
  j = Schemas.JString (step_name s).

(** [item[]]: an array whose items read as the list's items, one for one *)
Definition reads_array {A} (reads : Schemas.json -> A -> Prop)
    (j : Schemas.json) (l : list A) : Prop :=
  exists items, j = Schemas.JArray items /\ Forall2 reads items l.

(** [item[] | null] *)
Definition reads_nullable {A} (reads : Schemas.json -> A -> Prop)
    (j : Schemas.json) (v : option A) : Prop :=
  match v with
  | None => j = Schemas.JNull
  | Some a => reads j a
  end.

(** [{text, start, end}] *)
Definition reads_alignment (j : Schemas.json) (s : Sentence) : Prop :=
  exists o,
    j = Schemas.JObject o
    /\ Schemas.get_member "text" o = Some (Schemas.JString (text s))
    /\ Schemas.get_member "start" o = Some (Schemas.JNumber (start s))
    /\ Schemas.get_member "end" o = Some (Schemas.JNumber (end_ s)).

(** [{insight, explanation}] *)
Definition reads_insight (j : Schemas.json) (i : Insight) : Prop :=
  exists o,
    j = Schemas.JObject o
    /\ Schemas.get_member "insight" o = Some (Schemas.JString (insight i))
    /\ Schemas.get_member "explanation" o = Some (Schemas.JString (explanation i)).

(** [key?]: the member and the field are both absent, or the member reads
    as the field *)
Definition optional_member {A} (reads : Schemas.json -> A -> Prop)
    (member : option Schemas.json) (field : option A) : Prop :=
  match member, field with
  | None, None => True
  | Some j, Some v => reads j v
  | _, _ => False
  end.

(** The payload [p] is the JSON value [j] as given: [j] is an object, its
    [type] is one of the nine, and each of the other seven keys is absent
    or holds a value of the stated shape, which the payload carries. *)
Definition payload_as_given (j : Schemas.json) (p : Schemas.ResponsePayload) : Prop :=
  exists o,
    j = Schemas.JObject o
    /\ (exists t, Schemas.get_member "type" o = Some t /\ reads_type t (Schemas.type p))
    /\ optional_member reads_string (Schemas.get_member "message" o) (Schemas.message p)
    /\ optional_member reads_number (Schemas.get_member "index" o) (Schemas.index p)
    /\ optional_member reads_step (Schemas.get_member "step" o) (Schemas.step p)
    /\ optional_member reads_string (Schemas.get_member "transcript" o)
         (Schemas.transcript p)
    /\ optional_member (reads_nullable (reads_array reads_string))
         (Schemas.get_member "translations" o) (Schemas.translations p)
    /\ optional_member (reads_array reads_alignment)
         (Schemas.get_member "alignments" o) (Schemas.alignments p)
    /\ optional_member (reads_array reads_insight)
         (Schemas.get_member "insights" o) (Schemas.insights p).

(** *** The batch message, as the specification words it

    The accumulator is a set of item indexes; the message lists the
    1-based item numbers, comma-joined, when the batch has at most 3
    items, and otherwise is the summary with the number of items. *)
Definition batch_items (tracks : list Z) : list Z := remove_dups tracks.

Definition spec_batch_message (tracks : list Z) : string :=
  let items := batch_items tracks in
  if Nat.leb (length items) 3
  then "Tracks " ++ track_numbers items ++ " ready to play"
  else NotificationStore.show (Z.of_nat (length items)) ++ " more tracks completed".

End Statements.

(** ** Sample data

    Concrete stores, frames and event sequences on which the properties
    below are evaluated. *)

Module Samples.
Import AdDataStore.

(** A store of three items: the last has the music variant awaited and the
    speech variant ready. *)
Definition example_ad (i : Z) (music nonMusic : option string) : AdData :=
  {| index := i; musicAudioSrc := music; nonMusicAudioSrc := nonMusic;
     transcriptSents := PReady []; englishTranscriptSents := None;
     insights := PPending; location := Some "Lagos"; status := StPending;
     theme := Some "#FF5733" |}.

Definition example_store : AdDataState :=
  {| ads := [ example_ad 0 (Some "blob:a") (Some "blob:b");
              example_ad 1 None (Some "pending");
              example_ad 2 (Some "pending") (Some "blob:c") ];
     activeIndex := Some 0 |}.

Definition nigeria : CountryData := {| name := "Nigeria"; code := "NG" |}.
Definition kenya : CountryData := {| name := "Kenya"; code := "KE" |}.

(** [Math.random] returning 1/2 at every call *)
Definition half : nat -> Q := fun _ => (1 # 2)%Q.

(** An item as [populateAds] creates it *)
Definition fresh_ad (i : Z) : AdData :=
  {| index := i; musicAudioSrc := Some "pending";
     nonMusicAudioSrc := Some "pending"; transcriptSents := PPending;
     englishTranscriptSents := None; insights := PPending;
     location := Some "Nigeria"; status := StPending;
     theme := Some "#9B59B6" |}.

Definition fresh_store : AdDataState :=
  {| ads := [fresh_ad 0; fresh_ad 1; fresh_ad 2; fresh_ad 3];
     activeIndex := Some 0 |}.

Definition fresh_world : WsService.World := WsService.new_world fresh_store.

(** [{"type":"error","step":"speech","index":3,"message":"tts failed"}] *)
Definition error_speech_frame : Schemas.json :=
  Schemas.JObject
    [ ("type", Schemas.JString "error"); ("step", Schemas.JString "speech");
      ("index", Schemas.JNumber (inject_Z 3));
      ("message", Schemas.JString "tts failed") ].

(** [{"type":"error","step":"speech","index":3,"message":"tts failed",
      "event":"transcription"}] *)
Definition error_speech_frame_as_transcription : Schemas.json :=
  Schemas.JObject
    [ ("type", Schemas.JString "error"); ("step", Schemas.JString "speech");
      ("index", Schemas.JNumber (inject_Z 3));
      ("message", Schemas.JString "tts failed");
      ("event", Schemas.JString "transcription") ].

(** [{"type":"error","index":3,"message":"failed"}] *)
Definition error_frame_without_step : Schemas.json :=
  Schemas.JObject
    [ ("type", Schemas.JString "error");
      ("index", Schemas.JNumber (inject_Z 3));
      ("message", Schemas.JString "failed") ].

(** [{"type":"error","step":"upload","index":3,"message":"failed"}] *)
Definition error_frame_unknown_step : Schemas.json :=
  Schemas.JObject
    [ ("type", Schemas.JString "error"); ("step", Schemas.JString "upload");
      ("index", Schemas.JNumber (inject_Z 3));
      ("message", Schemas.JString "failed") ].

(** The double quote, and a JSON string literal without escapes *)
Definition dquote : string := String (ascii_of_nat 34) EmptyString.
Definition quoted (s : string) : string := dquote ++ s ++ dquote.

(** The metadata text of a speech frame: type speech, index 0, transcript
    hi, translations null, no alignments. *)
Definition speech_meta_text : string :=
  "{" ++ quoted "type" ++ ":" ++ quoted "speech" ++ ","
      ++ quoted "index" ++ ":0,"
      ++ quoted "transcript" ++ ":" ++ quoted "hi" ++ ","
      ++ quoted "translations" ++ ":null,"
      ++ quoted "alignments" ++ ":[]}".

Definition speech_meta_json : Schemas.json :=
  Schemas.JObject
    [ ("type", Schemas.JString "speech");
      ("index", Schemas.JNumber (inject_Z 0));
      ("transcript", Schemas.JString "hi");
      ("translations", Schemas.JNull);
      ("alignments", Schemas.JArray []) ].

Definition speech_meta_bytes : list byte := String.list_byte_of_string speech_meta_text.

Definition five_audio_bytes : list byte := [x49; x44; x33; x04; x00].

(** A host for the samples: text is decoded byte by byte, [JSON.parse]
    knows the sample texts, and object URLs are numbered. *)
Definition sample_decode : list byte -> string := String.string_of_list_byte.

Definition sample_createObjectURL (k : nat) : string :=
  "blob:avox/" ++ NilZero.string_of_uint (Nat.to_uint k).

(** A speech frame with a translation: the transcript is the English
    text, two lines; the translation list has the two lines in Spanish. *)
Definition english_transcript : string :=
  "Hello" ++ String (ascii_of_nat 10) EmptyString ++ "World".

Definition hola : AdDataStore.Sentence :=
  {| AdDataStore.text := "Hola"; AdDataStore.start := 0%Q;
     AdDataStore.end_ := (1 # 2)%Q |}.

Definition mundo : AdDataStore.Sentence :=
  {| AdDataStore.text := "Mundo"; AdDataStore.start := (1 # 2)%Q;
     AdDataStore.end_ := 1%Q |}.

Definition translated_meta : Schemas.ResponsePayload :=
  {| Schemas.type := Schemas.TSpeech; Schemas.message := None;
     Schemas.index := Some (inject_Z 1); Schemas.step := None;
     Schemas.transcript := Some english_transcript;
     Schemas.translations := Some (Some ["Hola"; "Mundo"]);
     Schemas.alignments := Some [hola; mundo];
     Schemas.insights := None |}.

Definition sentence_json (s : AdDataStore.Sentence) : Schemas.json :=
  Schemas.JObject
    [ ("text", Schemas.JString (AdDataStore.text s));
      ("start", Schemas.JNumber (AdDataStore.start s));
      ("end", Schemas.JNumber (AdDataStore.end_ s)) ].

Definition translated_meta_json : Schemas.json :=
  Schemas.JObject
    [ ("type", Schemas.JString "speech");
      ("index", Schemas.JNumber (inject_Z 1));
      ("transcript", Schemas.JString english_transcript);
      ("translations",
       Schemas.JArray [Schemas.JString "Hola"; Schemas.JString "Mundo"]);
      ("alignments", Schemas.JArray [sentence_json hola; sentence_json mundo]) ].

Definition translated_meta_text : string :=
  "{" ++ quoted "type" ++ ":" ++ quoted "speech" ++ ","
      ++ quoted "index" ++ ":1,"
      ++ quoted "transcript" ++ ":" ++ quoted "Hello\nWorld" ++ ","
      ++ quoted "translations" ++ ":[" ++ quoted "Hola" ++ ","
      ++ quoted "Mundo" ++ "],"
      ++ quoted "alignments" ++ ":[{" ++ quoted "text" ++ ":" ++ quoted "Hola"
      ++ "," ++ quoted "start" ++ ":0," ++ quoted "end" ++ ":0.5},{"
      ++ quoted "text" ++ ":" ++ quoted "Mundo" ++ "," ++ quoted "start"
      ++ ":0.5," ++ quoted "end" ++ ":1}]}".

Definition sample_JSON_parse (text : string) : option Schemas.json :=
  if String.eqb text speech_meta_text then Some speech_meta_json
  else if String.eqb text translated_meta_text then Some translated_meta_json
  else None.

Definition translated_frame : list byte :=
  Statements.binary_frame (String.list_byte_of_string translated_meta_text)
    five_audio_bytes.

(** Three [ready] updates for tracks 0, 1, 2 within a second, on a store
    with no focused track *)
Definition sample_suffix (k : nat) : string :=
  "r" ++ NilZero.string_of_uint (Nat.to_uint k).

Definition three_ready : list NotificationStore.Event :=
  [ NotificationStore.EvTrackUpdate 1000 0 NotificationStore.UReady;
    NotificationStore.EvTrackUpdate 1400 1 NotificationStore.UReady;
    NotificationStore.EvTrackUpdate 1900 2 NotificationStore.UReady ].

(** Tracks 0 and 1 each reported [ready] twice, once when the speech
    variant arrived and once when the music variant did, within a second,
    on a store with no focused track *)
Definition ready_per_variant : list NotificationStore.Event :=
  [ NotificationStore.EvTrackUpdate 1000 0 NotificationStore.UReady;
    NotificationStore.EvTrackUpdate 1200 1 NotificationStore.UReady;
    NotificationStore.EvTrackUpdate 1500 0 NotificationStore.UReady;
    NotificationStore.EvTrackUpdate 1900 1 NotificationStore.UReady ].

(** [{"type":"insight","index":2,"insights":[{"insight":"Lagos",
    "explanation":"names the city"}]}] *)
Definition lagos_insight : AdDataStore.Insight :=
  {| AdDataStore.insight := "Lagos"; AdDataStore.explanation := "names the city" |}.

Definition insight_frame : Schemas.json :=
  Schemas.JObject
    [ ("type", Schemas.JString "insight");
      ("index", Schemas.JNumber (inject_Z 2));
      ("insights",
       Schemas.JArray
         [ Schemas.JObject
             [ ("insight", Schemas.JString "Lagos");
               ("explanation", Schemas.JString "names the city") ] ]) ].

(** [{"type":"done","index":2}] *)
Definition done_frame : Schemas.json :=
  Schemas.JObject
    [ ("type", Schemas.JString "done"); ("index", Schemas.JNumber (inject_Z 2)) ].

(** [{"type":"complete"}] and [{"type":"complete","index":2}] *)
Definition complete_frame : Schemas.json :=
  Schemas.JObject [ ("type", Schemas.JString "complete") ].

Definition complete_frame_with_index : Schemas.json :=
  Schemas.JObject
    [ ("type", Schemas.JString "complete");
      ("index", Schemas.JNumber (inject_Z 2)) ].

(** [{"type":"fatal_error","index":2,"message":"out of credit"}] *)
Definition fatal_error_frame : Schemas.json :=
  Schemas.JObject
    [ ("type", Schemas.JString "fatal_error");
      ("index", Schemas.JNumber (inject_Z 2));
      ("message", Schemas.JString "out of credit") ].

(** The metadata of a merged frame for item 2, and one for an index that
    no item carries *)
Definition merged_meta (i : Z) : Schemas.ResponsePayload :=
  {| Schemas.type := Schemas.TMerged; Schemas.message := None;
     Schemas.index := Some (inject_Z i); Schemas.step := None;
     Schemas.transcript := None; Schemas.translations := None;
     Schemas.alignments := None; Schemas.insights := None |}.

(** Two sentences and two insights: the first insight occurs in the first
    sentence, the second in none. *)
Definition welcome : AdDataStore.Sentence :=
  {| AdDataStore.text := "Fresh bread in Lagos today"; AdDataStore.start := 0%Q;
     AdDataStore.end_ := 2%Q |}.

Definition goodbye : AdDataStore.Sentence :=
  {| AdDataStore.text := "Come by before noon"; AdDataStore.start := 2%Q;
     AdDataStore.end_ := 4%Q |}.

Definition rain_insight : AdDataStore.Insight :=
  {| AdDataStore.insight := "rainy season";
     AdDataStore.explanation := "refers to the weather" |}.

End Samples.

(** * Properties *)

(** ** The item store *)

Module AdDataStoreFacts.
Import AdDataStore Samples.

Lemma is_str_true lit x : is_str lit x = true <-> x = Some lit.
Proof.
  destruct x as [s|]; simpl.
  - rewrite String.eqb_eq. split; congruence.
  - split; discriminate.
Qed.

Lemma is_str_false lit x : is_str lit x = false <-> x <> Some lit.
Proof.
  rewrite <- is_str_true. destruct (is_str lit x); split; congruence.
Qed.

Lemma is_null_true x : is_null x = true <-> x = None.
Proof. destruct x; simpl; split; congruence. Qed.

Lemma is_ppending_true {A} (x : Progress A) : is_ppending x = true <-> x = PPending.
Proof. destruct x; simpl; split; congruence. Qed.

Lemma is_ppending_false {A} (x : Progress A) : is_ppending x = false <-> x <> PPending.
Proof. destruct x; simpl; split; congruence. Qed.

(** Case analysis on the tests a bulk operation makes on one item *)
Ltac case_tests :=
  repeat match goal with
    | |- context [is_str ?l ?x] =>
        let E := fresh "E" in
        destruct (is_str l x) eqn:E;
        [apply is_str_true in E | apply is_str_false in E]
    | |- context [is_ppending ?x] =>
        let E := fresh "E" in
        destruct (is_ppending x) eqn:E;
        [apply is_ppending_true in E | apply is_ppending_false in E]
    end.

Lemma failAd_music ad :
  (musicAudioSrc ad = Some "pending" -> musicAudioSrc (failAd ad) = Some "error")
  /\ (musicAudioSrc ad <> Some "pending" -> musicAudioSrc (failAd ad) = musicAudioSrc ad).
Proof. unfold failAd; simpl. case_tests; split; congruence. Qed.

Lemma failAd_nonMusic ad :
  (nonMusicAudioSrc ad = Some "pending" -> nonMusicAudioSrc (failAd ad) = Some "error")
  /\ (nonMusicAudioSrc ad <> Some "pending"
      -> nonMusicAudioSrc (failAd ad) = nonMusicAudioSrc ad).
Proof. unfold failAd; simpl. case_tests; split; congruence. Qed.

Lemma failAd_transcript ad :
  (transcriptSents ad = PPending -> transcriptSents (failAd ad) = PError)
  /\ (transcriptSents ad <> PPending -> transcriptSents (failAd ad) = transcriptSents ad).
Proof. unfold failAd; simpl. case_tests; split; congruence. Qed.

Lemma failAd_insights ad :
  (insights ad = PPending -> insights (failAd ad) = PError)
  /\ (insights ad <> PPending -> insights (failAd ad) = insights ad).
Proof. unfold failAd; simpl. case_tests; split; congruence. Qed.

Lemma failAd_status ad : status (failAd ad) = StDone.
Proof. unfold failAd; simpl. destruct (status ad); reflexivity. Qed.

Lemma failAd_idem ad : failAd (failAd ad) = failAd ad.
Proof.
  destruct ad as [i m n t e ins l s th]. unfold failAd; simpl.
  f_equal.
  - destruct m as [x|]; simpl; [destruct (String.eqb x "pending") eqn:E|]; simpl;
      try rewrite E; reflexivity.
  - destruct n as [x|]; simpl; [destruct (String.eqb x "pending") eqn:E|]; simpl;
      try rewrite E; reflexivity.
  - destruct t; reflexivity.
  - destruct ins; reflexivity.
  - destruct s; reflexivity.
Qed.

Lemma nullifyAd_idem ad : nullifyAd (nullifyAd ad) = nullifyAd ad.
Proof.
  destruct ad as [i m n t e ins l s th]. unfold nullifyAd; simpl.
  f_equal.
  - destruct m as [x|]; simpl; [destruct (String.eqb x "pending") eqn:E|]; simpl;
      try rewrite E; reflexivity.
  - destruct n as [x|]; simpl; [destruct (String.eqb x "pending") eqn:E|]; simpl;
      try rewrite E; reflexivity.
  - destruct t; reflexivity.
  - destruct ins; reflexivity.
  - destruct s; reflexivity.
Qed.

(** C1. [failAllPendingRequests] keeps the collection's shape and, item by
    item, turns each of the four progressive fields that is ["pending"]
    into ["error"], leaves a field that is not ["pending"] as it was, sets
    [status] to done, and keeps the other fields.  On the example store,
    item 2 (music awaited, speech ready) ends with music in error, speech
    unchanged and status done. *)
Theorem failAllPendingRequests_fails_pending (st : AdDataState) (k : nat) (ad : AdData) :
  ads st !! k = Some ad ->
  length (ads (failAllPendingRequests st)) = length (ads st)
  /\ activeIndex (failAllPendingRequests st) = activeIndex st
  /\ (exists ad',
        ads (failAllPendingRequests st) !! k = Some ad'
        /\ status ad' = StDone
        /\ (musicAudioSrc ad = Some "pending" -> musicAudioSrc ad' = Some "error")
        /\ (musicAudioSrc ad <> Some "pending" -> musicAudioSrc ad' = musicAudioSrc ad)
        /\ (nonMusicAudioSrc ad = Some "pending" -> nonMusicAudioSrc ad' = Some "error")
        /\ (nonMusicAudioSrc ad <> Some "pending"
            -> nonMusicAudioSrc ad' = nonMusicAudioSrc ad)
        /\ (transcriptSents ad = PPending -> transcriptSents ad' = PError)
        /\ (transcriptSents ad <> PPending -> transcriptSents ad' = transcriptSents ad)
        /\ (insights ad = PPending -> insights ad' = PError)
        /\ (insights ad <> PPending -> insights ad' = insights ad)
        /\ index ad' = index ad
        /\ englishTranscriptSents ad' = englishTranscriptSents ad
        /\ location ad' = location ad
        /\ theme ad' = theme ad)
  /\ (exists ad2,
        ads (failAllPendingRequests example_store) !! 2%nat = Some ad2
        /\ musicAudioSrc ad2 = Some "error"
        /\ nonMusicAudioSrc ad2 = Some "blob:c"
        /\ status ad2 = StDone).
Proof.
  intros Hk. unfold failAllPendingRequests; simpl.
  split; [apply length_map|]. split; [reflexivity|]. split.
  - exists (failAd ad). rewrite list_lookup_fmap, Hk. simpl.
    pose proof (failAd_music ad) as [? ?].
    pose proof (failAd_nonMusic ad) as [? ?].
    pose proof (failAd_transcript ad) as [? ?].
    pose proof (failAd_insights ad) as [? ?].
    pose proof (failAd_status ad).
    repeat split; auto.
  - eexists. repeat split.
Qed.

Lemma failAllPendingRequests_fails_pending_witness :
  exists ad',
    ads (failAllPendingRequests example_store) !! 1%nat = Some ad'
    /\ status ad' = StDone
    /\ musicAudioSrc ad' = None
    /\ nonMusicAudioSrc ad' = Some "error"
    /\ insights ad' = PError
    /\ transcriptSents ad' = PReady [].
Proof.
  destruct (failAllPendingRequests_fails_pending example_store 1
              (example_ad 1 None (Some "pending")) eq_refl)
    as (_ & _ & (ad' & Hk & Hs & _ & Hm & Hn & _ & _ & Ht & Hi & _) & _).
  exists ad'. split; [exact Hk|]. split; [exact Hs|].
  split; [apply Hm; discriminate|].
  split; [apply Hn; reflexivity|].
  split; [apply Hi; reflexivity|].
  apply Ht; discriminate.
Defined.

(** C9. Both bulk terminal operations are idempotent. *)
Theorem bulk_operations_idempotent (st : AdDataState) :
  failAllPendingRequests (failAllPendingRequests st) = failAllPendingRequests st
  /\ nullifyAllPendingRequests (nullifyAllPendingRequests st)
     = nullifyAllPendingRequests st.
Proof.
  unfold failAllPendingRequests, nullifyAllPendingRequests, setAds; simpl.
  split; f_equal; rewrite map_map; apply map_ext; intros ad.
  - apply failAd_idem.
  - apply nullifyAd_idem.
Qed.

(** [ads.find] returns an item of the collection that carries the index
    asked for; where indexes are unique it returns every item asked for. *)
Lemma find_ad_Some i l ad : find_ad i l = Some ad -> In ad l /\ index ad = i.
Proof.
  unfold find_ad. intros H. apply find_some in H as [Hin Heq].
  split; [exact Hin | apply Z.eqb_eq; exact Heq].
Qed.

Lemma find_ad_None i l : find_ad i l = None <-> (forall ad, In ad l -> index ad <> i).
Proof.
  unfold find_ad. split.
  - intros H ad Hin Heq.
    pose proof (find_none _ _ H ad Hin) as Hne. simpl in Hne.
    apply Z.eqb_neq in Hne. contradiction.
  - intros H. induction l as [|a l IH]; simpl; [reflexivity|].
    destruct (Z.eqb (index a) i) eqn:E.
    + apply Z.eqb_eq in E. exfalso. apply (H a); [left; reflexivity | exact E].
    + apply IH. intros ad Hin. apply H. right. exact Hin.
Qed.

Lemma find_ad_unique l ad :
  NoDup (map index l) -> In ad l -> find_ad (index ad) l = Some ad.
Proof.
  unfold find_ad. induction l as [|a l IH]; simpl; intros Hnd Hin; [contradiction|].
  apply NoDup_cons in Hnd as [Hnotin Hnd].
  destruct Hin as [-> | Hin].
  - rewrite Z.eqb_refl. reflexivity.
  - destruct (Z.eqb (index a) (index ad)) eqn:E.
    + apply Z.eqb_eq in E. exfalso. apply Hnotin. rewrite E.
      apply list_elem_of_In, in_map, Hin.
    + apply IH; assumption.
Qed.

(** C6. For the item that the store holds at an index, [getAdLoadingState]
    is true exactly when both variants are ["pending"], or exactly one
    variant is [null] and the other is ["pending"]; so it is true for
    music [null] with speech ["pending"], and false for music ["error"]
    with speech ["pending"]. *)
Theorem getAdLoadingState_iff (st : AdDataState) (i : Z) (ad : AdData) :
  find_ad i (ads st) = Some ad ->
  (getAdLoadingState i st = true <->
     (musicAudioSrc ad = Some "pending" /\ nonMusicAudioSrc ad = Some "pending")
     \/ (musicAudioSrc ad = None /\ nonMusicAudioSrc ad <> None
         /\ nonMusicAudioSrc ad = Some "pending")
     \/ (nonMusicAudioSrc ad = None /\ musicAudioSrc ad <> None
         /\ musicAudioSrc ad = Some "pending"))
  /\ (musicAudioSrc ad = None -> nonMusicAudioSrc ad = Some "pending"
      -> getAdLoadingState i st = true)
  /\ (musicAudioSrc ad = Some "error" -> nonMusicAudioSrc ad = Some "pending"
      -> getAdLoadingState i st = false).
Proof.
  intros Hfind. unfold getAdLoadingState. rewrite Hfind. cbv zeta.
  set (loading := (_ || _)%bool).
  assert (Hiff : loading = true <->
     (musicAudioSrc ad = Some "pending" /\ nonMusicAudioSrc ad = Some "pending")
     \/ (musicAudioSrc ad = None /\ nonMusicAudioSrc ad <> None
         /\ nonMusicAudioSrc ad = Some "pending")
     \/ (nonMusicAudioSrc ad = None /\ musicAudioSrc ad <> None
         /\ musicAudioSrc ad = Some "pending")).
  { unfold loading.
    rewrite !orb_true_iff, !andb_true_iff, !is_str_true, !is_null_true.
    intuition congruence. }
  split; [exact Hiff|]. split.
  - intros Hm Hn. apply Hiff. right. left. rewrite Hn. repeat split; congruence.
  - intros Hm Hn. destruct loading; [|reflexivity].
    destruct (proj1 Hiff eq_refl) as [[? _] | [[? _] | [? _]]]; congruence.
Qed.

Lemma getAdLoadingState_iff_witness :
  getAdLoadingState 1 example_store = true.
Proof.
  destruct (getAdLoadingState_iff example_store 1
              (example_ad 1 None (Some "pending")) eq_refl) as (_ & H & _).
  apply H; reflexivity.
Defined.

(** The same for every item of a store whose indexes are distinct. *)
Lemma getAdLoadingState_of_member (st : AdDataState) (ad : AdData) :
  NoDup (map index (ads st)) -> In ad (ads st) ->
  (getAdLoadingState (index ad) st = true <->
     (musicAudioSrc ad = Some "pending" /\ nonMusicAudioSrc ad = Some "pending")
     \/ (musicAudioSrc ad = None /\ nonMusicAudioSrc ad = Some "pending")
     \/ (nonMusicAudioSrc ad = None /\ musicAudioSrc ad = Some "pending")).
Proof.
  intros Hnd Hin. unfold getAdLoadingState.
  rewrite (find_ad_unique _ _ Hnd Hin). cbv zeta.
  rewrite !orb_true_iff, !andb_true_iff, !is_str_true, !is_null_true.
  tauto.
Qed.

(** C10. A patch whose index no item carries leaves the store as it is. *)
Theorem updateAd_unknown_index (st : AdDataState) (patch : AdData) :
  (forall ad, In ad (ads st) -> index ad <> index patch) ->
  updateAd patch st = st.
Proof.
  intros Hnone. destruct st as [l a]. unfold updateAd, setAds; simpl in *.
  f_equal. induction l as [|x l IH]; simpl; [reflexivity|].
  f_equal.
  - destruct (Z.eqb (index x) (index patch)) eqn:E; [|reflexivity].
    apply Z.eqb_eq in E. exfalso. apply (Hnone x); [left; reflexivity | exact E].
  - apply IH. intros ad Hin. apply Hnone. right. exact Hin.
Qed.

Lemma updateAd_unknown_index_witness :
  updateAd (example_ad 7 (Some "blob:z") None) example_store = example_store.
Proof.
  apply updateAd_unknown_index. simpl.
  intros ad [<- | [<- | [<- | []]]]; simpl; discriminate.
Defined.

(** ** populateAds *)

Lemma getRandomVibrantColor_in_palette (r : Q) :
  (0 <= r)%Q -> (r < 1)%Q ->
  exists colour, getRandomVibrantColor r = Some colour /\ In colour vibrantColors.
Proof.
  intros H0 H1. unfold getRandomVibrantColor.
  set (n := Z.of_nat (length vibrantColors)).
  set (i := Qfloor (r * inject_Z n)).
  assert (Hlo : 0 <= i).
  { change 0 with (Qfloor (inject_Z 0)) at 1. apply Qfloor_resp_le.
    apply Qmult_le_0_compat; [exact H0 | discriminate]. }
  assert (Hhi : i < n).
  { rewrite Zlt_Qlt. eapply Qle_lt_trans; [apply Qfloor_le|].
    rewrite <- (Qmult_1_l (inject_Z n)) at 2.
    apply Qmult_lt_compat_r; [reflexivity | exact H1]. }
  destruct (Z.ltb i 0) eqn:E; [apply Z.ltb_lt in E; lia|].
  destruct (vibrantColors !! Z.to_nat i) as [c|] eqn:Ec.
  - exists c. split; [reflexivity|].
    apply list_elem_of_In. eapply list_elem_of_lookup_2. exact Ec.
  - apply lookup_ge_None in Ec. unfold n in Hhi. lia.
Qed.

Lemma populateAds_from_appends (random : nat -> Q) (data : list CountryData) :
  forall (i : Z) (calls : nat) (st : AdDataState),
  exists new,
    populateAds_from random i data (calls, st)
    = ((calls + length data)%nat, setAds (ads st ++ new) st)
    /\ length new = length data
    /\ forall k country, data !! k = Some country ->
         new !! k = Some (newAd country (i + Z.of_nat k) (random (calls + k)%nat)).
Proof.
  induction data as [|c rest IH]; intros i calls st.
  - exists []. simpl. rewrite Nat.add_0_r, app_nil_r.
    split; [destruct st; reflexivity|]. split; [reflexivity|].
    intros k country Hk. discriminate.
  - simpl.
    destruct (IH (i + 1) (S calls) (appendAd (newAd c i (random calls)) st))
      as (new & Hrun & Hlen & Hnew).
    exists (newAd c i (random calls) :: new).
    split; [|split].
    + rewrite Hrun. unfold appendAd, setAds; simpl.
      rewrite <- app_assoc. simpl. f_equal. lia.
    + simpl. rewrite Hlen. reflexivity.
    + intros [|k] country Hk; simpl in *.
      * injection Hk as <-. rewrite Z.add_0_r, Nat.add_0_r. reflexivity.
      * rewrite (Hnew k country Hk). do 2 f_equal; [lia | f_equal; lia].
Qed.




End AdDataStoreFacts.

(** ** The connection session *)

Module WsServiceFacts.
Import AdDataStore WsService Statements Samples.

Lemma find_target_Some i l ad :
  find_target i l = Some ad -> In ad l /\ Qeq_bool (inject_Z (index ad)) i = true.
Proof. unfold find_target. apply find_some. Qed.

(** After [updateAd] with the item that was found and rewritten, the same
    search finds the rewritten item. *)
Lemma find_target_updateAd i l target target' :
  find_target i l = Some target ->
  index target' = index target ->
  find_target i
    (map (fun ad => if Z.eqb (index ad) (index target') then target' else ad) l)
  = Some target'.
Proof.
  intros Hfind Hidx.
  pose proof (find_target_Some _ _ _ Hfind) as [_ Hmatch].
  unfold find_target in *. induction l as [|a l IH]; simpl in *; [discriminate|].
  destruct (Qeq_bool (inject_Z (index a)) i) eqn:Ea.
  - injection Hfind as ->. rewrite Hidx, Z.eqb_refl. simpl.
    rewrite Hidx, Hmatch. reflexivity.
  - destruct (Z.eqb (index a) (index target')) eqn:Eb.
    + apply Z.eqb_eq in Eb. rewrite Eb, Hidx, Hmatch in Ea. discriminate.
    + simpl. rewrite Ea. apply IH. exact Hfind.
Qed.

Lemma lookup_target_write_back resData w target target' :
  lookup_target resData w = Some target ->
  index target' = index target ->
  lookup_target resData (call_updateAd target' w) = Some target'.
Proof.
  unfold lookup_target. destruct (Schemas.index resData) as [i|]; [|discriminate].
  intros Hfind Hidx. simpl. apply find_target_updateAd with target; assumption.
Qed.

(** ** Error frames *)

Lemma handleAdError_mapping target resData s :
  Schemas.type resData = Schemas.TError ->
  Schemas.step resData = Some s ->
  is_Some (Schemas.index resData) ->
  is_Some (Schemas.message resData) ->
  exists target',
    handleAdError target resData = Ok target'
    /\ error_mapping s target target'
    /\ index target' = index target
    /\ englishTranscriptSents target' = englishTranscriptSents target
    /\ location target' = location target
    /\ status target' = status target
    /\ theme target' = theme target.
Proof.
  intros Hty Hs [i Hi] [m Hm].
  unfold handleAdError, Schemas.AdErrorPayload_parse.
  rewrite Hty, Hs, Hi, Hm. simpl.
  eexists. split; [reflexivity|].
  destruct s; simpl; repeat split.
Qed.

Lemma handleAdError_rejects target resData :
  Schemas.step resData = None \/ Schemas.message resData = None ->
  handleAdError target resData = Throw ZodError.
Proof.
  intros H. unfold handleAdError, Schemas.AdErrorPayload_parse.
  destruct (Schemas.is_type Schemas.TError (Schemas.type resData)); [|reflexivity].
  simpl. destruct H as [-> | Hm]; [reflexivity|].
  destruct (Schemas.step resData); [|reflexivity]. simpl.
  destruct (Schemas.index resData); [|reflexivity]. simpl.
  rewrite Hm. reflexivity.
Qed.

(** C2, as stated, fails: an error frame for item 3 that carries no [step]
    is rejected by the error schema, and the item keeps its four fields
    ["pending"] instead of getting them set to ["error"]. *)
Lemma error_frame_without_step_is_rejected :
  dispatchJson error_frame_without_step fresh_world = Throw ZodError
  /\ swallow (dispatchJson error_frame_without_step fresh_world) fresh_world
     = fresh_world
  /\ find_ad 3 (ads (store fresh_world)) = Some (fresh_ad 3)
  /\ musicAudioSrc (fresh_ad 3) <> Some "error"
  /\ nonMusicAudioSrc (fresh_ad 3) <> Some "error"
  /\ transcriptSents (fresh_ad 3) <> PError
  /\ insights (fresh_ad 3) <> PError.
Proof. repeat split; discriminate. Qed.

(** C2, amended. An error frame that the schemas accept and that targets an
    existing item is, unless its [event] member is ["transcription"],
    handled per the table: step [merged] or [music] sets only
    [musicAudioSrc] to ["error"]; step [speech] sets exactly
    [nonMusicAudioSrc] and [transcriptSents]; the other steps of the schema
    ([insights], [transcript]) set all four fields; the fields outside the
    four stay.  The rewritten item is what the store then holds at that
    index.  A frame without [step] (or without [message]) is rejected by
    the error schema and changes nothing.  A frame whose [event] member is
    ["transcription"] is dropped before the table is consulted and changes
    nothing either. *)
Theorem error_frame_mapping (json : Schemas.json) (resData : Schemas.ResponsePayload)
    (w : World) (target : AdData) :
  Schemas.ResponsePayload_parse json = Some resData ->
  Schemas.type resData = Schemas.TError ->
  lookup_target resData w = Some target ->
  (event_is_transcription json = false ->
   (forall s, Schemas.step resData = Some s ->
      is_Some (Schemas.message resData) ->
      exists target',
        dispatchJson json w = Ok (call_updateAd target' w)
        /\ lookup_target resData (call_updateAd target' w) = Some target'
        /\ error_mapping s target target'
        /\ index target' = index target
        /\ englishTranscriptSents target' = englishTranscriptSents target
        /\ location target' = location target
        /\ status target' = status target
        /\ theme target' = theme target)
   /\ (Schemas.step resData = None \/ Schemas.message resData = None ->
       dispatchJson json w = Throw ZodError
       /\ swallow (dispatchJson json w) w = w))
  /\ (event_is_transcription json = true ->
      dispatchJson json w = Ok w
      /\ swallow (dispatchJson json w) w = w).
Proof.
  intros Hparse Hty Htarget.
  assert (Hidx : is_Some (Schemas.index resData)).
  { unfold lookup_target in Htarget.
    destruct (Schemas.index resData); [eauto | discriminate]. }
  unfold dispatchJson. rewrite Hparse. simpl.
  split; intros Hev; rewrite Hev; [|split; reflexivity].
  rewrite Hty, Htarget.
  split.
  - intros s Hs Hmsg.
    destruct (handleAdError_mapping target resData s Hty Hs Hidx Hmsg)
      as (target' & Hh & Hmap & Hi & Hrest).
    exists target'. rewrite Hh. simpl.
    split; [reflexivity|]. split; [|split; [exact Hmap|split; [exact Hi|exact Hrest]]].
    apply lookup_target_write_back with target; assumption.
  - intros Hmissing. rewrite (handleAdError_rejects target resData Hmissing).
    split; reflexivity.
Qed.

Lemma error_frame_mapping_witness :
  (exists target',
     dispatchJson error_speech_frame fresh_world
     = Ok (call_updateAd target' fresh_world)
     /\ musicAudioSrc target' = Some "pending"
     /\ nonMusicAudioSrc target' = Some "error"
     /\ transcriptSents target' = PError
     /\ insights target' = PPending)
  /\ dispatchJson error_speech_frame_as_transcription fresh_world = Ok fresh_world.
Proof.
  split.
  - destruct (error_frame_mapping error_speech_frame
                {| Schemas.type := Schemas.TError;
                   Schemas.message := Some "tts failed";
                   Schemas.index := Some (inject_Z 3);
                   Schemas.step := Some Schemas.SSpeech;
                   Schemas.transcript := None; Schemas.translations := None;
                   Schemas.alignments := None; Schemas.insights := None |}
                fresh_world (fresh_ad 3) eq_refl eq_refl eq_refl)
      as [Hstep _].
    destruct (Hstep eq_refl) as [Hstep' _].
    destruct (Hstep' Schemas.SSpeech eq_refl (ex_intro _ _ eq_refl))
      as (target' & Hrun & _ & (Hm & Hn & Ht & Hi) & _).
    exists target'. repeat split; assumption.
  - destruct (error_frame_mapping error_speech_frame_as_transcription
                {| Schemas.type := Schemas.TError;
                   Schemas.message := Some "tts failed";
                   Schemas.index := Some (inject_Z 3);
                   Schemas.step := Some Schemas.SSpeech;
                   Schemas.transcript := None; Schemas.translations := None;
                   Schemas.alignments := None; Schemas.insights := None |}
                fresh_world (fresh_ad 3) eq_refl eq_refl eq_refl)
      as [_ Hdrop].
    exact (proj1 (Hdrop eq_refl)).
Defined.

(** A step outside the schema's five never reaches the table: the frame
    fails [ResponsePayload] and is dropped. *)
Lemma error_frame_unknown_step_is_rejected :
  dispatchJson error_frame_unknown_step fresh_world = Throw ZodError.
Proof. reflexivity. Qed.

(** ** Binary frames *)

Lemma byte_val_of_Z (z : Z) : byte_val (byte_of_Z z) = z mod 256.
Proof.
  unfold byte_val, byte_of_Z.
  assert (Hr : 0 <= z mod 256 < 256) by (apply Z.mod_pos_bound; lia).
  destruct (Byte.of_N (Z.to_N (z mod 256))) as [b|] eqn:E.
  - apply Byte.to_of_N in E. rewrite E. apply Z2N.id. lia.
  - apply Byte.of_N_None_iff in E. lia.
Qed.

Lemma lor_disjoint (a b k : Z) :
  0 <= k -> 0 <= a < 2 ^ k -> Z.lor a (b * 2 ^ k) = a + b * 2 ^ k.
Proof.
  intros Hk Ha. rewrite <- (Z.shiftl_mul_pow2 b k) by exact Hk.
  assert (Hland : Z.land a (Z.shiftl b k) = 0).
  { apply Z.bits_inj'. intros i Hi. rewrite Z.land_spec, Z.bits_0.
    destruct (Z.lt_ge_cases i k) as [Hlt | Hge].
    - rewrite Z.shiftl_spec_low by exact Hlt. apply andb_false_r.
    - rewrite <- (Z.mod_small a (2 ^ k)) by exact Ha.
      rewrite Z.mod_pow2_bits_high by lia. reflexivity. }
  rewrite <- Z.lxor_lor, <- Z.add_nocarry_lxor by exact Hland.
  reflexivity.
Qed.

Lemma getUint32_le_u32le (n : Z) (rest : list byte) :
  0 <= n < 2 ^ 32 -> getUint32_le (u32le n ++ rest) = Ok n.
Proof.
  intros Hn. unfold u32le, getUint32_le. simpl app. cbv iota beta.
  rewrite !byte_val_of_Z. f_equal.
  set (b0 := n mod 256). set (b1 := (n / 2 ^ 8) mod 256).
  set (b2 := (n / 2 ^ 16) mod 256). set (b3 := (n / 2 ^ 24) mod 256).
  assert (H0 : 0 <= b0 < 256) by (apply Z.mod_pos_bound; lia).
  assert (H1 : 0 <= b1 < 256) by (apply Z.mod_pos_bound; lia).
  assert (H2 : 0 <= b2 < 256) by (apply Z.mod_pos_bound; lia).
  assert (H3 : 0 <= b3 < 256) by (apply Z.mod_pos_bound; lia).
  rewrite !Z.shiftl_mul_pow2 by lia.
  rewrite (lor_disjoint (b2 * 2 ^ 16) b3 24) by lia.
  replace (b2 * 2 ^ 16 + b3 * 2 ^ 24) with ((b2 + b3 * 2 ^ 8) * 2 ^ 16)
    by (change (2 ^ 24) with (2 ^ 8 * 2 ^ 16); ring).
  rewrite (lor_disjoint (b1 * 2 ^ 8) _ 16) by lia.
  replace (b1 * 2 ^ 8 + (b2 + b3 * 2 ^ 8) * 2 ^ 16)
    with ((b1 + (b2 + b3 * 2 ^ 8) * 2 ^ 8) * 2 ^ 8)
    by (change (2 ^ 16) with (2 ^ 8 * 2 ^ 8); ring).
  rewrite (lor_disjoint b0 _ 8) by lia.
  unfold b0, b1, b2, b3.
  change (2 ^ 8) with 256. change (2 ^ 16) with 65536.
  change (2 ^ 24) with 16777216. change (2 ^ 32) with 4294967296 in Hn.
  Z.div_mod_to_equations. lia.
Qed.

Lemma bind_Ok {A B} (a : A) (f : A -> result B) : (Ok a ≫= f) = f a.
Proof. reflexivity. Qed.

Lemma getUint32_le_frame (meta audio : list byte) :
  Z.of_nat (length meta) < 2 ^ 32 ->
  getUint32_le (binary_frame meta audio) = Ok (Z.of_nat (length meta)).
Proof. intros H. unfold binary_frame. apply getUint32_le_u32le. lia. Qed.

Lemma Uint8Array_view_frame (meta audio : list byte) :
  Uint8Array_view (binary_frame meta audio) 4 (Z.of_nat (length meta)) = Ok meta.
Proof.
  unfold Uint8Array_view, binary_frame.
  rewrite length_app, length_app. simpl length.
  destruct (Z.ltb _ _) eqn:E; [apply Z.ltb_lt in E; lia|].
  rewrite Nat2Z.id. simpl drop. rewrite drop_0, take_app_length. reflexivity.
Qed.

Lemma ArrayBuffer_slice_frame (meta audio : list byte) :
  ArrayBuffer_slice (binary_frame meta audio) (4 + Z.of_nat (length meta)) = audio.
Proof.
  unfold ArrayBuffer_slice, binary_frame.
  replace (Z.to_nat (4 + Z.of_nat (length meta))) with (4 + length meta)%nat by lia.
  simpl drop. rewrite drop_app_length. reflexivity.
Qed.

(** *** The message schema accepts a value exactly as given *)

Lemma z_string_reads (j : Schemas.json) (s : string) :
  Schemas.z_string j = Some s <-> reads_string j s.
Proof.
  unfold reads_string. destruct j; simpl; split; intros H; congruence.
Qed.

Lemma z_number_reads (j : Schemas.json) (q : Q) :
  Schemas.z_number j = Some q <-> reads_number j q.
Proof.
  unfold reads_number. destruct j; simpl; split; intros H; congruence.
Qed.

Lemma z_type_reads (j : Schemas.json) (t : Schemas.MsgType) :
  Schemas.z_type j = Some t <-> reads_type j t.
Proof.
  unfold reads_type. split.
  - destruct j as [| | |s| |]; try discriminate.
    unfold Schemas.z_type. simpl.
    repeat match goal with
           | |- context [String.eqb ?a ?b] =>
               destruct (String.eqb_spec a b) as [->|_];
               [intros [= <-]; reflexivity|]
           end.
    discriminate.
  - intros ->. destruct t; reflexivity.
Qed.

Lemma z_Step_reads (j : Schemas.json) (s : Schemas.Step) :
  Schemas.z_Step j = Some s <-> reads_step j s.
Proof.
  unfold reads_step. split.
  - destruct j as [| | |x| |]; try discriminate.
    unfold Schemas.z_Step. simpl.
    repeat match goal with
           | |- context [String.eqb ?a ?b] =>
               destruct (String.eqb_spec a b) as [->|_];
               [intros [= <-]; reflexivity|]
           end.
    discriminate.
  - intros ->. destruct s; reflexivity.
Qed.

Lemma z_array_reads {A} (item : Schemas.json -> option A)
    (reads : Schemas.json -> A -> Prop) :
  (forall j a, item j = Some a <-> reads j a) ->
  forall j l, Schemas.z_array item j = Some l <-> reads_array reads j l.
Proof.
  intros Hitem j l. unfold reads_array. split.
  - destruct j as [| | | |items|]; simpl; try discriminate.
    intros H. apply mapM_Some in H. exists items. split; [reflexivity|].
    eapply Forall2_impl; [exact H|]. intros x y Hxy. apply Hitem, Hxy.
  - intros (items & -> & H). simpl. apply mapM_Some.
    eapply Forall2_impl; [exact H|]. intros x y Hxy. apply Hitem, Hxy.
Qed.

Lemma z_nullable_reads {A} (schema : Schemas.json -> option A)
    (reads : Schemas.json -> A -> Prop) :
  (forall j a, schema j = Some a <-> reads j a) ->
  (forall a, ~ reads Schemas.JNull a) ->
  forall j v, Schemas.z_nullable schema j = Some v <-> reads_nullable reads j v.
Proof.
  intros Hschema Hnull j v. unfold reads_nullable, Schemas.z_nullable. split.
  - destruct j; simpl;
      try (intros H; apply fmap_Some in H as (a & Ha & ->); apply Hschema, Ha).
    intros [= <-]. reflexivity.
  - destruct v as [a|].
    + intros Hr. destruct j; try (apply Hschema in Hr; rewrite Hr; reflexivity).
      destruct (Hnull a Hr).
    + intros ->. reflexivity.
Qed.

Lemma z_optional_reads {A} (schema : Schemas.json -> option A)
    (reads : Schemas.json -> A -> Prop) :
  (forall j a, schema j = Some a <-> reads j a) ->
  forall member field,
    Schemas.z_optional schema member = Some field
    <-> optional_member reads member field.
Proof.
  intros Hschema member field. unfold Schemas.z_optional, optional_member. split.
  - destruct member as [j|].
    + intros H. apply fmap_Some in H as (a & Ha & ->). apply Hschema, Ha.
    + intros [= <-]. exact I.
  - destruct member as [j|], field as [a|]; try contradiction.
    + intros Hr. apply Hschema in Hr. rewrite Hr. reflexivity.
    + reflexivity.
Qed.

Lemma sentenceAlignment_reads (j : Schemas.json) (s : Sentence) :
  Schemas.sentenceAlignment j = Some s <-> reads_alignment j s.
Proof.
  unfold reads_alignment, Schemas.sentenceAlignment, Schemas.z_required. split.
  - destruct j as [| | | | |o]; try discriminate.
    intros H.
    apply bind_Some in H as (t & Ht & H).
    apply bind_Some in H as (b & Hb & H).
    apply bind_Some in H as (e & He & H).
    injection H as <-. simpl.
    apply bind_Some in Ht as (jt & Hjt & Ht). apply z_string_reads in Ht.
    apply bind_Some in Hb as (jb & Hjb & Hb). apply z_number_reads in Hb.
    apply bind_Some in He as (je & Hje & He). apply z_number_reads in He.
    unfold reads_string, reads_number in *. subst.
    exists o. repeat split; assumption.
  - intros (o & -> & Ht & Hb & He). rewrite Ht, Hb, He. simpl.
    destruct s; reflexivity.
Qed.

Lemma insight_reads (j : Schemas.json) (i : Insight) :
  Schemas.insight j = Some i <-> reads_insight j i.
Proof.
  unfold reads_insight, Schemas.insight, Schemas.z_required. split.
  - destruct j as [| | | | |o]; try discriminate.
    intros H.
    apply bind_Some in H as (t & Ht & H).
    apply bind_Some in H as (e & He & H).
    injection H as <-. simpl.
    apply bind_Some in Ht as (jt & Hjt & Ht). apply z_string_reads in Ht.
    apply bind_Some in He as (je & Hje & He). apply z_string_reads in He.
    unfold reads_string in *. subst.
    exists o. repeat split; assumption.
  - intros (o & -> & Ht & He). rewrite Ht, He. simpl.
    destruct i; reflexivity.
Qed.

(** [ResponsePayload.parse] returns a payload exactly when the payload is
    the value as given; it throws on every other value. *)
Lemma ResponsePayload_parse_as_given (j : Schemas.json) (p : Schemas.ResponsePayload) :
  Schemas.ResponsePayload_parse j = Some p <-> payload_as_given j p.
Proof.
  pose proof (z_optional_reads _ _ z_string_reads) as Hstr.
  pose proof (z_optional_reads _ _ z_number_reads) as Hnum.
  pose proof (z_optional_reads _ _ z_Step_reads) as Hstep.
  pose proof (z_optional_reads _ _
                (z_nullable_reads _ _ (z_array_reads _ _ z_string_reads)
                   ltac:(intros a (items & Hj & _); discriminate))) as Htl.
  pose proof (z_optional_reads _ _ (z_array_reads _ _ sentenceAlignment_reads)) as Hal.
  pose proof (z_optional_reads _ _ (z_array_reads _ _ insight_reads)) as Hins.
  unfold payload_as_given, Schemas.ResponsePayload_parse. split.
  - destruct j as [| | | | |o]; try discriminate.
    intros H.
    apply bind_Some in H as (ty & Hty & H).
    apply bind_Some in H as (msg & Hmsg & H).
    apply bind_Some in H as (idx & Hidx & H).
    apply bind_Some in H as (stp & Hstp & H).
    apply bind_Some in H as (tr & Htr & H).
    apply bind_Some in H as (tl & Htl' & H).
    apply bind_Some in H as (al & Hal' & H).
    apply bind_Some in H as (ins & Hins' & H).
    injection H as <-. simpl.
    exists o. split; [reflexivity|].
    split.
    { unfold Schemas.z_required in Hty.
      apply bind_Some in Hty as (t & Ht & Hty).
      exists t. split; [exact Ht | apply z_type_reads, Hty]. }
    split; [apply Hstr, Hmsg|]. split; [apply Hnum, Hidx|].
    split; [apply Hstep, Hstp|]. split; [apply Hstr, Htr|].
    split; [apply Htl, Htl'|]. split; [apply Hal, Hal' | apply Hins, Hins'].
  - intros (o & -> & (t & Ht & Hty) & Hmsg & Hidx & Hstp & Htr & Htl' & Hal' & Hins').
    apply z_type_reads in Hty.
    apply Hstr in Hmsg, Htr. apply Hnum in Hidx. apply Hstep in Hstp.
    apply Htl in Htl'. apply Hal in Hal'. apply Hins in Hins'.
    unfold Schemas.z_required. rewrite Ht. simpl. rewrite Hty. simpl.
    rewrite Hmsg. simpl. rewrite Hidx. simpl. rewrite Hstp. simpl.
    rewrite Htr. simpl. rewrite Htl'. simpl. rewrite Hal'. simpl.
    rewrite Hins'. simpl. destruct p; reflexivity.
Qed.

Section Decoding.
Variable JSON_parse : string -> option Schemas.json.
Variable TextDecoder_decode : list byte -> string.

(** C3. A buffer laid out as length prefix, metadata, audio decodes to
    the metadata that [JSON.parse] and the message schema make of the
    metadata bytes, together with the audio bytes as they are, the empty
    audio included; the split is at offset [4 + L].  The metadata it
    returns is the JSON value as given: the frame decodes to a payload and
    bytes exactly when the payload is the parsed value as the message
    schema words it and the bytes are the audio, and it is rejected when
    the value is no message; a frame that fails to decode fails as the
    text frame of the same text does.  A buffer whose prefix announces
    more metadata than the buffer holds after the prefix (so also a
    length beyond the buffer size) fails to decode. *)
Theorem decodeFrame_splits (meta audio : list byte) :
  Z.of_nat (length meta) < 2 ^ 32 ->
  decodeFrame JSON_parse TextDecoder_decode (binary_frame meta audio)
  = match JSON_parse (TextDecoder_decode meta) with
    | None => Throw SyntaxError
    | Some json =>
        match Schemas.ResponsePayload_parse json with
        | None => Throw ZodError
        | Some metadata => Ok (metadata, audio)
        end
    end
  /\ decodeFrame JSON_parse TextDecoder_decode (binary_frame meta [])
     = match JSON_parse (TextDecoder_decode meta) with
       | None => Throw SyntaxError
       | Some json =>
           match Schemas.ResponsePayload_parse json with
           | None => Throw ZodError
           | Some metadata => Ok (metadata, [])
           end
       end
  /\ take (4 + length meta) (binary_frame meta audio)
     = (u32le (Z.of_nat (length meta)) ++ meta)%list
  /\ drop (4 + length meta) (binary_frame meta audio) = audio
  /\ (forall (buf : list byte) (L : Z),
        getUint32_le buf = Ok L ->
        Z.of_nat (length buf) < 4 + L ->
        decodeFrame JSON_parse TextDecoder_decode buf = Throw RangeError)
  /\ (forall (buf : list byte) (L : Z),
        getUint32_le buf = Ok L ->
        Z.of_nat (length buf) < L ->
        decodeFrame JSON_parse TextDecoder_decode buf = Throw RangeError)
  /\ (forall json,
        JSON_parse (TextDecoder_decode meta) = Some json ->
        (forall metadata bytes,
           decodeFrame JSON_parse TextDecoder_decode (binary_frame meta audio)
           = Ok (metadata, bytes)
           <-> payload_as_given json metadata /\ bytes = audio)
        /\ ((forall metadata, ~ payload_as_given json metadata) ->
            decodeFrame JSON_parse TextDecoder_decode (binary_frame meta audio)
            = Throw ZodError))
  /\ (forall e,
        decodeFrame JSON_parse TextDecoder_decode (binary_frame meta audio) = Throw e ->
        forall w,
          handleJsonMessage JSON_parse (TextDecoder_decode meta) w = Throw e).
Proof.
  intros Hlen.
  assert (Hdecode : forall a,
    decodeFrame JSON_parse TextDecoder_decode (binary_frame meta a)
    = match JSON_parse (TextDecoder_decode meta) with
      | None => Throw SyntaxError
      | Some json =>
          match Schemas.ResponsePayload_parse json with
          | None => Throw ZodError
          | Some metadata => Ok (metadata, a)
          end
      end).
  { intros a. unfold decodeFrame.
    rewrite getUint32_le_frame by exact Hlen.
    rewrite bind_Ok, Uint8Array_view_frame, bind_Ok.
    destruct (JSON_parse (TextDecoder_decode meta)) as [json|]; [|reflexivity].
    destruct (Schemas.ResponsePayload_parse json) as [metadata|]; [|reflexivity].
    unfold zod. rewrite bind_Ok, ArrayBuffer_slice_frame. reflexivity. }
  assert (Hrange : forall (buf : list byte) (L : Z),
        getUint32_le buf = Ok L ->
        Z.of_nat (length buf) < 4 + L ->
        decodeFrame JSON_parse TextDecoder_decode buf = Throw RangeError).
  { intros buf L HL Hshort. unfold decodeFrame. rewrite HL, bind_Ok.
    unfold Uint8Array_view.
    destruct (Z.ltb _ _) eqn:E; [reflexivity | apply Z.ltb_ge in E; lia]. }
  split; [apply Hdecode|]. split; [apply Hdecode|].
  split; [|split; [|split]].
  - unfold binary_frame. rewrite app_assoc.
    replace (4 + length meta)%nat
      with (length (u32le (Z.of_nat (length meta)) ++ meta)%list)
      by (rewrite length_app; reflexivity).
    apply take_app_length.
  - unfold binary_frame. simpl drop. apply drop_app_length.
  - exact Hrange.
  - split; [intros buf L HL Hshort; apply (Hrange buf L HL); lia|].
    split.
    + intros json Hjson. rewrite Hdecode, Hjson. split.
      * intros metadata bytes. rewrite <- ResponsePayload_parse_as_given.
        destruct (Schemas.ResponsePayload_parse json) as [p|]; split.
        -- intros [= -> ->]. split; reflexivity.
        -- intros [[= ->] ->]. reflexivity.
        -- discriminate.
        -- intros [[=] _].
      * intros Hnone.
        destruct (Schemas.ResponsePayload_parse json) as [p|] eqn:E; [|reflexivity].
        apply ResponsePayload_parse_as_given in E. destruct (Hnone p E).
    + intros e. rewrite Hdecode. intros He w. unfold handleJsonMessage.
      destruct (JSON_parse (TextDecoder_decode meta)) as [json|];
        [|injection He as <-; reflexivity].
      unfold dispatchJson.
      destruct (Schemas.ResponsePayload_parse json) as [p|]; [discriminate|].
      injection He as <-. reflexivity.
Qed.

End Decoding.

Lemma decodeFrame_splits_witness :
  decodeFrame sample_JSON_parse sample_decode
    (binary_frame speech_meta_bytes five_audio_bytes)
  = Ok ({| Schemas.type := Schemas.TSpeech; Schemas.message := None;
           Schemas.index := Some (inject_Z 0); Schemas.step := None;
           Schemas.transcript := Some "hi";
           Schemas.translations := Some None;
           Schemas.alignments := Some [];
           Schemas.insights := None |},
        five_audio_bytes).
Proof.
  destruct (decodeFrame_splits sample_JSON_parse sample_decode
              speech_meta_bytes five_audio_bytes)
    as (_ & _ & _ & _ & _ & _ & Hgiven & _).
  - vm_compute. reflexivity.
  - destruct (Hgiven speech_meta_json eq_refl) as [Hiff _].
    apply Hiff. split; [|reflexivity].
    exists [ ("type", Schemas.JString "speech");
             ("index", Schemas.JNumber (inject_Z 0));
             ("transcript", Schemas.JString "hi");
             ("translations", Schemas.JNull);
             ("alignments", Schemas.JArray []) ].
    split; [reflexivity|].
    split; [exists (Schemas.JString "speech"); split; reflexivity|].
    repeat split.
    exists []. split; [reflexivity | constructor].
Defined.

(** A frame that fails to decode reaches no store operation. *)
Lemma reader_onload_decode_failure
    (JSON_parse : string -> option Schemas.json)
    (TextDecoder_decode : list byte -> string)
    (createObjectURL : nat -> string) (buf : list byte) (e : exn) (w : World) :
  decodeFrame JSON_parse TextDecoder_decode buf = Throw e ->
  reader_onload JSON_parse TextDecoder_decode createObjectURL buf w = w.
Proof. intros H. unfold reader_onload. rewrite H. reflexivity. Qed.

(** The length prefix is read even when nothing follows it that long: a
    prefix of 9 over a buffer of 4 + 2 bytes. *)
Lemma decodeFrame_length_beyond_buffer :
  decodeFrame sample_JSON_parse sample_decode (u32le 9 ++ [x7b; x7d])%list
  = Throw RangeError.
Proof. reflexivity. Qed.

(** ** Speech frames *)


Section Speech.
Variable JSON_parse : string -> option Schemas.json.
Variable TextDecoder_decode : list byte -> string.
Variable createObjectURL : nat -> string.


End Speech.


(** ** Close and error *)

Lemma failAllPendingRequests_idem (st : AdDataState) :
  failAllPendingRequests (failAllPendingRequests st) = failAllPendingRequests st.
Proof.
  unfold failAllPendingRequests, setAds; simpl.
  f_equal. rewrite map_map. apply map_ext. apply AdDataStoreFacts.failAd_idem.
Qed.

Lemma dispatchJson_same_data json w1 w2 :
  same_data w1 w2 -> result_same_data (dispatchJson json w1) (dispatchJson json w2).
Proof.
  destruct w1 as [s1 c1 u1 m1 r1 l1], w2 as [s2 c2 u2 m2 r2 l2].
  unfold same_data; simpl. intros (-> & -> & ->).
  unfold dispatchJson, lookup_target, write_back, call_updateAd,
    call_nullifyAllPendingRequests, call_store, zod; simpl.
  repeat (case_match; simpl; try done).
  destruct (handleAdError _ _); simpl; done.
Qed.

Section Listeners.
Variable JSON_parse : string -> option Schemas.json.
Variable TextDecoder_decode : list byte -> string.
Variable createObjectURL : nat -> string.

Lemma dispatchBlob_same_data metadata w1 w2 :
  same_data w1 w2 ->
  same_data (dispatchBlob createObjectURL metadata w1)
            (dispatchBlob createObjectURL metadata w2).
Proof.
  destruct w1 as [s1 c1 u1 m1 r1 l1], w2 as [s2 c2 u2 m2 r2 l2].
  unfold same_data; simpl. intros (-> & -> & ->).
  unfold dispatchBlob, mint, lookup_target, write_back, call_updateAd,
    call_store, zod; simpl.
  repeat (case_match; simpl; try done).
Qed.

(** No listener reads the connection flag, the set of minted URLs or the
    record of calls: what an event does to the store depends on the
    store, the number of URLs minted and the reads in progress only. *)
Lemma step_same_data ev w1 w2 :
  same_data w1 w2 ->
  same_data (step JSON_parse TextDecoder_decode createObjectURL w1 ev)
            (step JSON_parse TextDecoder_decode createObjectURL w2 ev).
Proof.
  intros Hsame. destruct ev as [|[s|bytes]|k| |]; unfold step; simpl.
  - destruct Hsame as (? & ? & ?). repeat split; assumption.
  - unfold handleJsonMessage. destruct (JSON_parse s); [|exact Hsame].
    pose proof (dispatchJson_same_data j _ _ Hsame) as H.
    destruct (dispatchJson j w1), (dispatchJson j w2); simpl in *;
      try contradiction; assumption.
  - destruct (JSON_parse Blob_toString) as [j|].
    + unfold handleJsonMessage. destruct (JSON_parse Blob_toString); [|exact Hsame].
      pose proof (dispatchJson_same_data j0 _ _ Hsame) as H.
      destruct (dispatchJson j0 w1), (dispatchJson j0 w2); simpl in *;
        try contradiction; assumption.
    + destruct Hsame as (? & ? & Hr). unfold handleBlobMessage, same_data; simpl.
      rewrite Hr. repeat split; assumption.
  - destruct Hsame as (Hs & Hm & Hr). rewrite Hr.
    destruct (reading w2 !! k) as [buf|]; [|repeat split; assumption].
    unfold reader_onload.
    destruct (decodeFrame JSON_parse TextDecoder_decode buf) as [[metadata audio]|];
      [apply dispatchBlob_same_data|]; repeat split; simpl; assumption.
  - destruct Hsame as (Hs & ? & ?). repeat split; simpl; [rewrite Hs|..]; auto.
  - destruct Hsame as (Hs & ? & ?). repeat split; simpl; [rewrite Hs|..]; auto.
Qed.

Lemma run_terminations (evs : list Event) (w : World) :
  Forall (fun ev => ev = EvClose \/ ev = EvError) evs ->
  let w' := run JSON_parse TextDecoder_decode createObjectURL evs w in
  calls w' = (calls w ++ repeat OpFailAllPending (length evs))%list
  /\ minted w' = minted w
  /\ reading w' = reading w
  /\ store w'
     = match evs with
       | [] => store w
       | _ :: _ => failAllPendingRequests (store w)
       end
  /\ (evs <> [] -> isConnected w' = false).
Proof.
  intros Hall. cbv zeta. revert w.
  induction Hall as [|ev evs Hev _ IH]; intros w.
  - simpl. rewrite app_nil_r. repeat split. congruence.
  - set (w1 := call_failAllPendingRequests (set_isConnected false w)).
    assert (Hstep : run JSON_parse TextDecoder_decode createObjectURL (ev :: evs) w
                    = run JSON_parse TextDecoder_decode createObjectURL evs w1).
    { destruct Hev as [-> | ->]; reflexivity. }
    rewrite Hstep. destruct (IH w1) as (Hc & Hm & Hr & Hs & Hi).
    split; [|split; [|split; [|split]]].
    + rewrite Hc. simpl. rewrite <- app_assoc. reflexivity.
    + rewrite Hm. reflexivity.
    + rewrite Hr. reflexivity.
    + rewrite Hs. destruct evs; simpl; [reflexivity|].
      apply failAllPendingRequests_idem.
    + intros _. destruct evs as [|e evs']; [reflexivity|].
      apply Hi. discriminate.
Qed.

(** C8, amended. Every transport close event and every transport error
    event invokes [failAllPendingRequests] once: a run of [n] such events
    invokes it [n] times (twice for an error followed by the close), and
    from the first one on the store is what one invocation makes of it
    and the connection flag is off.  The session keeps no guard of its
    own against later events: whatever listener runs next acts on the
    store as it would right after a single invocation. *)
Theorem close_and_error_fail_pending (evs : list Event) (w : World) :
  evs <> [] ->
  Forall (fun ev => ev = EvClose \/ ev = EvError) evs ->
  let w' := run JSON_parse TextDecoder_decode createObjectURL evs w in
  calls w' = (calls w ++ repeat OpFailAllPending (length evs))%list
  /\ store w' = failAllPendingRequests (store w)
  /\ isConnected w' = false
  /\ forall ev,
       store (step JSON_parse TextDecoder_decode createObjectURL w' ev)
       = store (step JSON_parse TextDecoder_decode createObjectURL
                  (call_failAllPendingRequests w) ev).
Proof.
  intros Hne Hall. cbv zeta.
  destruct (run_terminations evs w Hall) as (Hc & Hm & Hr & Hs & Hi).
  destruct evs as [|e evs']; [contradiction|].
  split; [exact Hc|]. split; [exact Hs|]. split; [apply Hi, Hne|].
  intros ev. apply step_same_data. repeat split; assumption.
Qed.

End Listeners.

(** C8, as stated, fails: a transport error followed by the close invokes
    [failAllPendingRequests] twice, not once; and a binary frame whose read
    completes after the close is still written to the store. *)
Lemma error_then_close_fails_twice :
  calls (run sample_JSON_parse sample_decode sample_createObjectURL
           [EvError; EvClose] fresh_world)
  = [OpFailAllPending; OpFailAllPending]
  /\ calls (run sample_JSON_parse sample_decode sample_createObjectURL
              [EvError; EvClose] fresh_world)
     <> [OpFailAllPending]
  /\ calls (run sample_JSON_parse sample_decode sample_createObjectURL
              [EvMessage (DBlob translated_frame); EvClose; EvLoad 0]
              fresh_world)
     = [OpFailAllPending; OpUpdateAd 1].
Proof.
  split; [reflexivity|]. split; [discriminate|]. vm_compute. reflexivity.
Qed.

Lemma close_and_error_fail_pending_witness :
  calls (run sample_JSON_parse sample_decode sample_createObjectURL
           [EvError; EvClose] fresh_world)
  = [OpFailAllPending; OpFailAllPending]
  /\ store (run sample_JSON_parse sample_decode sample_createObjectURL
              [EvError; EvClose] fresh_world)
     = failAllPendingRequests fresh_store.
Proof.
  destruct (close_and_error_fail_pending sample_JSON_parse sample_decode
              sample_createObjectURL [EvError; EvClose] fresh_world)
    as (Hc & Hs & _).
  - discriminate.
  - constructor; [right; reflexivity|].
    constructor; [left; reflexivity | constructor].
  - split; [exact Hc | exact Hs].
Defined.

End WsServiceFacts.

(** ** The notification scheduler *)

Module NotificationStoreFacts.
Import NotificationStore Statements Samples.

(** The sample run, evaluated: one flush timer, due 5 s after the last
    update; when it fires, one notification. *)
Example three_ready_one_batch :
  let w1 := run sample_suffix three_ready (new_world 0) in
  batchedUpdates (state w1)
  = [ {| batch_type := BReady; trackIndexes := [0; 1; 2]; batch_timestamp := 1900 |} ]
  /\ notifications (state w1) = []
  /\ batchTimer (state w1) = Some 3%nat
  /\ map_to_list (timers w1)
     = [ (3%nat, {| fires_at := 6900; callback := CbProcessBatchedUpdates |}) ]
  /\ map message (notifications (state (step sample_suffix w1 (EvTimer 3))))
     = [ "Tracks 1, 2, 3 ready to play" ]
  /\ batchedUpdates (state (step sample_suffix w1 (EvTimer 3))) = [].
Proof. vm_compute. repeat split. Qed.

Section Batching.
Variable random_suffix : nat -> string.

Lemma not_focused (w : World) (trackIndex : Z) :
  activeTrackIndex (state w) <> Some trackIndex ->
  match activeTrackIndex (state w) with
  | Some a => Z.eqb a trackIndex
  | None => false
  end = false.
Proof.
  intros H. destruct (activeTrackIndex (state w)) as [a|]; [|reflexivity].
  apply Z.eqb_neq. congruence.
Qed.

(** A [ready] update for an unfocused track goes to the accumulator and
    restarts the quiet period from the clock of the update. *)
Lemma ready_update_accumulates (w : World) (t trackIndex : Z) (idxs : list Z) :
  one_flush_timer w -> accumulated idxs w ->
  activeTrackIndex (state w) <> Some trackIndex ->
  let w' := step random_suffix w (EvTrackUpdate t trackIndex UReady) in
  one_flush_timer w'
  /\ accumulated (idxs ++ [trackIndex]) w'
  /\ notifications (state w') = notifications (state w)
  /\ batchedUpdates (state w')
     = [ {| batch_type := BReady; trackIndexes := idxs ++ [trackIndex];
            batch_timestamp := Z.max (now w) t |} ]
  /\ timers w' !! next_timer w
     = Some {| fires_at := Z.max (now w) t + 5000;
               callback := CbProcessBatchedUpdates |}
  /\ batchTimer (state w') = Some (next_timer w).
Proof.
  intros Hone Hacc Hunf.
  unfold step, handleTrackUpdate. cbv zeta.
  change (activeTrackIndex (state (advance t w))) with (activeTrackIndex (state w)).
  rewrite (not_focused w trackIndex Hunf).
  unfold addToBatch. cbv zeta.
  change (batchedUpdates (state (advance t w))) with (batchedUpdates (state w)).
  change (batchTimer (state (advance t w))) with (batchTimer (state w)).
  destruct idxs as [|i0 idxs'].
  - (* first addition since the flush *)
    simpl in Hacc. rewrite Hacc. simpl find.
    destruct (batchTimer (state w)) as [old|] eqn:Eold; simpl.
    + split; [|split].
      * intros h tm Hh Hcb. simpl in *.
        destruct (decide (h = next_timer w)) as [->|Hne]; [reflexivity|].
        rewrite lookup_insert_ne in Hh by congruence.
        destruct (decide (h = old)) as [->|Hne'].
        -- rewrite lookup_delete_eq in Hh. discriminate.
        -- rewrite lookup_delete_ne in Hh by congruence.
           pose proof (Hone h tm Hh Hcb). congruence.
      * exists (Z.max (now w) t), (next_timer w). simpl.
        rewrite lookup_insert_eq. repeat split. lia.
      * rewrite lookup_insert_eq. repeat split.
    + split; [|split].
      * intros h tm Hh Hcb. simpl in *.
        destruct (decide (h = next_timer w)) as [->|Hne]; [reflexivity|].
        rewrite lookup_insert_ne in Hh by congruence.
        pose proof (Hone h tm Hh Hcb). congruence.
      * exists (Z.max (now w) t), (next_timer w). simpl.
        rewrite lookup_insert_eq. repeat split. lia.
      * rewrite lookup_insert_eq. repeat split.
  - (* the batch exists *)
    simpl in Hacc. destruct Hacc as (ts & old & Hb & Ht & Hold & Hts).
    rewrite Hb, Ht. simpl.
    split; [|split].
    + intros h tm Hh Hcb. simpl in *.
      destruct (decide (h = next_timer w)) as [->|Hne]; [reflexivity|].
      rewrite lookup_insert_ne in Hh by congruence.
      destruct (decide (h = old)) as [->|Hne'].
      * rewrite lookup_delete_eq in Hh. discriminate.
      * rewrite lookup_delete_ne in Hh by congruence.
        pose proof (Hone h tm Hh Hcb). congruence.
    + exists (Z.max (now w) t), (next_timer w).
      rewrite lookup_insert_eq. repeat split. lia.
    + rewrite lookup_insert_eq. repeat split.
Qed.

(** A timer other than the batch timer removes a notification at most:
    the accumulator and its timer stay. *)
Lemma other_timer_keeps_accumulator (w : World) (h : nat) (idxs : list Z) :
  one_flush_timer w -> accumulated idxs w ->
  batchTimer (state w) <> Some h ->
  let w' := step random_suffix w (EvTimer h) in
  one_flush_timer w'
  /\ accumulated idxs w'
  /\ incl (notifications (state w')) (notifications (state w)).
Proof.
  intros Hone Hacc Hother.
  unfold step.
  destruct (timers w !! h) as [tm|] eqn:Eh; cbv zeta.
  2:{ split; [exact Hone|]. split; [exact Hacc|]. apply incl_refl. }
  destruct (callback tm) as [nid|] eqn:Ecb.
  2:{ exfalso. apply Hother. apply (Hone h tm Eh Ecb). }
  simpl. split; [|split].
  - intros h' tm' Hh' Hcb'. simpl in *.
    destruct (decide (h' = h)) as [->|Hne].
    + rewrite lookup_delete_eq in Hh'. discriminate.
    + rewrite lookup_delete_ne in Hh' by congruence.
      apply (Hone h' tm' Hh' Hcb').
  - destruct idxs as [|i0 idxs']; simpl in *; [exact Hacc|].
    destruct Hacc as (ts & hb & Hb & Ht & Htm & Hts).
    exists ts, hb. split; [exact Hb|]. split; [exact Ht|]. split.
    + rewrite lookup_delete_ne by congruence. exact Htm.
    + lia.
  - apply incl_filter.
Qed.

Lemma quiet_run_accumulates (evs : list Event) :
  forall (w : World) (idxs : list Z),
  one_flush_timer w -> accumulated idxs w -> quiet_run random_suffix w evs ->
  one_flush_timer (run random_suffix evs w)
  /\ accumulated (idxs ++ updated_tracks evs) (run random_suffix evs w)
  /\ incl (notifications (state (run random_suffix evs w))) (notifications (state w)).
Proof.
  induction evs as [|ev evs IH]; intros w idxs Hone Hacc Hq.
  - simpl. rewrite app_nil_r. split; [exact Hone|]. split; [exact Hacc|].
    apply incl_refl.
  - destruct Hq as [Hev Hrest].
    destruct ev as [t trackIndex ty | h | i |]; simpl in Hev; [| | |contradiction].
    + destruct Hev as [-> Hunf].
      destruct (ready_update_accumulates w t trackIndex idxs Hone Hacc Hunf)
        as (Hone' & Hacc' & Hn' & _).
      destruct (IH _ _ Hone' Hacc' Hrest) as (Hone'' & Hacc'' & Hn'').
      split; [exact Hone''|]. split.
      * simpl updated_tracks.
        replace (idxs ++ trackIndex :: updated_tracks evs)%list
          with ((idxs ++ [trackIndex]) ++ updated_tracks evs)%list
          by (rewrite <- app_assoc; reflexivity).
        exact Hacc''.
      *  rewrite <- Hn'. exact Hn''.
    + destruct (other_timer_keeps_accumulator w h idxs Hone Hacc Hev)
        as (Hone' & Hacc' & Hn').
      destruct (IH _ _ Hone' Hacc' Hrest) as (Hone'' & Hacc'' & Hn'').
      split; [exact Hone''|]. split; [exact Hacc''|].
      eapply incl_tran; [exact Hn'' | exact Hn'].
    + assert (Hone' : one_flush_timer (step random_suffix w (EvSetActiveTrack i))).
      { intros h tm Hh Hcb. apply (Hone h tm Hh Hcb). }
      assert (Hacc' : accumulated idxs (step random_suffix w (EvSetActiveTrack i))).
      { destruct idxs; exact Hacc. }
      destruct (IH _ _ Hone' Hacc' Hrest) as (Hone'' & Hacc'' & Hn'').
      split; [exact Hone''|]. split; [exact Hacc'' | exact Hn''].
Qed.

Lemma quiet_run_app (pre post : list Event) (w : World) :
  quiet_run random_suffix w (pre ++ post) ->
  quiet_run random_suffix w pre /\ quiet_run random_suffix (run random_suffix pre w) post.
Proof.
  revert w. induction pre as [|ev pre IH]; intros w H; simpl in *.
  - split; [exact I | exact H].
  - destruct H as [Hev Hrest]. destruct (IH _ Hrest) as [Hpre Hpost].
    repeat split; assumption.
Qed.

(** The batch timer fires: one notification for the whole batch, and the
    accumulator is empty again. *)
Lemma flush_makes_one_notification (w : World) (idxs : list Z) (ts : Z) (h : nat) :
  idxs <> [] ->
  one_flush_timer w ->
  batchedUpdates (state w)
  = [ {| batch_type := BReady; trackIndexes := idxs; batch_timestamp := ts |} ] ->
  batchTimer (state w) = Some h ->
  timers w !! h
  = Some {| fires_at := ts + 5000; callback := CbProcessBatchedUpdates |} ->
  let w' := step random_suffix w (EvTimer h) in
  exists n,
    notifications (state w') = (notifications (state w) ++ [n])%list
    /\ type n = NBatch
    /\ message n
       = d_message (createBatchNotification
                      {| batch_type := BReady; trackIndexes := idxs;
                         batch_timestamp := ts |})
    /\ batchedUpdates (state w') = []
    /\ batchTimer (state w') = None
    /\ forall h' tm, timers w' !! h' = Some tm ->
         callback tm <> CbProcessBatchedUpdates.
Proof.
  intros Hne Hone Hb Ht Hh.
  unfold step. rewrite Hh. cbv zeta.
  unfold run_callback, callback, processBatchedUpdates. cbv zeta.
  change (batchedUpdates (state (clearTimeout h
            (advance (fires_at {| fires_at := ts + 5000;
                                  callback := CbProcessBatchedUpdates |}) w))))
    with (batchedUpdates (state w)).
  rewrite Hb. simpl fold_left.
  destruct idxs as [|i0 idxs']; [contradiction|]. simpl.
  eexists. split; [reflexivity|]. repeat split.
  intros h' tm Hh' Hcb.
  destruct (decide (h' = next_timer w)) as [->|Hnext].
  - rewrite lookup_insert_eq in Hh'. injection Hh' as <-. discriminate.
  - rewrite lookup_insert_ne in Hh' by congruence.
    destruct (decide (h' = h)) as [->|Hneh].
    + rewrite lookup_delete_eq in Hh'. discriminate.
    + rewrite lookup_delete_ne in Hh' by congruence.
      pose proof (Hone h' tm Hh' Hcb). congruence.
Qed.

(** [one_flush_timer] holds from the start and through every event. *)
Lemma addNotification_one_flush_timer (d : Draft) (w : World) :
  one_flush_timer w -> one_flush_timer (addNotification random_suffix d w).
Proof.
  intros Hone h tm Hh Hcb. unfold addNotification in *. simpl in *.
  destruct (decide (h = next_timer w)) as [->|Hne].
  - rewrite lookup_insert_eq in Hh. injection Hh as <-. discriminate.
  - rewrite lookup_insert_ne in Hh by congruence. apply (Hone h tm Hh Hcb).
Qed.

Lemma addNotification_no_flush_timer (d : Draft) (w : World) :
  no_flush_timer w -> no_flush_timer (addNotification random_suffix d w).
Proof.
  intros Hno h tm Hh. unfold addNotification in *. simpl in *.
  destruct (decide (h = next_timer w)) as [->|Hne].
  - rewrite lookup_insert_eq in Hh. injection Hh as <-. discriminate.
  - rewrite lookup_insert_ne in Hh by congruence. apply (Hno h tm Hh).
Qed.

Lemma addToBatch_one_flush_timer (trackIndex : Z) (ty : BatchKind) (w : World) :
  one_flush_timer w -> one_flush_timer (addToBatch trackIndex ty w).
Proof.
  intros Hone h tm Hh Hcb. unfold addToBatch in *. cbv zeta in *.
  destruct (decide (h = next_timer w)) as [->|Hne].
  - destruct (find _ _), (batchTimer (state w)); reflexivity.
  - exfalso.
    destruct (batchTimer (state w)) as [old|] eqn:Eold.
    + assert (Hh' : delete old (timers w) !! h = Some tm).
      { destruct (find _ _); simpl in Hh;
          rewrite lookup_insert_ne in Hh by congruence; exact Hh. }
      destruct (decide (h = old)) as [->|Hne'].
      * rewrite lookup_delete_eq in Hh'. discriminate.
      * rewrite lookup_delete_ne in Hh' by congruence.
        pose proof (Hone h tm Hh' Hcb). congruence.
    + assert (Hh' : timers w !! h = Some tm).
      { destruct (find _ _); simpl in Hh;
          rewrite lookup_insert_ne in Hh by congruence; exact Hh. }
      pose proof (Hone h tm Hh' Hcb). congruence.
Qed.

Lemma cleared_batch_timer_no_flush_timer (w : World) :
  one_flush_timer w ->
  no_flush_timer match batchTimer (state w) with
                 | Some h => clearTimeout h w
                 | None => w
                 end.
Proof.
  intros Hone h tm Hh Hcb.
  destruct (batchTimer (state w)) as [old|] eqn:Eold; simpl in Hh.
  - destruct (decide (h = old)) as [->|Hne].
    + rewrite lookup_delete_eq in Hh. discriminate.
    + rewrite lookup_delete_ne in Hh by congruence.
      pose proof (Hone h tm Hh Hcb). congruence.
  - pose proof (Hone h tm Hh Hcb). congruence.
Qed.

Lemma processBatchedUpdates_no_flush_timer (w : World) :
  no_flush_timer w -> no_flush_timer (processBatchedUpdates random_suffix w).
Proof.
  unfold processBatchedUpdates. cbv zeta.
  generalize (batchedUpdates (state w)). intros l. revert w.
  induction l as [|b l IH]; intros w Hno; simpl fold_left.
  - exact Hno.
  - apply IH. destruct (Nat.ltb 0 (length (trackIndexes b)));
      [apply addNotification_no_flush_timer|]; exact Hno.
Qed.

Lemma step_one_flush_timer (w : World) (ev : Event) :
  one_flush_timer w -> one_flush_timer (step random_suffix w ev).
Proof.
  intros Hone. destruct ev as [t trackIndex ty | h | i |];
    unfold step.
  - assert (Hadv : one_flush_timer (advance t w)) by exact Hone.
    unfold handleTrackUpdate.
    destruct (match activeTrackIndex (state (advance t w)) with
              | Some a => Z.eqb a trackIndex
              | None => false
              end);
      [apply addNotification_one_flush_timer, Hadv|].
    destruct ty.
    + exact Hadv.
    + apply addToBatch_one_flush_timer, Hadv.
    + apply addNotification_one_flush_timer, Hadv.
  - destruct (timers w !! h) as [tm|] eqn:Eh; [|exact Hone].
    destruct (callback tm) as [nid|] eqn:Ecb; simpl.
    + intros h' tm' Hh' Hcb'. simpl in *.
      destruct (decide (h' = h)) as [->|Hne].
      * rewrite lookup_delete_eq in Hh'. discriminate.
      * rewrite lookup_delete_ne in Hh' by congruence.
        apply (Hone h' tm' Hh' Hcb').
    + intros h' tm' Hh' Hcb'. exfalso.
      revert Hh' Hcb'. apply processBatchedUpdates_no_flush_timer.
      intros h'' tm'' Hh'' Hcb''. simpl in Hh''.
      destruct (decide (h'' = h)) as [->|Hne].
      * rewrite lookup_delete_eq in Hh''. discriminate.
      * rewrite lookup_delete_ne in Hh'' by congruence.
        pose proof (Hone h'' tm'' Hh'' Hcb'') as H1.
        pose proof (Hone h tm Eh Ecb) as H2. congruence.
  - exact Hone.
  - intros h tm Hh Hcb. exfalso.
    exact (cleared_batch_timer_no_flush_timer w Hone h tm Hh Hcb).
Qed.

Lemma run_one_flush_timer (evs : list Event) (t : Z) :
  one_flush_timer (run random_suffix evs (new_world t)).
Proof.
  assert (H : forall w, one_flush_timer w -> one_flush_timer (run random_suffix evs w)).
  { induction evs as [|ev evs IH]; intros w Hw; [exact Hw|].
    apply IH, step_one_flush_timer, Hw. }
  apply H. intros h tm Hh. discriminate.
Qed.

Lemma batch_message (idxs : list Z) (ts : Z) :
  let m := d_message (createBatchNotification
                        {| batch_type := BReady; trackIndexes := idxs;
                           batch_timestamp := ts |}) in
  ((length idxs <= 3)%nat -> m = "Tracks " ++ track_numbers idxs ++ " ready to play")
  /\ ((3 < length idxs)%nat
      -> m = show (Z.of_nat (length idxs)) ++ " more tracks completed").
Proof.
  unfold createBatchNotification, track_numbers. simpl.
  destruct (Z.ltb_spec 3 (Z.of_nat (length idxs))); split; intros; try lia;
    reflexivity.
Qed.


End Batching.



End NotificationStoreFacts.

(** ** The item store: the other operations and queries *)

Module AdDataStoreQueries.
Import AdDataStore Samples AdDataStoreFacts.

Lemma nullifyAd_fields ad :
  (musicAudioSrc ad = Some "pending" -> musicAudioSrc (nullifyAd ad) = None)
  /\ (musicAudioSrc ad <> Some "pending"
      -> musicAudioSrc (nullifyAd ad) = musicAudioSrc ad)
  /\ (nonMusicAudioSrc ad = Some "pending" -> nonMusicAudioSrc (nullifyAd ad) = None)
  /\ (nonMusicAudioSrc ad <> Some "pending"
      -> nonMusicAudioSrc (nullifyAd ad) = nonMusicAudioSrc ad)
  /\ (transcriptSents ad = PPending -> transcriptSents (nullifyAd ad) = PNull)
  /\ (transcriptSents ad <> PPending
      -> transcriptSents (nullifyAd ad) = transcriptSents ad)
  /\ (insights ad = PPending -> insights (nullifyAd ad) = PNull)
  /\ (insights ad <> PPending -> insights (nullifyAd ad) = insights ad).
Proof. unfold nullifyAd; simpl. case_tests; repeat split; congruence. Qed.

(** [nullifyAllPendingRequests] keeps the collection's shape and, item by
    item, turns each of the four progressive fields that is ["pending"]
    into [null], leaves any other value, sets [status] to done and keeps
    the remaining fields. *)
Theorem nullifyAllPendingRequests_nullifies_pending
    (st : AdDataState) (k : nat) (ad : AdData) :
  ads st !! k = Some ad ->
  length (ads (nullifyAllPendingRequests st)) = length (ads st)
  /\ activeIndex (nullifyAllPendingRequests st) = activeIndex st
  /\ exists ad',
       ads (nullifyAllPendingRequests st) !! k = Some ad'
       /\ status ad' = StDone
       /\ (musicAudioSrc ad = Some "pending" -> musicAudioSrc ad' = None)
       /\ (musicAudioSrc ad <> Some "pending" -> musicAudioSrc ad' = musicAudioSrc ad)
       /\ (nonMusicAudioSrc ad = Some "pending" -> nonMusicAudioSrc ad' = None)
       /\ (nonMusicAudioSrc ad <> Some "pending"
           -> nonMusicAudioSrc ad' = nonMusicAudioSrc ad)
       /\ (transcriptSents ad = PPending -> transcriptSents ad' = PNull)
       /\ (transcriptSents ad <> PPending -> transcriptSents ad' = transcriptSents ad)
       /\ (insights ad = PPending -> insights ad' = PNull)
       /\ (insights ad <> PPending -> insights ad' = insights ad)
       /\ index ad' = index ad
       /\ englishTranscriptSents ad' = englishTranscriptSents ad
       /\ location ad' = location ad
       /\ theme ad' = theme ad.
Proof.
  intros Hk. unfold nullifyAllPendingRequests; simpl.
  split; [apply length_map|]. split; [reflexivity|].
  exists (nullifyAd ad). rewrite list_lookup_fmap, Hk. simpl.
  pose proof (nullifyAd_fields ad) as (? & ? & ? & ? & ? & ? & ? & ?).
  assert (status (nullifyAd ad) = StDone) by (simpl; destruct (status ad); reflexivity).
  repeat split; auto.
Qed.

Lemma nullifyAllPendingRequests_nullifies_pending_witness :
  exists ad',
    ads (nullifyAllPendingRequests example_store) !! 2%nat = Some ad'
    /\ status ad' = StDone
    /\ musicAudioSrc ad' = None
    /\ nonMusicAudioSrc ad' = Some "blob:c"
    /\ insights ad' = PNull.
Proof.
  destruct (nullifyAllPendingRequests_nullifies_pending example_store 2
              (example_ad 2 (Some "pending") (Some "blob:c")) eq_refl)
    as (_ & _ & ad' & Hk & Hs & Hm & _ & _ & Hn & _ & _ & Hi & _).
  exists ad'. split; [exact Hk|]. split; [exact Hs|].
  split; [apply Hm; reflexivity|].
  split; [apply Hn; discriminate|].
  apply Hi; reflexivity.
Defined.

(** What one bulk operation leaves, the other does not touch. *)
Lemma nullifyAd_failAd ad : nullifyAd (failAd ad) = failAd ad.
Proof.
  destruct ad as [i m n t e ins l s th]. unfold nullifyAd, failAd; simpl.
  f_equal.
  - destruct m as [x|]; simpl; [destruct (String.eqb x "pending") eqn:E|]; simpl;
      try rewrite E; reflexivity.
  - destruct n as [x|]; simpl; [destruct (String.eqb x "pending") eqn:E|]; simpl;
      try rewrite E; reflexivity.
  - destruct t; reflexivity.
  - destruct ins; reflexivity.
  - destruct s; reflexivity.
Qed.

Lemma failAd_nullifyAd ad : failAd (nullifyAd ad) = nullifyAd ad.
Proof.
  destruct ad as [i m n t e ins l s th]. unfold nullifyAd, failAd; simpl.
  f_equal.
  - destruct m as [x|]; simpl; [destruct (String.eqb x "pending") eqn:E|]; simpl;
      try rewrite E; reflexivity.
  - destruct n as [x|]; simpl; [destruct (String.eqb x "pending") eqn:E|]; simpl;
      try rewrite E; reflexivity.
  - destruct t; reflexivity.
  - destruct ins; reflexivity.
  - destruct s; reflexivity.
Qed.

(** Of the two bulk terminal operations the first one applied decides: the
    other one, applied afterwards, changes nothing. *)
Theorem first_bulk_operation_wins (st : AdDataState) :
  nullifyAllPendingRequests (failAllPendingRequests st) = failAllPendingRequests st
  /\ failAllPendingRequests (nullifyAllPendingRequests st)
     = nullifyAllPendingRequests st.
Proof.
  unfold failAllPendingRequests, nullifyAllPendingRequests, setAds; simpl.
  split; f_equal; rewrite map_map; apply map_ext; intros ad.
  - apply nullifyAd_failAd.
  - apply failAd_nullifyAd.
Qed.

Lemma find_ad_map (f : AdData -> AdData) (i : Z) (l : list AdData) :
  (forall ad, index (f ad) = index ad) ->
  find_ad i (map f l) = f <$> find_ad i l.
Proof.
  intros Hf. unfold find_ad. induction l as [|a l IH]; simpl; [reflexivity|].
  rewrite Hf. destruct (Z.eqb (index a) i); [reflexivity | exact IH].
Qed.

Lemma failAd_settled ad :
  musicAudioSrc (failAd ad) <> Some "pending"
  /\ nonMusicAudioSrc (failAd ad) <> Some "pending"
  /\ transcriptSents (failAd ad) <> PPending
  /\ insights (failAd ad) <> PPending
  /\ status (failAd ad) = StDone.
Proof.
  unfold failAd; simpl. case_tests; destruct (status ad); simpl;
    repeat split; congruence.
Qed.

Lemma nullifyAd_settled ad :
  musicAudioSrc (nullifyAd ad) <> Some "pending"
  /\ nonMusicAudioSrc (nullifyAd ad) <> Some "pending"
  /\ transcriptSents (nullifyAd ad) <> PPending
  /\ insights (nullifyAd ad) <> PPending
  /\ status (nullifyAd ad) = StDone.
Proof.
  unfold nullifyAd; simpl. case_tests; destruct (status ad); simpl;
    repeat split; congruence.
Qed.

Lemma not_loading_when_settled (i : Z) (st : AdDataState) :
  (forall ad, In ad (ads st) ->
     musicAudioSrc ad <> Some "pending" /\ nonMusicAudioSrc ad <> Some "pending") ->
  getAdLoadingState i st = false.
Proof.
  intros Hall. unfold getAdLoadingState.
  destruct (find_ad i (ads st)) as [ad|] eqn:E; [|reflexivity].
  apply find_ad_Some in E as [Hin _]. destruct (Hall ad Hin) as [Hm Hn].
  apply is_str_false in Hm, Hn. cbv zeta. rewrite Hm, Hn.
  destruct (is_null (musicAudioSrc ad)), (is_null (nonMusicAudioSrc ad)); reflexivity.
Qed.

(** After either bulk terminal operation nothing in the store is pending:
    no progressive field of any item, no status, and no index is reported
    as loading. *)
Theorem bulk_operations_settle_everything (st : AdDataState) (ad : AdData) :
  In ad (ads (failAllPendingRequests st))
  \/ In ad (ads (nullifyAllPendingRequests st)) ->
  (musicAudioSrc ad <> Some "pending"
   /\ nonMusicAudioSrc ad <> Some "pending"
   /\ transcriptSents ad <> PPending
   /\ insights ad <> PPending
   /\ status ad = StDone)
  /\ (forall i, getAdLoadingState i (failAllPendingRequests st) = false)
  /\ (forall i, getAdLoadingState i (nullifyAllPendingRequests st) = false).
Proof.
  intros Hin. split; [|split].
  - destruct Hin as [Hin | Hin]; simpl in Hin; apply in_map_iff in Hin;
      destruct Hin as (ad0 & <- & _);
      [apply failAd_settled | apply nullifyAd_settled].
  - intros i. apply not_loading_when_settled. simpl. intros a Ha.
    apply in_map_iff in Ha as (ad0 & <- & _).
    pose proof (failAd_settled ad0) as (? & ? & _). split; assumption.
  - intros i. apply not_loading_when_settled. simpl. intros a Ha.
    apply in_map_iff in Ha as (ad0 & <- & _).
    pose proof (nullifyAd_settled ad0) as (? & ? & _). split; assumption.
Qed.

Lemma bulk_operations_settle_everything_witness :
  getAdLoadingState 1 example_store = true
  /\ getAdLoadingState 1 (failAllPendingRequests example_store) = false
  /\ status (failAd (example_ad 1 None (Some "pending"))) = StDone.
Proof.
  destruct (bulk_operations_settle_everything example_store
              (failAd (example_ad 1 None (Some "pending"))))
    as ((_ & _ & _ & _ & Hs) & Hf & _).
  - left. simpl. right. left. reflexivity.
  - split; [reflexivity|]. split; [apply Hf | exact Hs].
Defined.

(** Case analysis on a [string | null] field against the three strings
    the queries compare it with *)
Ltac case_src x :=
  destruct x as [?s|]; simpl;
  [ destruct (String.eqb_spec s "pending");
    destruct (String.eqb_spec s "error");
    destruct (String.eqb_spec s ""); subst; simpl; try congruence
  | ].

(** The three derived queries never contradict each other: an index is
    never reported both as loading and as in error, and an index reported
    as loading or as in error has no playable audio. *)
Theorem derived_queries_exclusive (i : Z) (st : AdDataState) :
  getAdLoadingState i st && getAdErrorState i st = false
  /\ getAdLoadingState i st && hasAdWithAudio i st = false
  /\ getAdErrorState i st && hasAdWithAudio i st = false.
Proof.
  unfold getAdLoadingState, getAdErrorState, hasAdWithAudio.
  destruct (find_ad i (ads st)) as [ad|]; [|repeat split].
  cbv zeta. unfold is_str, is_null, is_available.
  case_src (musicAudioSrc ad); case_src (nonMusicAudioSrc ad); repeat split.
Qed.

(** [hasAdWithAudio] is the [hasAnyAudio] of [getAvailableAudioSources], which
    is the disjunction of its two flags; a variant counts as available
    exactly when the item found at the index holds a string for it that is
    neither empty nor one of the two sentinels. *)
Theorem available_audio_sources (i : Z) (st : AdDataState) :
  let r := getAvailableAudioSources i st in
  hasAdWithAudio i st = hasAnyAudio r
  /\ hasAnyAudio r = musicAvailable r || nonMusicAvailable r
  /\ (musicAvailable r = true <->
        exists ad url, find_ad i (ads st) = Some ad
          /\ musicAudioSrc ad = Some url
          /\ url <> "" /\ url <> "pending" /\ url <> "error")
  /\ (nonMusicAvailable r = true <->
        exists ad url, find_ad i (ads st) = Some ad
          /\ nonMusicAudioSrc ad = Some url
          /\ url <> "" /\ url <> "pending" /\ url <> "error").
Proof.
  assert (Hav : forall x, is_available x = true <->
            exists url, x = Some url /\ url <> "" /\ url <> "pending" /\ url <> "error").
  { intros [s|]; simpl.
    - rewrite !andb_true_iff, !negb_true_iff, !String.eqb_neq. split.
      + intros [[? ?] ?]. exists s. repeat split; assumption.
      + intros (url & [= <-] & ? & ? & ?). repeat split; assumption.
    - split; [discriminate | intros (? & ? & _); discriminate]. }
  cbv zeta. unfold hasAdWithAudio, getAvailableAudioSources.
  destruct (find_ad i (ads st)) as [ad|]; simpl.
  - split; [reflexivity|]. split; [reflexivity|]. split.
    + rewrite Hav. split.
      * intros (url & ? & ?). exists ad, url. split; [reflexivity | split; assumption].
      * intros (ad' & url & [= <-] & ? & ?). exists url. split; assumption.
    + rewrite Hav. split.
      * intros (url & ? & ?). exists ad, url. split; [reflexivity | split; assumption].
      * intros (ad' & url & [= <-] & ? & ?). exists url. split; assumption.
  - split; [reflexivity|]. split; [reflexivity|].
    split; (split; [discriminate | intros (? & ? & ? & _); discriminate]).
Qed.

(** [getActiveAd] answers with an item only for an active index within
    [0, ads.length): the item is the one found at that index.  An active
    index that is negative or not below the number of items gives [null],
    also when an item carries that index. *)
Theorem getActiveAd_within_bounds (st : AdDataState) (a : Z) :
  activeIndex st = Some a ->
  (forall ad, getActiveAd st = Some ad ->
     0 <= a < Z.of_nat (length (ads st))
     /\ find_ad a (ads st) = Some ad /\ index ad = a /\ In ad (ads st))
  /\ (a < 0 \/ Z.of_nat (length (ads st)) <= a -> getActiveAd st = None)
  /\ (0 <= a < Z.of_nat (length (ads st)) -> getActiveAd st = find_ad a (ads st)).
Proof.
  intros Ha. unfold getActiveAd. rewrite Ha.
  destruct (Z.ltb_spec a 0) as [Hneg|Hnn]; simpl.
  - split; [discriminate|]. split; [reflexivity | lia].
  - destruct (Z.leb_spec (Z.of_nat (length (ads st))) a) as [Hbig|Hin].
    + split; [discriminate|]. split; [reflexivity | lia].
    + split; [|split; [lia | reflexivity]].
      intros ad Hfind. destruct (find_ad_Some _ _ _ Hfind) as [Hmem Hidx].
      repeat split; try assumption; lia.
Qed.

Lemma getActiveAd_within_bounds_witness :
  getActiveAd (setActiveIndex 2 example_store)
  = Some (example_ad 2 (Some "pending") (Some "blob:c"))
  /\ getActiveAd {| ads := [example_ad 5 None None]; activeIndex := Some 5 |} = None.
Proof.
  split.
  - destruct (getActiveAd_within_bounds (setActiveIndex 2 example_store) 2 eq_refl)
      as (_ & _ & H). rewrite H; [reflexivity | simpl; lia].
  - destruct (getActiveAd_within_bounds
                {| ads := [example_ad 5 None None]; activeIndex := Some 5 |} 5 eq_refl)
      as (_ & H & _). apply H. right. simpl. lia.
Defined.

Lemma updateAd_indexes (patch : AdData) (l : list AdData) :
  map index (map (fun ad => if Z.eqb (index ad) (index patch) then patch else ad) l)
  = map index l.
Proof.
  induction l as [|a l IH]; simpl; [reflexivity|]. f_equal; [|exact IH].
  destruct (Z.eqb_spec (index a) (index patch)); congruence.
Qed.

(** [updateAd] replaces whole items and nothing else: the sequence of
    indexes (so the number and order of items) and the active index stay,
    every item of the result is the patch or an untouched item with another
    index, a second application changes nothing, and when the patch's index
    exists the store then answers the patch at that index. *)
Theorem updateAd_replaces_in_place (patch : AdData) (st : AdDataState) :
  map index (ads (updateAd patch st)) = map index (ads st)
  /\ activeIndex (updateAd patch st) = activeIndex st
  /\ (forall ad, In ad (ads (updateAd patch st)) ->
        ad = patch \/ (In ad (ads st) /\ index ad <> index patch))
  /\ updateAd patch (updateAd patch st) = updateAd patch st
  /\ (is_Some (find_ad (index patch) (ads st)) ->
      find_ad (index patch) (ads (updateAd patch st)) = Some patch).
Proof.
  unfold updateAd, setAds; simpl.
  split; [apply updateAd_indexes|]. split; [reflexivity|]. split; [|split].
  - intros ad Hin. apply in_map_iff in Hin as (ad0 & Heq & Hin0).
    destruct (Z.eqb_spec (index ad0) (index patch)); subst; auto.
  - f_equal. rewrite map_map. apply map_ext. intros ad.
    destruct (Z.eqb_spec (index ad) (index patch)) as [He|Hne].
    + rewrite Z.eqb_refl. reflexivity.
    + apply Z.eqb_neq in Hne. rewrite Hne. reflexivity.
  - intros [ad Hfind]. unfold find_ad in *.
    induction (ads st) as [|a l IH]; simpl in *; [discriminate|].
    destruct (Z.eqb_spec (index a) (index patch)) as [He|Hne]; simpl.
    + rewrite Z.eqb_refl. reflexivity.
    + apply Z.eqb_neq in Hne. rewrite Hne. apply IH. exact Hfind.
Qed.

Lemma updateAd_replaces_in_place_witness :
  find_ad 1 (ads (updateAd (example_ad 1 (Some "blob:m") None) example_store))
  = Some (example_ad 1 (Some "blob:m") None).
Proof.
  destruct (updateAd_replaces_in_place (example_ad 1 (Some "blob:m") None) example_store)
    as (_ & _ & _ & _ & H).
  apply H. eexists. reflexivity.
Defined.

End AdDataStoreQueries.

(** ** Starting a session, and reporting an item's state *)

Module CallerFacts.
Import AdDataStore Samples AdDataStoreFacts SpeechPage ThoughtBubble.

Lemma fresh_indexes (random : nat -> Q) (data : list CountryData) (calls : nat)
    (new : list AdData) :
  length new = length data ->
  (forall k country, data !! k = Some country ->
     new !! k = Some (newAd country (0 + Z.of_nat k) (random (calls + k)%nat))) ->
  map index new = map Z.of_nat (seq 0 (length data)).
Proof.
  intros Hlen Hnew. apply list_eq. intros k.
  change (map index new) with (index <$> new).
  change (map Z.of_nat (seq 0 (length data))) with (Z.of_nat <$> seq 0 (length data)).
  rewrite !list_lookup_fmap.
  destruct (data !! k) as [country|] eqn:Ek.
  - rewrite (Hnew k country Ek). apply lookup_lt_Some in Ek.
    rewrite lookup_seq_lt by exact Ek. reflexivity.
  - apply lookup_ge_None in Ek.
    rewrite (proj2 (lookup_ge_None new k)) by lia.
    rewrite lookup_seq_ge by exact Ek. reflexivity.
Qed.

Lemma NoDup_positions (n : nat) : NoDup (map Z.of_nat (seq 0 n)).
Proof.
  change (NoDup (Z.of_nat <$> seq 0 n)).
  apply NoDup_fmap_2; [intros a b; apply Nat2Z.inj | apply NoDup_seq].
Qed.

(** Mounting the speech page on the initial store: with ad type custom and
    no recordings nothing is created; otherwise the store holds one item
    per location, with the indexes [0 .. n-1] in order, index 0 is the
    active index, the active item is the first item (none when there is no
    location), and none of the indexes has playable audio.  When the
    socket could be created every one of the indexes is reported as
    loading and none as in error; when creating it threw, every one is
    reported as in error and none as loading. *)
Theorem onMount_creates_one_item_per_location (random : nat -> Q)
    (WebSocket_new : bool) (adType : Adtype)
    (cloneRecordings : list (list byte)) (locations : list CountryData)
    (calls : nat) :
  let w' :=
    onMount random WebSocket_new adType cloneRecordings locations (calls, initial) in
  (adType = Custom /\ cloneRecordings = [] -> w' = (calls, initial))
  /\ (adType = Default \/ cloneRecordings <> [] ->
      map index (ads (snd w')) = map Z.of_nat (seq 0 (length locations))
      /\ activeIndex (snd w') = Some 0
      /\ getActiveAd (snd w') = head (ads (snd w'))
      /\ forall k, (k < length locations)%nat ->
           hasAdWithAudio (Z.of_nat k) (snd w') = false
           /\ getAdLoadingState (Z.of_nat k) (snd w') = WebSocket_new
           /\ getAdErrorState (Z.of_nat k) (snd w') = negb WebSocket_new).
Proof.
  cbv zeta. split.
  - intros [-> ->]. reflexivity.
  - intros Hstart.
    destruct (populateAds_from_appends random locations 0 calls initial)
      as (new & Hrun & Hlen & Hnew).
    assert (Hw : onMount random WebSocket_new adType cloneRecordings locations
                   (calls, initial)
                 = ((calls + length locations)%nat,
                    WsService.store
                      (WsService.generateAds WebSocket_new
                         (setActiveIndex 0 (setAds new initial))))).
    { unfold onMount, populateAds.
      destruct adType; [|rewrite Hrun; reflexivity].
      destruct cloneRecordings as [|r rs]; [destruct Hstart; congruence|].
      simpl Nat.ltb. cbv iota. rewrite Hrun. reflexivity. }
    rewrite Hw. simpl snd.
    pose proof (fresh_indexes random locations calls new Hlen Hnew) as Hidx.
    assert (Hfind : forall k, (k < length locations)%nat ->
              exists country,
                find_ad (Z.of_nat k) new
                = Some (newAd country (0 + Z.of_nat k) (random (calls + k)%nat))).
    { intros k Hk.
      destruct (lookup_lt_is_Some_2 locations k Hk) as [country Hc].
      pose proof (Hnew k country Hc) as Hitem. exists country.
      replace (Z.of_nat k)
        with (index (newAd country (0 + Z.of_nat k) (random (calls + k)%nat)))
        at 1 by (simpl; lia).
      apply find_ad_unique.
      - rewrite Hidx. apply NoDup_positions.
      - apply list_elem_of_In. eapply list_elem_of_lookup_2. exact Hitem. }
    assert (Hfirst : forall f : AdData -> AdData,
              (forall ad, index (f ad) = index ad) ->
              getActiveAd {| ads := map f new; activeIndex := Some 0 |}
              = head (map f new)).
    { intros f Hf. unfold getActiveAd. simpl.
      destruct new as [|a new'] eqn:En; [reflexivity|].
      destruct locations as [|c cs]; [discriminate|].
      specialize (Hnew 0%nat c eq_refl). simpl in Hnew. injection Hnew as ->.
      simpl. unfold find_ad. simpl. rewrite Hf. reflexivity. }
    destruct WebSocket_new; simpl.
    + split; [exact Hidx|]. split; [reflexivity|]. split.
      * rewrite <- (map_id new) at 1 2. apply (Hfirst (fun ad => ad)). reflexivity.
      * intros k Hk. destruct (Hfind k Hk) as [country Hf].
        unfold hasAdWithAudio, getAdLoadingState, getAdErrorState. simpl ads.
        rewrite Hf. repeat split; reflexivity.
    + split; [rewrite map_map; exact Hidx|]. split; [reflexivity|]. split.
      * apply Hfirst. reflexivity.
      * intros k Hk. destruct (Hfind k Hk) as [country Hf].
        unfold hasAdWithAudio, getAdLoadingState, getAdErrorState. simpl ads.
        rewrite (AdDataStoreQueries.find_ad_map failAd); [|reflexivity].
        rewrite Hf. repeat split; reflexivity.
Qed.

Lemma onMount_creates_one_item_per_location_witness :
  map index
    (ads (snd (onMount half true Default [] [nigeria; kenya] (0%nat, initial))))
  = [0; 1]
  /\ getAdLoadingState 1
       (snd (onMount half true Default [] [nigeria; kenya] (0%nat, initial)))
     = true
  /\ getAdErrorState 1
       (snd (onMount half false Default [] [nigeria; kenya] (0%nat, initial)))
     = true.
Proof.
  destruct (onMount_creates_one_item_per_location half true Default []
              [nigeria; kenya] 0) as [_ H].
  destruct (onMount_creates_one_item_per_location half false Default []
              [nigeria; kenya] 0) as [_ H'].
  destruct H as (Hidx & _ & _ & Hload); [left; reflexivity|].
  destruct H' as (_ & _ & _ & Hfail); [left; reflexivity|].
  split; [exact Hidx|]. split.
  - apply (Hload 1%nat). simpl. lia.
  - apply (Hfail 1%nat). simpl. lia.
Defined.

(** *** What a bubble reports *)

Ltac case_variant x :=
  let v := fresh "v" in
  destruct x as [v|]; simpl;
  [ destruct (String.eqb_spec v "pending");
    destruct (String.eqb_spec v "error");
    destruct (String.eqb_spec v ""); subst; simpl; try congruence
  | ].

(** An item with a variant in error is reported as an error whatever the
    other variant is, so ready is reported only when no variant is in error
    and one is playable.  After [failAllPendingRequests] no item is
    reported as loading, and an item that had a variant pending is
    reported as an error even when its other variant is playable. *)
Theorem trackOutcome_error_first (ad : AdData) :
  (musicAudioSrc ad = Some "error" \/ nonMusicAudioSrc ad = Some "error" ->
   trackOutcome ad = Some NotificationStore.UError)
  /\ (trackOutcome ad = Some NotificationStore.UReady ->
      musicAudioSrc ad <> Some "error" /\ nonMusicAudioSrc ad <> Some "error"
      /\ (is_available (musicAudioSrc ad) = true
          \/ is_available (nonMusicAudioSrc ad) = true))
  /\ trackOutcome (failAd ad) <> Some NotificationStore.ULoading
  /\ (musicAudioSrc ad = Some "pending" \/ nonMusicAudioSrc ad = Some "pending" ->
      trackOutcome (failAd ad) = Some NotificationStore.UError).
Proof.
  destruct ad as [i m n t e ins l s th].
  unfold trackOutcome, failAd, is_str, is_available. simpl.
  case_variant m; case_variant n;
    repeat split; try congruence; try tauto;
    try (intros [? | ?]; congruence); try (intros [? | ?]; reflexivity).
  all: repeat match goal with
       | H : ?a <> ?b |- context [String.eqb ?a ?b] =>
           rewrite (proj2 (String.eqb_neq a b) H)
       end; simpl; congruence.
Qed.

Lemma trackOutcome_error_first_witness :
  trackOutcome (failAd (example_ad 2 (Some "pending") (Some "blob:c")))
  = Some NotificationStore.UError
  /\ trackOutcome (example_ad 2 (Some "pending") (Some "blob:c"))
     = Some NotificationStore.UReady.
Proof.
  destruct (trackOutcome_error_first (example_ad 2 (Some "pending") (Some "blob:c")))
    as (_ & _ & _ & H).
  split; [apply H; left; reflexivity | reflexivity].
Defined.

End CallerFacts.

(** ** The notification scheduler: immediate notifications and expiry *)

Module NotificationExpiry.
Import NotificationStore Statements Samples NotificationStoreFacts.

Section Expiry.
Variable random_suffix : nat -> string.

Lemma addNotification_effect (d : Draft) (w : World) :
  addNotification random_suffix d w
  = {| now := now w;
       timers := <[ next_timer w :=
                      removal_timer (made_notification random_suffix d w)
                        (stored_duration (d_duration d)) ]> (timers w);
       next_timer := S (next_timer w);
       random_calls := S (random_calls w);
       state := set_notifications
                  (notifications (state w) ++ [made_notification random_suffix d w])
                  (state w) |}.
Proof. reflexivity. Qed.

Lemma filter_other_ids (nid : string) (l : list Notification) :
  (forall m, In m l -> id m <> nid) ->
  List.filter (fun n => negb (String.eqb (id n) nid)) l = l.
Proof.
  induction l as [|a l IH]; intros H; simpl; [reflexivity|].
  destruct (String.eqb_spec (id a) nid) as [He|Hne]; simpl.
  - exfalso. apply (H a); [left; reflexivity | exact He].
  - f_equal. apply IH. intros m Hm. apply H. right. exact Hm.
Qed.

(** [addNotification] appends one notification stamped with the clock,
    with the draft's duration or 4000 when that is absent or 0, and starts
    its removal timer, due that long after now.  When that timer fires the
    notification is gone and, its id being new, the list is as before. *)
Theorem addNotification_expires (d : Draft) (w : World) :
  let n := made_notification random_suffix d w in
  let w' := addNotification random_suffix d w in
  (forall m, In m (notifications (state w)) -> id m <> id n) ->
  notifications (state w') = (notifications (state w) ++ [n])%list
  /\ timestamp n = now w
  /\ (exists dur, duration n = Some dur /\ dur <> 0
        /\ (d_duration d = None \/ d_duration d = Some 0 -> dur = 4000)
        /\ (forall x, d_duration d = Some x -> x <> 0 -> dur = x)
        /\ timers w' !! next_timer w
           = Some {| fires_at := now w + dur; callback := CbRemoveNotification (id n) |})
  /\ batchedUpdates (state w') = batchedUpdates (state w)
  /\ batchTimer (state w') = batchTimer (state w)
  /\ notifications (state (step random_suffix w' (EvTimer (next_timer w))))
     = notifications (state w).
Proof.
  cbv zeta. intros Hnew. rewrite addNotification_effect.
  split; [reflexivity|]. split; [reflexivity|]. split; [|split; [|split]].
  - exists (stored_duration (d_duration d)). split; [reflexivity|]. split; [|split; [|split]].
    + unfold stored_duration. destruct (d_duration d) as [x|]; [|discriminate].
      destruct (Z.eqb_spec x 0); [discriminate | assumption].
    + intros [-> | ->]; reflexivity.
    + intros x -> Hx. unfold stored_duration.
      apply Z.eqb_neq in Hx. rewrite Hx. reflexivity.
    + simpl. rewrite lookup_insert_eq. reflexivity.
  - reflexivity.
  - reflexivity.
  - unfold step. simpl timers. rewrite lookup_insert_eq. simpl.
    rewrite List.filter_app. simpl. rewrite String.eqb_refl. simpl.
    rewrite app_nil_r. apply filter_other_ids. exact Hnew.
Qed.

Lemma addNotification_announced (d : Draft) (w : World) :
  announced w (addNotification random_suffix d w)
    (made_notification random_suffix d w) (stored_duration (d_duration d)).
Proof.
  rewrite addNotification_effect. unfold announced. simpl.
  rewrite lookup_insert_eq. repeat split.
Qed.

(** An update for the focused track is announced at once, whatever its
    kind, for 3000 ms (6000 ms for an error); an error of another track is
    announced at once for 8000 ms; in both cases the batch accumulator is
    not touched.  A loading update of another track does nothing at all. *)
Theorem handleTrackUpdate_immediate (w : World) (trackIndex : Z) (ty : UpdateType) :
  let w' := handleTrackUpdate random_suffix trackIndex ty w in
  (activeTrackIndex (state w) = Some trackIndex ->
     exists n,
       announced w w' n match ty with UError => 6000 | _ => 3000 end
       /\ NotificationStore.trackIndex n = Some trackIndex
       /\ type n = match ty with
                   | ULoading => NLoading
                   | UReady => NReady
                   | UError => NError
                   end)
  /\ (activeTrackIndex (state w) <> Some trackIndex -> ty = UError ->
      exists n,
        announced w w' n 8000
        /\ NotificationStore.trackIndex n = Some trackIndex
        /\ type n = NError
        /\ message n = "Track " ++ show (trackIndex + 1) ++ " needs attention")
  /\ (activeTrackIndex (state w) <> Some trackIndex -> ty = ULoading -> w' = w).
Proof.
  cbv zeta. unfold handleTrackUpdate. split; [|split].
  - intros Hfocus. rewrite Hfocus, Z.eqb_refl.
    exists (made_notification random_suffix
              (createActiveTrackNotification trackIndex ty) w).
    split; [|split; destruct ty; reflexivity].
    pose proof (addNotification_announced
                  (createActiveTrackNotification trackIndex ty) w) as H.
    destruct ty; exact H.
  - intros Hother ->. rewrite (not_focused w trackIndex Hother).
    exists (made_notification random_suffix (createErrorNotification trackIndex) w).
    split; [apply addNotification_announced | repeat split].
  - intros Hother ->. rewrite (not_focused w trackIndex Hother). reflexivity.
Qed.

Lemma flush_fold (l : list BatchedUpdate) :
  forall w : World,
  let w' := fold_left
              (fun w batch =>
                 if Nat.ltb 0 (length (trackIndexes batch))
                 then addNotification random_suffix (createBatchNotification batch) w
                 else w) l w in
  exists added,
    notifications (state w') = (notifications (state w) ++ added)%list
    /\ map message added
       = map (fun b => d_message (createBatchNotification b)) (List.filter has_tracks l)
    /\ Forall (fun n => type n = NBatch /\ timestamp n = now w) added
    /\ now w' = now w.
Proof.
  induction l as [|b l IH]; intros w; simpl.
  - exists []. rewrite app_nil_r. repeat split. constructor.
  - unfold has_tracks at 1.
    destruct (Nat.ltb 0 (length (trackIndexes b))) eqn:E.
    + destruct (IH (addNotification random_suffix (createBatchNotification b) w))
        as (added & Hn & Hm & Hty & Hnow).
      exists (made_notification random_suffix (createBatchNotification b) w :: added).
      split; [|split; [|split]].
      * rewrite Hn, addNotification_effect. simpl. rewrite <- app_assoc. reflexivity.
      * simpl. rewrite Hm. reflexivity.
      * constructor; [|exact Hty]. split; [|reflexivity].
        unfold createBatchNotification. simpl. destruct (batch_type b); reflexivity.
      * rewrite Hnow. reflexivity.
    + apply IH.
Qed.

(** A flush makes one batch notification per batch that holds a track, in
    the order of the batches, each with the message of
    [createBatchNotification] and stamped with the clock, and empties the
    accumulator and the batch timer; with nothing accumulated it adds no
    notification. *)
Theorem processBatchedUpdates_one_per_batch (w : World) :
  let w' := processBatchedUpdates random_suffix w in
  exists added,
    notifications (state w') = (notifications (state w) ++ added)%list
    /\ map message added
       = map (fun b => d_message (createBatchNotification b))
           (List.filter has_tracks (batchedUpdates (state w)))
    /\ length added = length (List.filter has_tracks (batchedUpdates (state w)))
    /\ Forall (fun n => type n = NBatch /\ timestamp n = now w) added
    /\ batchedUpdates (state w') = []
    /\ batchTimer (state w') = None.
Proof.
  cbv zeta. unfold processBatchedUpdates. cbv zeta.
  destruct (flush_fold (batchedUpdates (state w)) w) as (added & Hn & Hm & Hty & _).
  cbv zeta in Hn. exists added. simpl.
  split; [exact Hn|]. split; [exact Hm|]. split.
  { rewrite <- (length_map message added), Hm, length_map. reflexivity. }
  split; [exact Hty|]. split; reflexivity.
Qed.

(** *** One batch per kind *)

Lemma batch_kind_eqb_eq (a b : BatchKind) : batch_kind_eqb a b = true <-> a = b.
Proof. destruct a, b; simpl; split; congruence. Qed.

Lemma addToBatch_batches (trackIndex : Z) (ty : BatchKind) (w : World) :
  batchedUpdates (state (addToBatch trackIndex ty w))
  = match List.find (fun b => batch_kind_eqb (batch_type b) ty)
            (batchedUpdates (state w)) with
    | Some _ => push_existing ty trackIndex (now w) (batchedUpdates (state w))
    | None =>
        (batchedUpdates (state w)
         ++ [ {| batch_type := ty; trackIndexes := [trackIndex];
                 batch_timestamp := now w |} ])%list
    end.
Proof.
  unfold addToBatch. cbv zeta.
  destruct (List.find _ _); destruct (batchTimer (state w)); reflexivity.
Qed.

Lemma push_existing_kinds (ty : BatchKind) (trackIndex t : Z) (l : list BatchedUpdate) :
  map batch_type (push_existing ty trackIndex t l) = map batch_type l.
Proof.
  induction l as [|a l IH]; simpl; [reflexivity|].
  destruct (batch_kind_eqb (batch_type a) ty); simpl; [reflexivity|].
  rewrite IH. reflexivity.
Qed.

Lemma push_existing_members (ty : BatchKind) (trackIndex t : Z)
    (l : list BatchedUpdate) (b : BatchedUpdate) :
  NoDup (map batch_type l) ->
  List.find (fun b => batch_kind_eqb (batch_type b) ty) l = Some b ->
  forall b', In b' (push_existing ty trackIndex t l) <->
    b' = {| batch_type := batch_type b;
            trackIndexes := trackIndexes b ++ [trackIndex];
            batch_timestamp := t |}
    \/ (In b' l /\ batch_type b' <> ty).
Proof.
  induction l as [|a l IH]; simpl; intros Hnd Hfind b'; [discriminate|].
  apply NoDup_cons in Hnd as [Hnotin Hnd].
  destruct (batch_kind_eqb (batch_type a) ty) eqn:E.
  - injection Hfind as <-. apply batch_kind_eqb_eq in E. simpl. split.
    + intros [<- | Hin]; [left; reflexivity|]. right. split; [right; exact Hin|].
      intros Hty. apply Hnotin. rewrite E, <- Hty.
      apply list_elem_of_In, in_map, Hin.
    + intros [-> | [[<- | Hin] Hne]]; [left; reflexivity | contradiction | right; exact Hin].
  - assert (Hne : batch_type a <> ty).
    { intros H. apply batch_kind_eqb_eq in H. congruence. }
    simpl. rewrite (IH Hnd Hfind b'). split.
    + intros [<- | [-> | [Hin Hty]]]; auto.
    + intros [-> | [[<- | Hin] Hty]]; auto.
Qed.

(** [addToBatch] keeps at most one batch per kind: it appends the track to
    the batch of its kind, creating that batch when there is none, stamps
    it with the clock, and leaves the batches of the other kind alone. *)
Theorem addToBatch_one_batch_per_kind (w : World) (trackIndex : Z) (ty : BatchKind) :
  NoDup (map batch_type (batchedUpdates (state w))) ->
  let before := batchedUpdates (state w) in
  let after := batchedUpdates (state (addToBatch trackIndex ty w)) in
  NoDup (map batch_type after)
  /\ (exists b',
        In b' after /\ batch_type b' = ty /\ batch_timestamp b' = now w
        /\ trackIndexes b'
           = (match List.find (fun b => batch_kind_eqb (batch_type b) ty) before with
              | Some b => trackIndexes b
              | None => []
              end ++ [trackIndex])%list)
  /\ (forall b, batch_type b <> ty -> (In b after <-> In b before)).
Proof.
  intros Hnd. cbv zeta. rewrite addToBatch_batches.
  destruct (List.find (fun b => batch_kind_eqb (batch_type b) ty)
              (batchedUpdates (state w))) as [b0|] eqn:Efind.
  - pose proof (push_existing_members ty trackIndex (now w) _ b0 Hnd Efind) as Hmem.
    pose proof (find_some _ _ Efind) as [_ Hkind]. apply batch_kind_eqb_eq in Hkind.
    split; [rewrite push_existing_kinds; exact Hnd|]. split.
    + eexists. split; [apply Hmem; left; reflexivity|]. simpl.
      repeat split. exact Hkind.
    + intros b Hb. rewrite Hmem. split.
      * intros [-> | [Hin _]]; [simpl in Hb; contradiction | exact Hin].
      * intros Hin. right. split; assumption.
  - split; [|split].
    + rewrite map_app. simpl. apply NoDup_app. split; [exact Hnd|]. split.
      * intros k Hk Hty. apply list_elem_of_In in Hty. simpl in Hty.
        destruct Hty as [<- | []].
        apply list_elem_of_In, in_map_iff in Hk as (b & Hb & Hin).
        pose proof (find_none _ _ Efind b Hin) as H. simpl in H.
        apply batch_kind_eqb_eq in Hb. congruence.
      * apply NoDup_singleton.
    + eexists. split; [apply in_or_app; right; left; reflexivity|]. repeat split.
    + intros b Hb. rewrite in_app_iff. simpl. split.
      * intros [Hin | [<- | []]]; [exact Hin | simpl in Hb; contradiction].
      * intros Hin. left. exact Hin.
Qed.

(** *** Every notification expires *)

Lemma addNotification_keeps_expiring (d : Draft) (w : World) :
  (forall h, is_Some (timers w !! h) -> (h < next_timer w)%nat) ->
  expiring w ->
  (forall h, is_Some (timers (addNotification random_suffix d w) !! h) ->
     (h < next_timer (addNotification random_suffix d w))%nat)
  /\ expiring (addNotification random_suffix d w).
Proof.
  intros Hfresh Hexp. rewrite addNotification_effect. split.
  - intros h Hh. simpl in *.
    destruct (decide (h = next_timer w)) as [->|Hne]; [lia|].
    rewrite lookup_insert_ne in Hh by congruence.
    specialize (Hfresh h Hh). lia.
  - intros n Hin. simpl in Hin. apply in_app_iff in Hin as [Hin | [<- | []]].
    + destruct (Hexp n Hin) as (h & dur & Hd & Ht).
      exists h, dur. split; [exact Hd|]. simpl.
      assert (h < next_timer w)%nat by (apply Hfresh; eauto).
      rewrite lookup_insert_ne by lia. exact Ht.
    + exists (next_timer w), (stored_duration (d_duration d)).
      split; [reflexivity|]. simpl. apply lookup_insert_eq.
Qed.

Lemma addNotification_keeps_tidy (d : Draft) (w : World) :
  handles_tidy w -> expiring w ->
  handles_tidy (addNotification random_suffix d w)
  /\ expiring (addNotification random_suffix d w).
Proof.
  intros [Hfresh Hbatch] Hexp.
  destruct (addNotification_keeps_expiring d w Hfresh Hexp) as [Hfresh' Hexp'].
  split; [|exact Hexp']. split; [exact Hfresh'|].
  rewrite addNotification_effect. simpl. intros h Hh.
  destruct (Hbatch h Hh) as [Hlt Hcb]. split; [lia|].
  intros tm Htm. rewrite lookup_insert_ne in Htm by lia. apply (Hcb tm Htm).
Qed.

Lemma addToBatch_keeps_tidy (trackIndex : Z) (ty : BatchKind) (w : World) :
  handles_tidy w -> expiring w ->
  handles_tidy (addToBatch trackIndex ty w)
  /\ expiring (addToBatch trackIndex ty w).
Proof.
  intros [Hfresh Hbatch] Hexp.
  assert (Hw : exists bs,
    addToBatch trackIndex ty w
    = {| now := now w;
         timers := <[ next_timer w :=
                        {| fires_at := now w + 5000;
                           callback := CbProcessBatchedUpdates |} ]>
                     (match batchTimer (state w) with
                      | Some old => delete old (timers w)
                      | None => timers w
                      end);
         next_timer := S (next_timer w);
         random_calls := random_calls w;
         state := {| notifications := notifications (state w);
                     activeTrackIndex := activeTrackIndex (state w);
                     batchedUpdates := bs;
                     batchTimer := Some (next_timer w) |} |}).
  { unfold addToBatch. cbv zeta.
    destruct (List.find _ _); destruct (batchTimer (state w)); eexists; reflexivity. }
  destruct Hw as (bs & ->).
  assert (Hsub : forall h tm,
            match batchTimer (state w) with
            | Some old => delete old (timers w)
            | None => timers w
            end !! h = Some tm -> timers w !! h = Some tm).
  { intros h tm. destruct (batchTimer (state w)) as [old|]; [|auto].
    intros H. apply lookup_delete_Some in H as [_ H]. exact H. }
  split; [split|].
  - intros h [tm Hh]. simpl in *.
    destruct (decide (h = next_timer w)) as [->|Hne]; [lia|].
    rewrite lookup_insert_ne in Hh by congruence.
    assert (h < next_timer w)%nat by (apply Hfresh; eauto). lia.
  - simpl. intros h [= <-]. split; [lia|].
    intros tm Htm. rewrite lookup_insert_eq in Htm. injection Htm as <-. reflexivity.
  - intros n Hin. simpl in Hin. destruct (Hexp n Hin) as (h & dur & Hd & Ht).
    exists h, dur. split; [exact Hd|]. simpl.
    assert (h < next_timer w)%nat by (apply Hfresh; eauto).
    rewrite lookup_insert_ne by lia.
    destruct (batchTimer (state w)) as [old|] eqn:Eold; [|exact Ht].
    rewrite lookup_delete_ne; [exact Ht|].
    intros <-. destruct (Hbatch old eq_refl) as [_ Hcb].
    specialize (Hcb _ Ht). discriminate.
Qed.

Lemma flush_fold_keeps_expiring (l : list BatchedUpdate) :
  forall w : World,
  (forall h, is_Some (timers w !! h) -> (h < next_timer w)%nat) ->
  expiring w ->
  let w' := fold_left
              (fun w batch =>
                 if Nat.ltb 0 (length (trackIndexes batch))
                 then addNotification random_suffix (createBatchNotification batch) w
                 else w) l w in
  (forall h, is_Some (timers w' !! h) -> (h < next_timer w')%nat) /\ expiring w'.
Proof.
  induction l as [|b l IH]; intros w Hfresh Hexp; simpl; [split; assumption|].
  destruct (Nat.ltb 0 (length (trackIndexes b))); [|apply IH; assumption].
  destruct (addNotification_keeps_expiring (createBatchNotification b) w Hfresh Hexp).
  apply IH; assumption.
Qed.

Lemma step_keeps_tidy (w : World) (ev : Event) :
  handles_tidy w -> expiring w ->
  handles_tidy (step random_suffix w ev) /\ expiring (step random_suffix w ev).
Proof.
  intros Htidy Hexp. destruct ev as [t trackIndex ty | h | i |]; unfold step.
  - assert (Ht : handles_tidy (advance t w)) by exact Htidy.
    assert (He : expiring (advance t w)) by exact Hexp.
    unfold handleTrackUpdate.
    destruct (match activeTrackIndex (state (advance t w)) with
              | Some a => Z.eqb a trackIndex
              | None => false
              end); [apply addNotification_keeps_tidy; assumption|].
    destruct ty.
    + split; assumption.
    + apply addToBatch_keeps_tidy; assumption.
    + apply addNotification_keeps_tidy; assumption.
  - destruct (timers w !! h) as [tm|] eqn:Eh; [|split; assumption].
    destruct Htidy as [Hfresh Hbatch].
    destruct (callback tm) as [nid|] eqn:Ecb; simpl.
    + split; [split|].
      * intros h' [tm' Hh']. simpl in Hh'.
        apply lookup_delete_Some in Hh' as [_ Hh']. apply Hfresh. eauto.
      * simpl. intros hb Hb. destruct (Hbatch hb Hb) as [Hlt Hcb].
        split; [exact Hlt|]. intros tm' Hh'.
        apply lookup_delete_Some in Hh' as [_ Hh']. apply (Hcb tm' Hh').
      * intros n Hin. simpl in Hin. apply filter_In in Hin as [Hin Hid].
        destruct (Hexp n Hin) as (hn & dur & Hd & Ht).
        exists hn, dur. split; [exact Hd|]. simpl.
        rewrite lookup_delete_ne; [exact Ht|].
        intros <-. rewrite Eh in Ht. injection Ht as ->.
        unfold removal_timer in Ecb. simpl in Ecb. injection Ecb as <-.
        rewrite String.eqb_refl in Hid. discriminate.
    + set (w0 := clearTimeout h (advance (fires_at tm) w)).
      assert (Hfresh0 : forall h', is_Some (timers w0 !! h') -> (h' < next_timer w0)%nat).
      { intros h' [tm' Hh']. simpl in Hh'.
        apply lookup_delete_Some in Hh' as [_ Hh']. apply Hfresh. eauto. }
      assert (Hexp0 : expiring w0).
      { intros n Hin. simpl in Hin. destruct (Hexp n Hin) as (hn & dur & Hd & Ht).
        exists hn, dur. split; [exact Hd|]. simpl.
        rewrite lookup_delete_ne; [exact Ht|].
        intros <-. rewrite Eh in Ht. injection Ht as ->. discriminate. }
      unfold processBatchedUpdates. cbv zeta.
      destruct (flush_fold_keeps_expiring (batchedUpdates (state w0)) w0 Hfresh0 Hexp0)
        as [Hfresh1 Hexp1].
      cbv zeta in Hfresh1, Hexp1. split; [split|].
      * exact Hfresh1.
      * simpl. discriminate.
      * exact Hexp1.
  - split; [exact Htidy | exact Hexp].
  - destruct Htidy as [Hfresh Hbatch]. unfold clearAllNotifications. cbv zeta.
    split; [split|].
    + intros h [tm Hh]. simpl in *.
      destruct (batchTimer (state w)) as [old|]; simpl in *.
      * apply lookup_delete_Some in Hh as [_ Hh]. apply Hfresh. eauto.
      * apply Hfresh. eauto.
    + simpl. discriminate.
    + intros n []. 
Qed.

Lemma run_keeps_tidy (evs : list Event) (t0 : Z) :
  handles_tidy (run random_suffix evs (new_world t0))
  /\ expiring (run random_suffix evs (new_world t0)).
Proof.
  assert (H : forall w, handles_tidy w -> expiring w ->
            handles_tidy (run random_suffix evs w)
            /\ expiring (run random_suffix evs w)).
  { induction evs as [|ev evs IH]; intros w Ht He; [split; assumption|].
    simpl. destruct (step_keeps_tidy w ev Ht He). apply IH; assumption. }
  apply H.
  - split.
    + intros h [tm Hh]. discriminate.
    + discriminate.
  - intros n [].
Qed.

(** Whatever has happened to the store since it was created, every
    notification it shows has its removal timer in flight, due [duration]
    after the notification was made; and when that timer fires, the
    notification is gone. *)
Theorem notifications_always_expire (evs : list Event) (t0 : Z) (n : Notification) :
  let w := run random_suffix evs (new_world t0) in
  In n (notifications (state w)) ->
  exists h dur,
    duration n = Some dur
    /\ timers w !! h
       = Some {| fires_at := timestamp n + dur;
                 callback := CbRemoveNotification (id n) |}
    /\ ~ In n (notifications (state (step random_suffix w (EvTimer h)))).
Proof.
  cbv zeta. intros Hin.
  destruct (run_keeps_tidy evs t0) as [_ Hexp].
  destruct (Hexp n Hin) as (h & dur & Hd & Ht).
  exists h, dur. split; [exact Hd|]. split; [exact Ht|].
  unfold step. rewrite Ht. simpl. intros Hin'.
  apply filter_In in Hin' as [_ Hid].
  rewrite String.eqb_refl in Hid. discriminate.
Qed.

(** *** Clearing *)

(** Once everything is cleared, timers that were in flight do no harm:
    whichever of them fire, in whatever order, no notification appears and
    nothing accumulated earlier is flushed. *)
Theorem cleared_stays_clear (evs : list Event) (t0 : Z) (hs : list nat) :
  let w := step random_suffix (run random_suffix evs (new_world t0)) EvClearAll in
  notifications (state (run random_suffix (map EvTimer hs) w)) = []
  /\ batchedUpdates (state (run random_suffix (map EvTimer hs) w)) = []
  /\ batchTimer (state w) = None.
Proof.
  cbv zeta.
  set (w := step random_suffix (run random_suffix evs (new_world t0)) EvClearAll).
  assert (Hw : no_flush_timer w /\ notifications (state w) = []
               /\ batchedUpdates (state w) = []).
  { split; [|split; reflexivity].
    exact (cleared_batch_timer_no_flush_timer _ (run_one_flush_timer random_suffix evs t0)). }
  assert (H : forall w0, no_flush_timer w0 -> notifications (state w0) = [] ->
            batchedUpdates (state w0) = [] ->
            notifications (state (run random_suffix (map EvTimer hs) w0)) = []
            /\ batchedUpdates (state (run random_suffix (map EvTimer hs) w0)) = []).
  { induction hs as [|h hs IH]; intros w0 Hno Hn Hb; [split; assumption|].
    simpl. apply IH.
    - unfold step. destruct (timers w0 !! h) as [tm|] eqn:Eh; [|exact Hno].
      destruct (callback tm) as [nid|] eqn:Ecb; [|exfalso; exact (Hno h tm Eh Ecb)].
      intros h' tm' Hh'. simpl in Hh'.
      apply lookup_delete_Some in Hh' as [_ Hh']. apply (Hno h' tm' Hh').
    - unfold step. destruct (timers w0 !! h) as [tm|] eqn:Eh; [|exact Hn].
      destruct (callback tm) as [nid|] eqn:Ecb; [|exfalso; exact (Hno h tm Eh Ecb)].
      simpl. rewrite Hn. reflexivity.
    - unfold step. destruct (timers w0 !! h) as [tm|] eqn:Eh; [|exact Hb].
      destruct (callback tm) as [nid|] eqn:Ecb; [|exfalso; exact (Hno h tm Eh Ecb)].
      exact Hb. }
  destruct Hw as (Hno & Hn & Hb). destruct (H w Hno Hn Hb) as [H1 H2].
  split; [exact H1|]. split; [exact H2 | reflexivity].
Qed.

End Expiry.

Lemma addNotification_expires_witness :
  notifications
    (state (step sample_suffix
              (addNotification sample_suffix (createErrorNotification 4) (new_world 100))
              (EvTimer 1)))
  = []
  /\ map duration
       (notifications
          (state (addNotification sample_suffix (createErrorNotification 4)
                    (new_world 100))))
     = [Some 8000].
Proof.
  destruct (addNotification_expires sample_suffix (createErrorNotification 4)
              (new_world 100)) as (Hn & _ & _ & _ & _ & Hgone).
  - intros m [].
  - split; [exact Hgone|]. rewrite Hn. reflexivity.
Defined.

Lemma handleTrackUpdate_immediate_witness :
  map message
    (notifications (state (handleTrackUpdate sample_suffix 2 UError (new_world 50))))
  = ["Track 3 needs attention"]
  /\ handleTrackUpdate sample_suffix 2 ULoading (new_world 50) = new_world 50
  /\ map duration
       (notifications
          (state (handleTrackUpdate sample_suffix 2 UReady
                    (setActiveTrack (Some 2) (new_world 50)))))
     = [Some 3000].
Proof.
  split; [|split].
  - destruct (handleTrackUpdate_immediate sample_suffix (new_world 50) 2 UError)
      as (_ & H & _).
    destruct H as (n & (Hn & _) & _ & _ & Hm); [discriminate | reflexivity|].
    rewrite Hn. simpl. rewrite Hm. reflexivity.
  - destruct (handleTrackUpdate_immediate sample_suffix (new_world 50) 2 ULoading)
      as (_ & _ & H).
    apply H; [discriminate | reflexivity].
  - destruct (handleTrackUpdate_immediate sample_suffix
                (setActiveTrack (Some 2) (new_world 50)) 2 UReady) as (H & _).
    destruct H as (n & (Hn & _ & Hd & _) & _); [reflexivity|].
    rewrite Hn. simpl. rewrite Hd. reflexivity.
Defined.

Lemma addToBatch_one_batch_per_kind_witness :
  map trackIndexes
    (batchedUpdates (state (addToBatch 7 BError (addToBatch 4 BError (new_world 0)))))
  = [[4; 7]].
Proof.
  destruct (addToBatch_one_batch_per_kind (addToBatch 4 BError (new_world 0)) 7 BError)
    as (_ & (b' & Hin & _ & _ & Htracks) & _).
  - simpl. apply NoDup_singleton.
  - simpl in Hin. destruct Hin as [<- | []]. reflexivity.
Defined.

Lemma notifications_always_expire_witness :
  exists h,
    timers (run sample_suffix [EvTrackUpdate 10 1 UError] (new_world 0)) !! h
    = Some {| fires_at := 8010;
              callback := CbRemoveNotification "notif_10_r0" |}.
Proof.
  destruct (notifications_always_expire sample_suffix [EvTrackUpdate 10 1 UError] 0
              (made_notification sample_suffix (createErrorNotification 1)
                 (advance 10 (new_world 0))))
    as (h & dur & Hd & Ht & _).
  - left. reflexivity.
  - injection Hd as <-. exists h. exact Ht.
Defined.

End NotificationExpiry.

(** ** The connection session: the other frames *)

Module WsServiceFrames.
Import AdDataStore WsService Statements Samples.
Import AdDataStoreFacts AdDataStoreQueries WsServiceFacts.

Lemma same_indexes_refl (w : World) : same_indexes w w.
Proof. split; reflexivity. Qed.

Lemma same_indexes_trans (w1 w2 w3 : World) :
  same_indexes w1 w2 -> same_indexes w2 w3 -> same_indexes w1 w3.
Proof. intros [H1 H2] [H3 H4]. split; congruence. Qed.

Lemma call_updateAd_same_indexes (ad : AdData) (w : World) :
  same_indexes w (call_updateAd ad w).
Proof. split; [apply updateAd_indexes | reflexivity]. Qed.

Lemma call_nullify_same_indexes (w : World) :
  same_indexes w (call_nullifyAllPendingRequests w).
Proof. split; [|reflexivity]. simpl. rewrite map_map. reflexivity. Qed.

Lemma call_fail_same_indexes (w : World) :
  same_indexes w (call_failAllPendingRequests w).
Proof. split; [|reflexivity]. simpl. rewrite map_map. reflexivity. Qed.

Lemma write_back_same_indexes (targetAd : option AdData) (w : World) :
  same_indexes w (write_back targetAd w).
Proof.
  destruct targetAd; [apply call_updateAd_same_indexes | apply same_indexes_refl].
Qed.

Lemma dispatchJson_same_indexes (json : Schemas.json) (w w' : World) :
  dispatchJson json w = Ok w' -> same_indexes w w'.
Proof.
  unfold dispatchJson.
  destruct (Schemas.ResponsePayload_parse json) as [resData|]; [|discriminate].
  simpl. destruct (event_is_transcription json).
  { intros [= <-]. apply same_indexes_refl. }
  destruct (Schemas.type resData), (lookup_target resData w) as [ad|]; simpl;
    try (intros [= <-];
         first [ apply same_indexes_refl
               | apply call_updateAd_same_indexes
               | apply call_nullify_same_indexes
               | eapply same_indexes_trans;
                 [apply call_nullify_same_indexes|apply call_updateAd_same_indexes] ]).
  - destruct (Schemas.InsightsResponsePayload_parse resData); simpl; [|discriminate].
    intros [= <-]. apply call_updateAd_same_indexes.
  - destruct (Schemas.FinishedAdPayload_parse resData); simpl; [|discriminate].
    intros [= <-]. apply call_updateAd_same_indexes.
  - destruct (handleAdError ad resData); simpl; [|discriminate].
    intros [= <-]. apply call_updateAd_same_indexes.
Qed.

(** *** Text frames *)

(** An insight frame that targets an existing item and is not marked as
    a transcription event (its [event] member is not ["transcription"])
    sets that item's [insights] to the decoded list and nothing else; the
    store then holds the rewritten item at that index.  Without an
    [insights] key such a frame is rejected. *)
Theorem insight_frame_sets_insights (json : Schemas.json)
    (resData : Schemas.ResponsePayload) (w : World) (target : AdData) :
  Schemas.ResponsePayload_parse json = Some resData ->
  event_is_transcription json = false ->
  Schemas.type resData = Schemas.TInsight ->
  lookup_target resData w = Some target ->
  (forall ins, Schemas.insights resData = Some ins ->
     exists target',
       dispatchJson json w = Ok (call_updateAd target' w)
       /\ lookup_target resData (call_updateAd target' w) = Some target'
       /\ insights target' = PReady ins
       /\ index target' = index target
       /\ musicAudioSrc target' = musicAudioSrc target
       /\ nonMusicAudioSrc target' = nonMusicAudioSrc target
       /\ transcriptSents target' = transcriptSents target
       /\ englishTranscriptSents target' = englishTranscriptSents target
       /\ location target' = location target
       /\ status target' = status target
       /\ theme target' = theme target)
  /\ (Schemas.insights resData = None -> dispatchJson json w = Throw ZodError).
Proof.
  intros Hparse Hev Hty Htarget.
  assert (Hidx : exists i, Schemas.index resData = Some i).
  { unfold lookup_target in Htarget.
    destruct (Schemas.index resData); [eauto | discriminate]. }
  destruct Hidx as [i Hi].
  unfold dispatchJson. rewrite Hparse. simpl. rewrite Hev, Hty, Htarget.
  unfold Schemas.InsightsResponsePayload_parse. rewrite Hty, Hi. simpl.
  split.
  - intros ins Hins. rewrite Hins. simpl.
    eexists. split; [reflexivity|]. split; [|repeat split].
    apply lookup_target_write_back with target; [exact Htarget | reflexivity].
  - intros ->. reflexivity.
Qed.

Lemma insight_frame_sets_insights_witness :
  exists target',
    dispatchJson insight_frame fresh_world = Ok (call_updateAd target' fresh_world)
    /\ insights target' = PReady [lagos_insight]
    /\ musicAudioSrc target' = Some "pending".
Proof.
  destruct (insight_frame_sets_insights insight_frame
              {| Schemas.type := Schemas.TInsight; Schemas.message := None;
                 Schemas.index := Some (inject_Z 2); Schemas.step := None;
                 Schemas.transcript := None; Schemas.translations := None;
                 Schemas.alignments := None;
                 Schemas.insights := Some [lagos_insight] |}
              fresh_world (fresh_ad 2) eq_refl eq_refl eq_refl eq_refl) as [H _].
  destruct (H [lagos_insight] eq_refl) as (target' & Hrun & _ & Hins & _ & Hm & _).
  exists target'. repeat split; assumption.
Defined.

(** A done frame that targets an existing item and is not marked as a
    transcription event (its [event] member is not ["transcription"]) sets
    that item's [status] to done and nothing else. *)
Theorem done_frame_sets_status (json : Schemas.json)
    (resData : Schemas.ResponsePayload) (w : World) (target : AdData) :
  Schemas.ResponsePayload_parse json = Some resData ->
  event_is_transcription json = false ->
  Schemas.type resData = Schemas.TDone ->
  lookup_target resData w = Some target ->
  exists target',
    dispatchJson json w = Ok (call_updateAd target' w)
    /\ lookup_target resData (call_updateAd target' w) = Some target'
    /\ status target' = StDone
    /\ index target' = index target
    /\ musicAudioSrc target' = musicAudioSrc target
    /\ nonMusicAudioSrc target' = nonMusicAudioSrc target
    /\ transcriptSents target' = transcriptSents target
    /\ englishTranscriptSents target' = englishTranscriptSents target
    /\ insights target' = insights target
    /\ location target' = location target
    /\ theme target' = theme target.
Proof.
  intros Hparse Hev Hty Htarget.
  assert (Hidx : exists i, Schemas.index resData = Some i).
  { unfold lookup_target in Htarget.
    destruct (Schemas.index resData); [eauto | discriminate]. }
  destruct Hidx as [i Hi].
  unfold dispatchJson. rewrite Hparse. simpl. rewrite Hev, Hty, Htarget.
  unfold Schemas.FinishedAdPayload_parse. rewrite Hty, Hi. simpl.
  eexists. split; [reflexivity|]. split; [|repeat split].
  apply lookup_target_write_back with target; [exact Htarget | reflexivity].
Qed.

Lemma done_frame_sets_status_witness :
  exists target',
    dispatchJson done_frame fresh_world = Ok (call_updateAd target' fresh_world)
    /\ status target' = StDone
    /\ insights target' = PPending.
Proof.
  destruct (done_frame_sets_status done_frame
              {| Schemas.type := Schemas.TDone; Schemas.message := None;
                 Schemas.index := Some (inject_Z 2); Schemas.step := None;
                 Schemas.transcript := None; Schemas.translations := None;
                 Schemas.alignments := None; Schemas.insights := None |}
              fresh_world (fresh_ad 2) eq_refl eq_refl eq_refl eq_refl)
    as (target' & Hrun & _ & Hs & _ & _ & _ & _ & _ & Hi & _).
  exists target'. repeat split; assumption.
Defined.

Lemma find_target_map (f : AdData -> AdData) (i : Q) (l : list AdData) :
  (forall ad, index (f ad) = index ad) ->
  find_target i (map f l) = f <$> find_target i l.
Proof.
  intros Hf. unfold find_target. induction l as [|a l IH]; simpl; [reflexivity|].
  rewrite Hf. destruct (Qeq_bool (inject_Z (index a)) i); [reflexivity | exact IH].
Qed.

(** A complete frame that is not marked as a transcription event (its
    [event] member is not ["transcription"]) nullifies every pending field
    of every item and marks every item done.  When the frame also carries
    the index of an existing item, that one item is then written back as
    it was found before the nullification, so it keeps its former fields
    and status. *)
Theorem complete_frame_nullifies (json : Schemas.json)
    (resData : Schemas.ResponsePayload) (w : World) :
  Schemas.ResponsePayload_parse json = Some resData ->
  event_is_transcription json = false ->
  Schemas.type resData = Schemas.TComplete ->
  (lookup_target resData w = None ->
   dispatchJson json w = Ok (call_nullifyAllPendingRequests w)
   /\ store (call_nullifyAllPendingRequests w) = nullifyAllPendingRequests (store w))
  /\ (forall target, lookup_target resData w = Some target ->
      exists w',
        dispatchJson json w = Ok w'
        /\ store w' = updateAd target (nullifyAllPendingRequests (store w))
        /\ lookup_target resData w' = Some target
        /\ calls w' = (calls w ++ [OpNullifyAllPending; OpUpdateAd (index target)])%list).
Proof.
  intros Hparse Hev Hty. unfold dispatchJson. rewrite Hparse. simpl.
  rewrite Hev, Hty. split.
  - intros ->. simpl. split; reflexivity.
  - intros target Htarget. rewrite Htarget. simpl.
    eexists. split; [reflexivity|]. split; [reflexivity|]. split.
    + unfold lookup_target in *.
      destruct (Schemas.index resData) as [i|]; [|discriminate]. simpl.
      apply (find_target_updateAd i (map nullifyAd (ads (store w)))
               (nullifyAd target) target); [|reflexivity].
      rewrite find_target_map by reflexivity. rewrite Htarget. reflexivity.
    + simpl. rewrite <- app_assoc. reflexivity.
Qed.

Lemma complete_frame_nullifies_witness :
  dispatchJson complete_frame fresh_world
  = Ok (call_nullifyAllPendingRequests fresh_world)
  /\ exists w',
       dispatchJson complete_frame_with_index fresh_world = Ok w'
       /\ find_ad 2 (ads (store w')) = Some (fresh_ad 2)
       /\ find_ad 1 (ads (store w')) = Some (nullifyAd (fresh_ad 1)).
Proof.
  split.
  - destruct (complete_frame_nullifies complete_frame
                {| Schemas.type := Schemas.TComplete; Schemas.message := None;
                   Schemas.index := None; Schemas.step := None;
                   Schemas.transcript := None; Schemas.translations := None;
                   Schemas.alignments := None; Schemas.insights := None |}
                fresh_world eq_refl eq_refl eq_refl) as [H _].
    apply H. reflexivity.
  - destruct (complete_frame_nullifies complete_frame_with_index
                {| Schemas.type := Schemas.TComplete; Schemas.message := None;
                   Schemas.index := Some (inject_Z 2); Schemas.step := None;
                   Schemas.transcript := None; Schemas.translations := None;
                   Schemas.alignments := None; Schemas.insights := None |}
                fresh_world eq_refl eq_refl eq_refl) as [_ H].
    destruct (H (fresh_ad 2) eq_refl) as (w' & Hrun & Hstore & _).
    exists w'. split; [exact Hrun|]. rewrite Hstore. split; reflexivity.
Defined.

Lemma same_index_same_item (l : list AdData) (a t : AdData) :
  NoDup (map index l) -> In a l -> In t l -> index a = index t -> a = t.
Proof.
  induction l as [|x l IH]; simpl; intros Hnd Ha Ht Heq; [contradiction|].
  apply NoDup_cons in Hnd as [Hnotin Hnd].
  destruct Ha as [<- | Ha], Ht as [<- | Ht].
  - reflexivity.
  - exfalso. apply Hnotin. rewrite Heq. apply list_elem_of_In, in_map, Ht.
  - exfalso. apply Hnotin. rewrite <- Heq. apply list_elem_of_In, in_map, Ha.
  - apply IH; assumption.
Qed.

Lemma updateAd_found_is_identity (i : Q) (st : AdDataState) (target : AdData) :
  find_target i (ads st) = Some target ->
  NoDup (map index (ads st)) ->
  updateAd target st = st.
Proof.
  intros Hfind Hnd. apply find_target_Some in Hfind as [Hin _].
  destruct st as [l a]. unfold updateAd, setAds. simpl in *. f_equal.
  rewrite <- (map_id l) at 2. apply map_ext_in. intros x Hx.
  destruct (Z.eqb_spec (index x) (index target)) as [He|]; [|reflexivity].
  symmetry. apply (same_index_same_item l x target Hnd Hx Hin He).
Qed.

(** A text frame that the handler has no case for (the types speech,
    merged, fatal_error, received and audio_complete, and any frame
    marked as a transcription event) changes nothing in a store whose
    indexes are distinct; a fatal_error frame in particular fails no
    item. *)
Theorem unhandled_text_frame_changes_nothing (json : Schemas.json)
    (resData : Schemas.ResponsePayload) (w : World) :
  Schemas.ResponsePayload_parse json = Some resData ->
  event_is_transcription json = true
  \/ unhandled_as_text (Schemas.type resData) = true ->
  NoDup (map index (ads (store w))) ->
  exists w',
    dispatchJson json w = Ok w'
    /\ store w' = store w
    /\ (event_is_transcription json = true
        \/ lookup_target resData w = None -> w' = w).
Proof.
  intros Hparse Hkind Hnd. unfold dispatchJson. rewrite Hparse. simpl.
  destruct (event_is_transcription json) eqn:Hev.
  { exists w. repeat split. }
  destruct Hkind as [Hk | Hk]; [discriminate|].
  assert (Hsw : (let targetAd := lookup_target resData w in
                 match Schemas.type resData, targetAd with
                 | Schemas.TInsight, Some ad =>
                     insights_data ← zod (Schemas.InsightsResponsePayload_parse resData);
                     Ok (Some (set_insights
                                 (PReady (Schemas.ir_insights insights_data)) ad), w)
                 | Schemas.TDone, Some ad =>
                     _ ← zod (Schemas.FinishedAdPayload_parse resData);
                     Ok (Some (set_status StDone ad), w)
                 | Schemas.TComplete, _ =>
                     Ok (targetAd, call_nullifyAllPendingRequests w)
                 | Schemas.TError, Some ad =>
                     ad' ← handleAdError ad resData;
                     Ok (Some ad', w)
                 | _, _ => Ok (targetAd, w)
                 end) = Ok (lookup_target resData w, w)).
  { cbv zeta. destruct (Schemas.type resData); try discriminate;
      destruct (lookup_target resData w); reflexivity. }
  cbv zeta in Hsw. rewrite Hsw. simpl.
  destruct (lookup_target resData w) as [target|] eqn:Et; simpl.
  - eexists. split; [reflexivity|]. split.
    + simpl. unfold lookup_target in Et.
      destruct (Schemas.index resData) as [i|]; [|discriminate].
      apply (updateAd_found_is_identity i); assumption.
    + intros [? | ?]; discriminate.
  - exists w. repeat split.
Qed.

Lemma unhandled_text_frame_changes_nothing_witness :
  exists w',
    dispatchJson fatal_error_frame fresh_world = Ok w'
    /\ store w' = fresh_store.
Proof.
  destruct (unhandled_text_frame_changes_nothing fatal_error_frame
              {| Schemas.type := Schemas.TFatalError;
                 Schemas.message := Some "out of credit";
                 Schemas.index := Some (inject_Z 2); Schemas.step := None;
                 Schemas.transcript := None; Schemas.translations := None;
                 Schemas.alignments := None; Schemas.insights := None |}
              fresh_world eq_refl) as (w' & Hrun & Hstore & _).
  - right. reflexivity.
  - exact (CallerFacts.NoDup_positions 4).
  - exists w'. split; [exact Hrun | exact Hstore].
Defined.

(** *** Unknown keys *)

Lemma get_member_other (k k' : string) (v : Schemas.json)
    (o1 o2 : list (string * Schemas.json)) :
  k' <> k ->
  Schemas.get_member k (o1 ++ (k', v) :: o2) = Schemas.get_member k (o1 ++ o2).
Proof.
  intros Hne. induction o1 as [|[k0 v0] o1 IH]; simpl.
  - apply String.eqb_neq in Hne. rewrite Hne. reflexivity.
  - destruct (String.eqb k0 k); [reflexivity | exact IH].
Qed.

(** A member under a key that the message schema does not know is
    stripped: wherever it stands in the object, the frame parses to the
    same payload as without it; and unless the key is [event], the frame
    is dispatched in the same way. *)
Theorem unknown_keys_are_ignored (k : string) (v : Schemas.json)
    (o1 o2 : list (string * Schemas.json)) :
  ~ In k known_keys ->
  Schemas.ResponsePayload_parse (Schemas.JObject (o1 ++ (k, v) :: o2))
  = Schemas.ResponsePayload_parse (Schemas.JObject (o1 ++ o2))
  /\ (k <> "event" ->
      forall w, dispatchJson (Schemas.JObject (o1 ++ (k, v) :: o2)) w
                = dispatchJson (Schemas.JObject (o1 ++ o2)) w).
Proof.
  intros Hk.
  assert (Hget : forall k0, In k0 known_keys ->
            Schemas.get_member k0 (o1 ++ (k, v) :: o2)
            = Schemas.get_member k0 (o1 ++ o2)).
  { intros k0 Hin. apply get_member_other. intros ->. contradiction. }
  assert (Hparse : Schemas.ResponsePayload_parse (Schemas.JObject (o1 ++ (k, v) :: o2))
                   = Schemas.ResponsePayload_parse (Schemas.JObject (o1 ++ o2))).
  { unfold Schemas.ResponsePayload_parse.
    rewrite !Hget by (unfold known_keys; simpl; tauto). reflexivity. }
  split; [exact Hparse|].
  intros Hev w. unfold dispatchJson. rewrite Hparse.
  unfold event_is_transcription. rewrite get_member_other by exact Hev.
  reflexivity.
Qed.

Lemma unknown_keys_are_ignored_witness :
  dispatchJson
    (Schemas.JObject
       [ ("type", Schemas.JString "done"); ("trace", Schemas.JString "ab12");
         ("index", Schemas.JNumber (inject_Z 2)) ])
    fresh_world
  = dispatchJson done_frame fresh_world.
Proof.
  destruct (unknown_keys_are_ignored "trace" (Schemas.JString "ab12")
              [ ("type", Schemas.JString "done") ]
              [ ("index", Schemas.JNumber (inject_Z 2)) ]) as [_ H].
  - unfold known_keys. simpl. intros H.
    repeat (destruct H as [H | H]; [discriminate|]). exact H.
  - apply H. discriminate.
Defined.

Section Frames.
Variable JSON_parse : string -> option Schemas.json.
Variable TextDecoder_decode : list byte -> string.
Variable createObjectURL : nat -> string.

Lemma dispatchBlob_same_indexes (metadata : Schemas.ResponsePayload) (w : World) :
  same_indexes w (dispatchBlob createObjectURL metadata w).
Proof.
  unfold dispatchBlob. simpl.
  set (w1 := {| store := store w; isConnected := isConnected w;
                createdUrls := _; minted := _; reading := reading w;
                calls := calls w |}).
  assert (H1 : same_indexes w w1) by (split; reflexivity).
  destruct (Schemas.type metadata), (lookup_target metadata w1) as [ad|]; simpl;
    try exact H1;
    try (eapply same_indexes_trans; [exact H1|apply call_updateAd_same_indexes]).
  - destruct (Schemas.SpeechResponsePayload_parse metadata); simpl; [|exact H1].
    eapply same_indexes_trans; [exact H1|apply call_updateAd_same_indexes].
  - destruct (Schemas.MergedAdPayload_parse metadata); simpl; [|exact H1].
    eapply same_indexes_trans; [exact H1|apply call_updateAd_same_indexes].
Qed.

Lemma step_same_indexes (w : World) (ev : Event) :
  same_indexes w (step JSON_parse TextDecoder_decode createObjectURL w ev).
Proof.
  destruct ev as [|[s|bytes]|k| |]; unfold step.
  - split; reflexivity.
  - simpl. unfold handleJsonMessage.
    destruct (JSON_parse s) as [json|]; [|apply same_indexes_refl].
    destruct (dispatchJson json w) as [w'|] eqn:E; simpl;
      [apply (dispatchJson_same_indexes json), E | apply same_indexes_refl].
  - simpl. destruct (JSON_parse Blob_toString) as [json|] eqn:Ej.
    + unfold handleJsonMessage. rewrite Ej.
      destruct (dispatchJson json w) as [w'|] eqn:E; simpl;
        [apply (dispatchJson_same_indexes json), E | apply same_indexes_refl].
    + split; reflexivity.
  - destruct (reading w !! k) as [buf|]; [|apply same_indexes_refl].
    unfold reader_onload.
    destruct (decodeFrame JSON_parse TextDecoder_decode buf) as [[metadata audio]|].
    + eapply same_indexes_trans; [|apply dispatchBlob_same_indexes]. split; reflexivity.
    + split; reflexivity.
  - eapply same_indexes_trans; [|apply call_fail_same_indexes]. split; reflexivity.
  - eapply same_indexes_trans; [|apply call_fail_same_indexes]. split; reflexivity.
Qed.

(** Whatever the transport delivers, in whatever order, the session never
    adds, removes or reorders an item, never changes an item's index and
    never moves the active index. *)
Theorem session_keeps_the_collection (evs : list Event) (w : World) :
  let w' := run JSON_parse TextDecoder_decode createObjectURL evs w in
  map index (ads (store w')) = map index (ads (store w))
  /\ length (ads (store w')) = length (ads (store w))
  /\ activeIndex (store w') = activeIndex (store w).
Proof.
  cbv zeta.
  assert (H : same_indexes w (run JSON_parse TextDecoder_decode createObjectURL evs w)).
  { revert w. induction evs as [|ev evs IH]; intros w; [apply same_indexes_refl|].
    simpl. eapply same_indexes_trans; [apply step_same_indexes | apply IH]. }
  destruct H as [Hi Ha]. split; [exact Hi|]. split; [|exact Ha].
  rewrite <- (length_map index), Hi, length_map. reflexivity.
Qed.

(** *** Binary frames *)

(** A binary frame that decodes to a merged message for an existing item
    sets that item's [musicAudioSrc] to the URL minted for the frame and
    nothing else. *)
Theorem merged_frame_sets_music (buf audio : list byte)
    (metadata : Schemas.ResponsePayload) (w : World) (target : AdData) (i : Q) :
  decodeFrame JSON_parse TextDecoder_decode buf = Ok (metadata, audio) ->
  Schemas.type metadata = Schemas.TMerged ->
  Schemas.index metadata = Some i ->
  find_target i (ads (store w)) = Some target ->
  let w' := reader_onload JSON_parse TextDecoder_decode createObjectURL buf w in
  exists target',
    store w' = updateAd target' (store w)
    /\ find_target i (ads (store w')) = Some target'
    /\ musicAudioSrc target' = Some (createObjectURL (minted w))
    /\ index target' = index target
    /\ nonMusicAudioSrc target' = nonMusicAudioSrc target
    /\ transcriptSents target' = transcriptSents target
    /\ englishTranscriptSents target' = englishTranscriptSents target
    /\ insights target' = insights target
    /\ location target' = location target
    /\ status target' = status target
    /\ theme target' = theme target.
Proof.
  intros Hdec Hty Hi Hfind. cbv zeta.
  unfold reader_onload. rewrite Hdec.
  unfold dispatchBlob, mint, lookup_target. simpl.
  rewrite Hty, Hi, Hfind.
  unfold Schemas.MergedAdPayload_parse. rewrite Hty, Hi. simpl.
  eexists. split; [reflexivity|]. split; [|repeat split].
  match goal with
  | |- _ = Some ?T =>
      apply (find_target_updateAd i (ads (store w)) target T);
        [exact Hfind | reflexivity]
  end.
Qed.

Lemma dispatchBlob_mints (metadata : Schemas.ResponsePayload) (w : World) :
  minted (dispatchBlob createObjectURL metadata w) = S (minted w)
  /\ createdUrls (dispatchBlob createObjectURL metadata w)
     = {[ createObjectURL (minted w) ]} ∪ createdUrls w
  /\ (lookup_target metadata w = None ->
      store (dispatchBlob createObjectURL metadata w) = store w
      /\ calls (dispatchBlob createObjectURL metadata w) = calls w).
Proof.
  unfold dispatchBlob. simpl.
  set (w1 := {| store := store w; isConnected := isConnected w;
                createdUrls := _; minted := _; reading := reading w;
                calls := calls w |}).
  change (lookup_target metadata w1) with (lookup_target metadata w).
  destruct (lookup_target metadata w) as [ad|];
    destruct (Schemas.type metadata); simpl;
    try (split; [reflexivity|split; [reflexivity|]]; intros; try discriminate;
         split; reflexivity).
  - destruct (Schemas.SpeechResponsePayload_parse metadata); simpl;
      (split; [reflexivity|split; [reflexivity|discriminate]]).
  - destruct (Schemas.MergedAdPayload_parse metadata); simpl;
      (split; [reflexivity|split; [reflexivity|discriminate]]).
Qed.

(** Every binary frame that decodes mints exactly one object URL and
    records it, whatever its type and whether or not an item takes it; a
    frame for an index that no item carries leaves the store untouched all
    the same.  A frame that fails to decode mints nothing and changes
    nothing. *)
Theorem binary_frame_mints_one_url (buf : list byte) (w : World) :
  let w' := reader_onload JSON_parse TextDecoder_decode createObjectURL buf w in
  (forall metadata audio,
     decodeFrame JSON_parse TextDecoder_decode buf = Ok (metadata, audio) ->
     minted w' = S (minted w)
     /\ createdUrls w' = {[ createObjectURL (minted w) ]} ∪ createdUrls w
     /\ (lookup_target metadata w = None ->
         store w' = store w /\ calls w' = calls w))
  /\ (forall e, decodeFrame JSON_parse TextDecoder_decode buf = Throw e -> w' = w).
Proof.
  cbv zeta. unfold reader_onload. split.
  - intros metadata audio Hdec. rewrite Hdec. apply dispatchBlob_mints.
  - intros e Hdec. rewrite Hdec. reflexivity.
Qed.

End Frames.

Lemma merged_frame_sets_music_witness :
  exists target',
    find_target (inject_Z 2)
      (ads (store (dispatchBlob sample_createObjectURL (merged_meta 2) fresh_world)))
    = Some target'
    /\ musicAudioSrc target' = Some "blob:avox/0"
    /\ nonMusicAudioSrc target' = Some "pending".
Proof.
  pose (parse := fun _ : string =>
    Some (Schemas.JObject [ ("type", Schemas.JString "merged");
                            ("index", Schemas.JNumber (inject_Z 2)) ])).
  destruct (merged_frame_sets_music parse sample_decode sample_createObjectURL
              (binary_frame [] five_audio_bytes) five_audio_bytes (merged_meta 2)
              fresh_world (fresh_ad 2) (inject_Z 2))
    as (target' & _ & Hfind & Hm & _ & Hn & _); try reflexivity.
  exists target'. split; [exact Hfind|]. split; [exact Hm | exact Hn].
Defined.

Lemma binary_frame_mints_one_url_witness :
  minted (reader_onload sample_JSON_parse sample_decode sample_createObjectURL
            translated_frame (new_world initial)) = 1%nat
  /\ store (reader_onload sample_JSON_parse sample_decode sample_createObjectURL
              translated_frame (new_world initial)) = initial.
Proof.
  destruct (binary_frame_mints_one_url sample_JSON_parse sample_decode
              sample_createObjectURL translated_frame (new_world initial)) as [H _].
  destruct (H translated_meta five_audio_bytes) as (Hm & _ & Hs).
  - vm_compute. reflexivity.
  - split; [exact Hm|]. apply Hs. reflexivity.
Defined.

End WsServiceFrames.

(** ** Insights on sentences, and the sentences on display *)

Module UtilsFacts.
Import AdDataStore Utils TranscriptSync Samples.

Lemma mapInsightsToSentences_lookup (sentences : list Sentence)
    (insights : list Insight) (k : nat) (s : Sentence) :
  sentences !! k = Some s ->
  exists mapped,
    mapInsightsToSentences sentences insights !! k
    = Some {| ds_text := text s; ds_start := start s; ds_end := end_ s;
              ds_insights := Some mapped |}
    /\ forall m, m ∈ mapped <->
         exists ins p, ins ∈ insights
           /\ indexOf (text s) (insight ins) = Some p
           /\ m = {| mi_insight := insight ins; mi_explanation := explanation ins;
                     sentenceIndex := k; startChar := p;
                     endChar := p + String.length (insight ins) |}.
Proof.
  intros Hk. unfold mapInsightsToSentences.
  rewrite list_lookup_imap, Hk. simpl. eexists. split; [reflexivity|].
  intros m. rewrite list_elem_of_omap. split.
  - intros (ins & Hin & Hm).
    destruct (indexOf (text s) (insight ins)) as [p|] eqn:Ep; [|discriminate].
    injection Hm as <-. exists ins, p. repeat split; assumption.
  - intros (ins & p & Hin & Hp & ->). exists ins. split; [exact Hin|].
    rewrite Hp. reflexivity.
Qed.

(** [mapInsightsToSentences] keeps the sentences, one for one, with their
    text and timing.  Each insight it attaches to a sentence is one of the
    given insights, carries the sentence's position, and is located at the
    first occurrence of its excerpt in the sentence's text: the text reads
    the excerpt from [startChar], not earlier, and [endChar] is [startChar]
    plus the excerpt's length.  An insight with a non-empty excerpt is
    attached exactly when the excerpt occurs in the text. *)
Theorem mapInsightsToSentences_locates (sentences : list Sentence)
    (insights : list Insight) (k : nat) (s : Sentence) :
  sentences !! k = Some s ->
  length (mapInsightsToSentences sentences insights) = length sentences
  /\ exists mapped,
       mapInsightsToSentences sentences insights !! k
       = Some {| ds_text := text s; ds_start := start s; ds_end := end_ s;
                 ds_insights := Some mapped |}
       /\ (forall m, In m mapped ->
             sentenceIndex m = k
             /\ (exists ins, In ins insights /\ insight ins = mi_insight m
                             /\ explanation ins = mi_explanation m)
             /\ String.substring (startChar m) (String.length (mi_insight m)) (text s)
                = mi_insight m
             /\ endChar m = (startChar m + String.length (mi_insight m))%nat
             /\ forall p, (p < startChar m)%nat ->
                  String.substring p (String.length (mi_insight m)) (text s)
                  <> mi_insight m)
       /\ (forall ins, In ins insights -> insight ins <> "" ->
             (exists p, String.substring p (String.length (insight ins)) (text s)
                        = insight ins)
             <-> exists m, In m mapped /\ mi_insight m = insight ins
                           /\ mi_explanation m = explanation ins).
Proof.
  intros Hk. split; [apply length_imap|].
  destruct (mapInsightsToSentences_lookup sentences insights k s Hk)
    as (mapped & Hlook & Hmem).
  exists mapped. split; [exact Hlook|]. split.
  - intros m Hin. apply list_elem_of_In, Hmem in Hin as (ins & p & Hins & Hp & ->).
    simpl. unfold indexOf in Hp. split; [reflexivity|]. split.
    + exists ins. split; [apply list_elem_of_In, Hins|]. split; reflexivity.
    + split; [apply (String.index_correct1 0 p), Hp|]. split; [reflexivity|].
      intros q Hq. apply (String.index_correct2 0 p _ _ Hp q); lia.
  - intros ins Hins Hne. split.
    + intros (p & Hp).
      destruct (indexOf (text s) (insight ins)) as [q|] eqn:Eq.
      * exists {| mi_insight := insight ins; mi_explanation := explanation ins;
                  sentenceIndex := k; startChar := q;
                  endChar := q + String.length (insight ins) |}.
        split; [|split; reflexivity].
        apply list_elem_of_In, Hmem. exists ins, q.
        split; [apply list_elem_of_In, Hins|]. split; [exact Eq | reflexivity].
      * exfalso. unfold indexOf in Eq.
        apply (String.index_correct3 0 p _ _ Eq Hne); [lia | exact Hp].
    + intros (m & Hin & Hi & _).
      apply list_elem_of_In, Hmem in Hin as (ins' & q & _ & Hq & ->).
      simpl in Hi. exists q. rewrite <- Hi. apply (String.index_correct1 0 q), Hq.
Qed.

Lemma mapInsightsToSentences_locates_witness :
  map ds_insights (mapInsightsToSentences [welcome; goodbye] [lagos_insight; rain_insight])
  = [ Some [ {| mi_insight := "Lagos"; mi_explanation := "names the city";
                sentenceIndex := 0; startChar := 15; endChar := 20 |} ];
      Some [] ].
Proof.
  destruct (mapInsightsToSentences_locates [welcome; goodbye]
              [lagos_insight; rain_insight] 0 welcome eq_refl)
    as (_ & mapped & Hlook & _).
  vm_compute in Hlook. injection Hlook as <-. reflexivity.
Defined.

Lemma shown_lookup (final : list Sentence) (apply : bool)
    (insights : option (list Insight)) (k : nat) (s : Sentence) :
  final !! k = Some s ->
  exists d,
    match apply, insights with
    | true, Some ins => mapInsightsToSentences final ins
    | _, _ => map plain final
    end !! k = Some d
    /\ ds_text d = text s /\ ds_start d = start s /\ ds_end d = end_ s
    /\ (apply = false -> ds_insights d = None).
Proof.
  intros Hk. destruct apply, insights as [ins|];
    try solve [ exists (plain s); change (map plain final) with (plain <$> final);
                rewrite list_lookup_fmap, Hk; repeat split ].
  destruct (mapInsightsToSentences_lookup final ins k s Hk) as (mapped & Hl & _).
  eexists. split; [exact Hl|]. repeat split. discriminate.
Qed.

(** The transcript on display has one sentence per spoken sentence, each
    with the timing of the spoken sentence.  Its text is the spoken text,
    except that with English selected and an English transcript present it
    is the English line of the same position when there is a non-empty
    one.  While an English transcript is present and the spoken language is
    selected, no sentence carries insights.  Until the spoken sentences are
    ready nothing is displayed. *)
Theorem processedSentences_keeps_timing (defaults : list Sentence)
    (english : option (list string)) (insights : Progress Insight)
    (lang : LanguageOption) (k : nat) (s : Sentence) :
  defaults !! k = Some s ->
  let shown := processedSentences (PReady defaults) english insights lang in
  length shown = length defaults
  /\ (exists d,
        shown !! k = Some d
        /\ ds_start d = start s /\ ds_end d = end_ s
        /\ (lang = LDefault \/ english = None -> ds_text d = text s)
        /\ (forall lines, lang = LEnglish -> english = Some lines ->
              (forall line, lines !! k = Some line -> line <> "" -> ds_text d = line)
              /\ (lines !! k = None \/ lines !! k = Some "" -> ds_text d = text s))
        /\ (lang = LDefault -> english <> None -> ds_insights d = None))
  /\ processedSentences PPending english insights lang = []
  /\ processedSentences PError english insights lang = []
  /\ processedSentences PNull english insights lang = [].
Proof.
  intros Hk. cbv zeta. split; [|split; [|repeat split]].
  - unfold processedSentences, mapInsightsToSentences. simpl.
    destruct lang, english as [lines|], (processAdData insights); simpl;
      rewrite ?length_imap, ?length_map, ?length_imap; reflexivity.
  - unfold processedSentences. simpl.
    destruct lang, english as [lines|]; simpl.
    + destruct (shown_lookup defaults false (processAdData insights) k s Hk)
        as (d & Hd & Ht & Hs & He & Hi).
      exists d. split; [exact Hd|]. repeat split; try assumption; try discriminate.
      * intros _. exact Ht.
      * intros _ _. apply Hi. reflexivity.
    + destruct (shown_lookup defaults true (processAdData insights) k s Hk)
        as (d & Hd & Ht & Hs & He & Hi).
      exists d. split; [exact Hd|]. repeat split; try assumption; try discriminate.
      * intros _. exact Ht.
      * intros _ H. contradiction.
    + set (final := imap (fun index defaultSent =>
                            {| text := english_or lines index (text defaultSent);
                               start := start defaultSent;
                               end_ := end_ defaultSent |}) defaults).
      assert (Hf : final !! k
                   = Some {| text := english_or lines k (text s);
                             start := start s; end_ := end_ s |}).
      { unfold final. rewrite list_lookup_imap, Hk. reflexivity. }
      destruct (shown_lookup final true (processAdData insights) k _ Hf)
        as (d & Hd & Ht & Hs & He & Hi).
      simpl in Ht, Hs, He.
      exists d. split; [exact Hd|]. split; [exact Hs|]. split; [exact He|].
      split; [intros [? | ?]; discriminate|]. split; [|discriminate].
      intros lines' _ [= <-]. split.
      * intros line Hl Hne. rewrite Ht. unfold english_or. rewrite Hl.
        apply String.eqb_neq in Hne. rewrite Hne. reflexivity.
      * intros [Hl | Hl]; rewrite Ht; unfold english_or; rewrite Hl; reflexivity.
    + destruct (shown_lookup defaults true (processAdData insights) k s Hk)
        as (d & Hd & Ht & Hs & He & Hi).
      exists d. split; [exact Hd|]. repeat split; try assumption; try discriminate.
      intros _. exact Ht.
Qed.

Lemma processedSentences_keeps_timing_witness :
  map ds_text
    (processedSentences (PReady [welcome; goodbye]) (Some ["Pain frais"; ""])
       (PReady [lagos_insight]) LEnglish)
  = ["Pain frais"; "Come by before noon"].
Proof.
  destruct (processedSentences_keeps_timing [welcome; goodbye]
              (Some ["Pain frais"; ""]) (PReady [lagos_insight]) LEnglish
              1 goodbye eq_refl) as (_ & (d & Hd & _) & _).
  vm_compute in Hd. injection Hd as <-. reflexivity.
Defined.

End UtilsFacts.


(** ** The bubbles after the session ends *)

Module ThoughtBubbleFacts.
Import AdDataStore NotificationStore ThoughtBubble Statements Samples.

Lemma failed_item_outcome (ad : AdData) :
  musicAudioSrc ad = Some "pending" \/ nonMusicAudioSrc ad = Some "pending" ->
  trackOutcome (failAd ad) = Some UError.
Proof.
  intros H. unfold trackOutcome.
  destruct (AdDataStoreFacts.failAd_music ad) as [Hm _].
  destruct (AdDataStoreFacts.failAd_nonMusic ad) as [Hn _].
  destruct H as [H | H].
  - rewrite (Hm H). reflexivity.
  - rewrite (Hn H). simpl. rewrite orb_true_r. reflexivity.
Qed.

Lemma nullified_item_outcome (ad : AdData) :
  musicAudioSrc ad <> Some "error" -> nonMusicAudioSrc ad <> Some "error" ->
  is_available (musicAudioSrc ad) = false ->
  is_available (nonMusicAudioSrc ad) = false ->
  trackOutcome (nullifyAd ad) = None.
Proof.
  destruct ad as [i m n t e ins l s th].
  unfold trackOutcome, nullifyAd, is_str, is_available. simpl.
  intros Hm Hn.
  destruct m as [x|], n as [y|]; simpl;
    repeat match goal with
           | |- context [String.eqb ?a ?b] =>
               destruct (String.eqb_spec a b); subst; simpl
           end;
    congruence.
Qed.

(** An item that still had a variant pending when the session failed
    raises, for a track that is not the focused one, the 8000 ms error
    notification, after [failAllPendingRequests]; after
    [nullifyAllPendingRequests] its bubble reports nothing when no variant
    was in error or playable. *)
Theorem bulk_operations_as_notifications (random_suffix : nat -> string)
    (k : nat) (st : AdDataState) (w : World) (ad : AdData) :
  ads st !! k = Some ad ->
  musicAudioSrc ad = Some "pending" \/ nonMusicAudioSrc ad = Some "pending" ->
  activeTrackIndex (state w) <> Some (Z.of_nat k) ->
  (exists n,
     announced w (trackEffect random_suffix k (failAllPendingRequests st) w) n 8000
     /\ type n = NError
     /\ message n = "Track " ++ show (Z.of_nat k + 1) ++ " needs attention")
  /\ (musicAudioSrc ad <> Some "error" -> nonMusicAudioSrc ad <> Some "error" ->
      is_available (musicAudioSrc ad) = false ->
      is_available (nonMusicAudioSrc ad) = false ->
      trackEffect random_suffix k (nullifyAllPendingRequests st) w = w).
Proof.
  intros Hk Hpending Hother. split.
  - unfold trackEffect, failAllPendingRequests, setAds. simpl.
    rewrite list_lookup_fmap, Hk. simpl.
    rewrite (failed_item_outcome ad Hpending).
    unfold handleTrackUpdate.
    rewrite (NotificationStoreFacts.not_focused w (Z.of_nat k) Hother).
    exists (made_notification random_suffix (createErrorNotification (Z.of_nat k)) w).
    split; [apply NotificationExpiry.addNotification_announced | split; reflexivity].
  - intros Hm Hn Ham Han.
    unfold trackEffect, nullifyAllPendingRequests, setAds. simpl.
    rewrite list_lookup_fmap, Hk. simpl.
    rewrite (nullified_item_outcome ad Hm Hn Ham Han). reflexivity.
Qed.

Lemma bulk_operations_as_notifications_witness :
  map message
    (notifications
       (state (trackEffect sample_suffix 1 (failAllPendingRequests example_store)
                 (new_world 50))))
  = ["Track 2 needs attention"]
  /\ trackEffect sample_suffix 1 (nullifyAllPendingRequests example_store) (new_world 50)
     = new_world 50.
Proof.
  destruct (bulk_operations_as_notifications sample_suffix 1 example_store
              (new_world 50) (example_ad 1 None (Some "pending")) eq_refl)
    as ((n & (Hn & _) & _ & Hmsg) & Hnull).
  - right; reflexivity.
  - discriminate.
  - split.
    + rewrite Hn. simpl. rewrite Hmsg. reflexivity.
    + apply Hnull; [discriminate | discriminate | reflexivity | reflexivity].
Defined.

End ThoughtBubbleFacts.
